(** * xyflow: node/edge state engine, shallow embedding and verified properties

    The development follows the TypeScript sources:
    - [src/packages/system/src/types/utils.ts]: geometry types, [clamp],
      [clampPosition], [clampPositionToParent], boxes and rects,
      [getNodeDimensions];
    - [src/unnamed/part_002]: [getNodePositionWithOrigin], [getNodesBounds],
      [getInternalNodesBounds];
    - [src/unnamed/part_003]: [adoptUserNodes], [updateChildNode],
      [calculateChildXYZ];
    - [src/packages/react/src/utils/changes.ts]: [applyChanges],
      [getSelectionChanges], [getElementsDiffChanges];
    - [src/packages/system/src/xyresizer/utils.ts]: [getDimensionsAfterResize];
    - [src/packages/react/src/components/BatchProvider/useQueue.ts] and
      [src/unnamed/part_000]: [useQueue] and the queue handlers.

    Conventions of the embedding:
    - a JavaScript [number] is a value of [JsNum.num]: a rational, or one of
      the IEEE specials NaN, +Infinity, -Infinity; the two zeros are one
      number.  Comparisons, [Math.min], [Math.max] and [Math.floor] are those
      of [JsNum].  The arithmetic comes twice: the operations of [JsNum] are
      exact, those of [F64] round the exact result to the nearest double as
      IEEE 754 binary64 does (ties to even, overflow to an infinity), and the
      functions that place nodes are given over both.  What is stated over
      [JsNum] is about comparisons and about sums, differences and quotients
      that are exact in doubles as well; bounds on positions that the code
      computes are stated over [F64].
    - a JavaScript object that is compared with [===] carries its identity in a
      field [ref]; a shallow copy [{...o}] allocates a fresh identity from a
      counter threaded through the allocating functions (monad [Alloc]).
      Nested objects ([position], [measured]) are values.
    - an optional property is an [option]; [undefined] is [None], and a
      property that is present with the value [undefined] is not told apart
      from an absent one.
    - a JavaScript [Map] is an association list in insertion order ([JsMap]). *)

From Stdlib Require Import String List Bool Arith ZArith NArith QArith Qminmax Qround Qpower Lia Lqa.
From Stdlib Require Qabs.
Import ListNotations.

Set Implicit Arguments.

(* ------------------------------------------------------------------------- *)
(** ** JavaScript numbers *)

Module JsNum.

Inductive num : Type :=
| NaN
| NInf
| Fin (q : Q)
| PInf.

Definition zero : num := Fin 0.

Definition is_finite (a : num) : bool :=
  match a with Fin _ => true | _ => false end.

Definition is_nan (a : num) : bool :=
  match a with NaN => true | _ => false end.

Definition neg (a : num) : num :=
  match a with
  | NaN => NaN
  | NInf => PInf
  | PInf => NInf
  | Fin q => Fin (- q)
  end.

Definition add (a b : num) : num :=
  match a, b with
  | NaN, _ | _, NaN => NaN
  | PInf, NInf | NInf, PInf => NaN
  | PInf, _ | _, PInf => PInf
  | NInf, _ | _, NInf => NInf
  | Fin p, Fin q => Fin (p + q)
  end.

Definition sub (a b : num) : num := add a (neg b).

(** Infinity scaled by a finite factor: the sign of the factor decides, a
    zero factor gives NaN. *)
Definition scale_inf (positive : bool) (q : Q) : num :=
  match q ?= 0 with
  | Eq => NaN
  | Gt => if positive then PInf else NInf
  | Lt => if positive then NInf else PInf
  end.

Definition mul (a b : num) : num :=
  match a, b with
  | NaN, _ | _, NaN => NaN
  | Fin p, Fin q => Fin (p * q)
  | PInf, Fin q | Fin q, PInf => scale_inf true q
  | NInf, Fin q | Fin q, NInf => scale_inf false q
  | PInf, PInf | NInf, NInf => PInf
  | PInf, NInf | NInf, PInf => NInf
  end.

(** Division; a zero divisor is read as +0. *)
Definition div (a b : num) : num :=
  match a, b with
  | NaN, _ | _, NaN => NaN
  | Fin p, Fin q =>
      match q ?= 0 with
      | Eq => match p ?= 0 with Eq => NaN | Gt => PInf | Lt => NInf end
      | _ => Fin (p / q)
      end
  | Fin _, (PInf | NInf) => Fin 0
  | PInf, Fin q => match q ?= 0 with Lt => NInf | _ => PInf end
  | NInf, Fin q => match q ?= 0 with Lt => PInf | _ => NInf end
  | (PInf | NInf), (PInf | NInf) => NaN
  end.

(** [a < b]; any comparison with NaN is false. *)
Definition ltb (a b : num) : bool :=
  match a, b with
  | NaN, _ | _, NaN => false
  | _, NInf => false
  | NInf, _ => true
  | PInf, _ => false
  | Fin _, PInf => true
  | Fin p, Fin q => match p ?= q with Lt => true | _ => false end
  end.

Definition gtb (a b : num) : bool := ltb b a.

(** [a === b] on numbers. *)
Definition eqb (a b : num) : bool :=
  match a, b with
  | NInf, NInf | PInf, PInf => true
  | Fin p, Fin q => Qeq_bool p q
  | _, _ => false
  end.

(** [Math.max] and [Math.min] of two arguments. *)
Definition max (a b : num) : num :=
  match a, b with
  | NaN, _ | _, NaN => NaN
  | PInf, _ | _, PInf => PInf
  | NInf, c | c, NInf => c
  | Fin p, Fin q => Fin (Qmax p q)
  end.

Definition min (a b : num) : num :=
  match a, b with
  | NaN, _ | _, NaN => NaN
  | NInf, _ | _, NInf => NInf
  | PInf, c | c, PInf => c
  | Fin p, Fin q => Fin (Qmin p q)
  end.

Definition max3 (a b c : num) : num := max (max a b) c.

(** [Math.floor]. *)
Definition floor (a : num) : num :=
  match a with
  | Fin q => Fin (inject_Z (Qfloor q))
  | other => other
  end.

(** Truthiness of a number: [0] and NaN are falsy. *)
Definition truthy (a : num) : bool :=
  match a with
  | NaN => false
  | Fin q => negb (Qeq_bool q 0)
  | _ => true
  end.

(** Equality and order of numbers as propositions (rationals up to [==]). *)
Definition num_eq (a b : num) : Prop :=
  match a, b with
  | NaN, NaN | NInf, NInf | PInf, PInf => True
  | Fin p, Fin q => p == q
  | _, _ => False
  end.

Definition num_le (a b : num) : Prop :=
  match a, b with
  | NaN, _ | _, NaN => False
  | NInf, _ | _, PInf => True
  | Fin p, Fin q => p <= q
  | _, _ => False
  end.

End JsNum.
Import JsNum.

(** [isNumeric(n)]: [!isNaN(n) && isFinite(n)], on an optional number. *)
Definition isNumeric (n : option num) : bool :=
  match n with
  | Some a => is_finite a
  | None => false
  end.

(* ------------------------------------------------------------------------- *)
(** ** Geometry types ([types/utils.ts], first part) *)

Record XYPosition : Type := { x : num; y : num }.

Record Dimensions : Type := { width : num; height : num }.

(** [Partial<Dimensions>], also the type of [node.measured]. *)
Record PartialDimensions : Type := { pwidth : option num; pheight : option num }.

Record Rect : Type :=
  { rect_x : num; rect_y : num; rect_width : num; rect_height : num }.

Record Box : Type := { box_x : num; box_y : num; box_x2 : num; box_y2 : num }.

(** [CoordinateExtent = [[number, number], [number, number]]]. *)
Definition CoordinateExtent : Type := ((num * num) * (num * num))%type.

Definition NodeOrigin : Type := (num * num)%type.

Definition infiniteExtent : CoordinateExtent := ((NInf, NInf), (PInf, PInf)).

Inductive Extent : Type :=
| ExtentParent
| ExtentCoords (e : CoordinateExtent).

(** [a ?? b] *)
Definition orElse {A} (a : option A) (b : A) : A :=
  match a with Some v => v | None => b end.

Definition orElseOpt {A} (a b : option A) : option A :=
  match a with Some v => Some v | None => b end.

(** Truthiness of optional booleans and strings. *)
Definition truthyBool (b : option bool) : bool := orElse b false.

Definition truthyStr (s : option string) : bool :=
  match s with
  | Some s => negb (String.eqb s "")
  | None => false
  end.

(* ------------------------------------------------------------------------- *)
(** ** Nodes and internal nodes *)

(** Measured connection-handle geometry; produced by the DOM measurement and
    only carried around here. *)
Record HandleBounds : Type :=
  { hb_source : option (list Rect); hb_target : option (list Rect) }.

(** A user node (also used for any element handled by the change utilities).
    [ref] is the identity of the JavaScript object. *)
Record Node : Type :=
  { ref : nat;
    id : string;
    position : XYPosition;
    nwidth : option num;
    nheight : option num;
    initialWidth : option num;
    initialHeight : option num;
    measured : option PartialDimensions;
    parentId : option string;
    origin : option NodeOrigin;
    extent : option Extent;
    expandParent : option bool;
    zIndex : option num;
    selected : option bool;
    dragging : option bool;
    resizing : option bool;
    hidden : option bool }.

Definition with_ref (r : nat) (n : Node) : Node :=
  {| ref := r; id := id n; position := position n;
     nwidth := nwidth n; nheight := nheight n;
     initialWidth := initialWidth n; initialHeight := initialHeight n;
     measured := measured n; parentId := parentId n; origin := origin n;
     extent := extent n; expandParent := expandParent n; zIndex := zIndex n;
     selected := selected n; dragging := dragging n; resizing := resizing n;
     hidden := hidden n |}.

Definition with_selected (s : option bool) (n : Node) : Node :=
  {| ref := ref n; id := id n; position := position n;
     nwidth := nwidth n; nheight := nheight n;
     initialWidth := initialWidth n; initialHeight := initialHeight n;
     measured := measured n; parentId := parentId n; origin := origin n;
     extent := extent n; expandParent := expandParent n; zIndex := zIndex n;
     selected := s; dragging := dragging n; resizing := resizing n;
     hidden := hidden n |}.

Definition with_position (p : XYPosition) (n : Node) : Node :=
  {| ref := ref n; id := id n; position := p;
     nwidth := nwidth n; nheight := nheight n;
     initialWidth := initialWidth n; initialHeight := initialHeight n;
     measured := measured n; parentId := parentId n; origin := origin n;
     extent := extent n; expandParent := expandParent n; zIndex := zIndex n;
     selected := selected n; dragging := dragging n; resizing := resizing n;
     hidden := hidden n |}.

Definition with_dragging (d : option bool) (n : Node) : Node :=
  {| ref := ref n; id := id n; position := position n;
     nwidth := nwidth n; nheight := nheight n;
     initialWidth := initialWidth n; initialHeight := initialHeight n;
     measured := measured n; parentId := parentId n; origin := origin n;
     extent := extent n; expandParent := expandParent n; zIndex := zIndex n;
     selected := selected n; dragging := d; resizing := resizing n;
     hidden := hidden n |}.

Definition with_resizing (d : option bool) (n : Node) : Node :=
  {| ref := ref n; id := id n; position := position n;
     nwidth := nwidth n; nheight := nheight n;
     initialWidth := initialWidth n; initialHeight := initialHeight n;
     measured := measured n; parentId := parentId n; origin := origin n;
     extent := extent n; expandParent := expandParent n; zIndex := zIndex n;
     selected := selected n; dragging := dragging n; resizing := d;
     hidden := hidden n |}.

Definition with_measured (m : option PartialDimensions) (n : Node) : Node :=
  {| ref := ref n; id := id n; position := position n;
     nwidth := nwidth n; nheight := nheight n;
     initialWidth := initialWidth n; initialHeight := initialHeight n;
     measured := m; parentId := parentId n; origin := origin n;
     extent := extent n; expandParent := expandParent n; zIndex := zIndex n;
     selected := selected n; dragging := dragging n; resizing := resizing n;
     hidden := hidden n |}.

Definition with_size (w h : option num) (n : Node) : Node :=
  {| ref := ref n; id := id n; position := position n;
     nwidth := w; nheight := h;
     initialWidth := initialWidth n; initialHeight := initialHeight n;
     measured := measured n; parentId := parentId n; origin := origin n;
     extent := extent n; expandParent := expandParent n; zIndex := zIndex n;
     selected := selected n; dragging := dragging n; resizing := resizing n;
     hidden := hidden n |}.

(** [Partial<NodeType>], the [defaults] option of the adoption: properties
    spread under the user node's own. *)
Record NodeDefaults : Type :=
  { d_width : option num;
    d_height : option num;
    d_initialWidth : option num;
    d_initialHeight : option num;
    d_parentId : option string;
    d_origin : option NodeOrigin;
    d_extent : option Extent;
    d_expandParent : option bool;
    d_zIndex : option num;
    d_selected : option bool;
    d_dragging : option bool;
    d_resizing : option bool;
    d_hidden : option bool }.

Definition noDefaults : NodeDefaults :=
  {| d_width := None; d_height := None; d_initialWidth := None;
     d_initialHeight := None; d_parentId := None; d_origin := None;
     d_extent := None; d_expandParent := None; d_zIndex := None;
     d_selected := None; d_dragging := None; d_resizing := None;
     d_hidden := None |}.

Record Internals : Type :=
  { positionAbsolute : XYPosition;
    z : num;
    handleBounds : option HandleBounds;
    userNode : Node }.

(** An internal node is a node-shaped object (its own identity is the [ref] of
    [base]) extended with [internals]. *)
Record InternalNode : Type :=
  { base : Node;
    internals : Internals }.

(** What a lookup may hold: the node lookup holds internal nodes, the edge
    lookup holds the user's elements themselves. *)
Inductive LookupItem : Type :=
| Internal (n : InternalNode)
| Plain (e : Node).

(* ------------------------------------------------------------------------- *)
(** ** Allocation of object identities *)

Definition Alloc (A : Type) : Type := nat -> A * nat.

Definition ret {A} (a : A) : Alloc A := fun n => (a, n).

Definition bind {A B} (m : Alloc A) (f : A -> Alloc B) : Alloc B :=
  fun n => let (a, n') := m n in f a n'.

Notation "x <- m ;; k" := (bind m (fun x => k))
  (at level 61, m at next level, right associativity).

(** [{ ...o }] *)
Definition copy (o : Node) : Alloc Node := fun n => (with_ref n o, S n).

(* ------------------------------------------------------------------------- *)
(** ** JavaScript [Map] with string keys *)

Module JsMap.

Definition t (V : Type) : Type := list (string * V).

Definition empty {V} : t V := [].

Fixpoint get {V} (k : string) (m : t V) : option V :=
  match m with
  | [] => None
  | (k', v) :: rest => if String.eqb k k' then Some v else get k rest
  end.

Definition has {V} (k : string) (m : t V) : bool :=
  match get k m with Some _ => true | None => false end.

(** [set] keeps the position of an existing key and appends a new one. *)
Fixpoint set {V} (k : string) (v : V) (m : t V) : t V :=
  match m with
  | [] => [(k, v)]
  | (k', v') :: rest =>
      if String.eqb k k' then (k', v) :: rest else (k', v') :: set k v rest
  end.

(** [new Map(entries)] *)
Definition ofEntries {V} (entries : list (string * V)) : t V :=
  fold_left (fun m kv => set (fst kv) (snd kv) m) entries empty.

Definition keys {V} (m : t V) : list string := map fst m.

Definition size {V} (m : t V) : nat := List.length m.

End JsMap.

Definition NodeLookup : Type := JsMap.t InternalNode.
Definition ParentLookup : Type := JsMap.t (JsMap.t InternalNode).

(* ------------------------------------------------------------------------- *)
(** ** General utilities ([types/utils.ts], second part) *)

(** [clamp(val, min = 0, max = 1)]; every call here passes both bounds. *)
Definition clamp (val : num) (min max : num) : num :=
  JsNum.min (JsNum.max val min) max.

Definition originPosition : XYPosition := {| x := zero; y := zero |}.

(** [clampPosition(position = { x: 0, y: 0 }, extent, dimensions)] *)
Definition clampPosition (position : option XYPosition) (extent : CoordinateExtent)
  (dimensions : PartialDimensions) : XYPosition :=
  let position := orElse position originPosition in
  {| x := clamp (x position) (fst (fst extent))
            (sub (fst (snd extent)) (orElse (pwidth dimensions) zero));
     y := clamp (y position) (snd (fst extent))
            (sub (snd (snd extent)) (orElse (pheight dimensions) zero)) |}.

Definition measuredWidth (n : Node) : option num :=
  match measured n with Some m => pwidth m | None => None end.

Definition measuredHeight (n : Node) : option num :=
  match measured n with Some m => pheight m | None => None end.

(** [getNodeDimensions(node)] *)
Definition getNodeDimensions (node : Node) : Dimensions :=
  {| width :=
       orElse (orElseOpt (orElseOpt (measuredWidth node) (nwidth node)) (initialWidth node)) zero;
     height :=
       orElse (orElseOpt (orElseOpt (measuredHeight node) (nheight node)) (initialHeight node)) zero |}.

(** A [Dimensions] value where a [Partial<Dimensions>] is expected. *)
Definition asPartial (d : Dimensions) : PartialDimensions :=
  {| pwidth := Some (width d); pheight := Some (height d) |}.

(** [clampPositionToParent(childPosition, childDimensions, parent)] *)
Definition clampPositionToParent (childPosition : XYPosition)
  (childDimensions : Dimensions) (parent : InternalNode) : XYPosition :=
  let parentWidth := width (getNodeDimensions (base parent)) in
  let parentHeight := height (getNodeDimensions (base parent)) in
  let parentX := x (positionAbsolute (internals parent)) in
  let parentY := y (positionAbsolute (internals parent)) in
  clampPosition (Some childPosition)
    ((parentX, parentY), (add parentX parentWidth, add parentY parentHeight))
    (asPartial childDimensions).

(** [getBoundsOfBoxes(box1, box2)] *)
Definition getBoundsOfBoxes (box1 box2 : Box) : Box :=
  {| box_x := JsNum.min (box_x box1) (box_x box2);
     box_y := JsNum.min (box_y box1) (box_y box2);
     box_x2 := JsNum.max (box_x2 box1) (box_x2 box2);
     box_y2 := JsNum.max (box_y2 box1) (box_y2 box2) |}.

(** [rectToBox] and [boxToRect] *)
Definition rectToBox (r : Rect) : Box :=
  {| box_x := rect_x r; box_y := rect_y r;
     box_x2 := add (rect_x r) (rect_width r);
     box_y2 := add (rect_y r) (rect_height r) |}.

Definition boxToRect (b : Box) : Rect :=
  {| rect_x := box_x b; rect_y := box_y b;
     rect_width := sub (box_x2 b) (box_x b);
     rect_height := sub (box_y2 b) (box_y b) |}.

(** [isCoordinateExtent(extent)] together with the narrowing it licenses. *)
Definition isCoordinateExtent (extent : option Extent) : option CoordinateExtent :=
  match extent with
  | Some (ExtentCoords e) => Some e
  | _ => None
  end.

(* ------------------------------------------------------------------------- *)
(** ** Graph utilities ([unnamed/part_002]) *)

Definition defaultNodeOrigin : NodeOrigin := (zero, zero).

(** [getNodePositionWithOrigin(node, nodeOrigin = [0, 0])] *)
Definition getNodePositionWithOrigin (node : Node) (nodeOrigin : option NodeOrigin)
  : XYPosition :=
  let nodeOrigin := orElse nodeOrigin defaultNodeOrigin in
  let dims := getNodeDimensions node in
  let origin := orElse (origin node) nodeOrigin in
  let offsetX := mul (width dims) (fst origin) in
  let offsetY := mul (height dims) (snd origin) in
  {| x := sub (x (position node)) offsetX;
     y := sub (y (position node)) offsetY |}.

(** [nodeToBox(node, nodeOrigin = [0, 0])]; [isInternalNodeBase] is the
    constructor test. *)
Definition nodeToBox (node : LookupItem) (nodeOrigin : option NodeOrigin) : Box :=
  let (p, n) :=
    match node with
    | Internal i => (positionAbsolute (internals i), base i)
    | Plain u => (getNodePositionWithOrigin u nodeOrigin, u)
    end in
  {| box_x := x p;
     box_y := y p;
     box_x2 := add (x p)
                 (orElse (orElseOpt (orElseOpt (measuredWidth n) (nwidth n)) (initialWidth n)) zero);
     box_y2 := add (y p)
                 (orElse (orElseOpt (orElseOpt (measuredHeight n) (nheight n)) (initialHeight n)) zero) |}.

(** [nodeToRect(node, nodeOrigin = [0, 0])] *)
Definition nodeToRect (node : LookupItem) (nodeOrigin : option NodeOrigin) : Rect :=
  let (p, n) :=
    match node with
    | Internal i => (positionAbsolute (internals i), base i)
    | Plain u => (getNodePositionWithOrigin u nodeOrigin, u)
    end in
  {| rect_x := x p;
     rect_y := y p;
     rect_width :=
       orElse (orElseOpt (orElseOpt (measuredWidth n) (nwidth n)) (initialWidth n)) zero;
     rect_height :=
       orElse (orElseOpt (orElseOpt (measuredHeight n) (nheight n)) (initialHeight n)) zero |}.

(** An element of the array given to [getNodesBounds]. *)
Inductive NodeOrId : Type :=
| OfNode (n : Node)
| OfInternal (n : InternalNode)
| OfId (nodeId : string).

Record GetNodesBoundsParams : Type :=
  { p_nodeOrigin : option NodeOrigin;
    p_nodeLookup : option NodeLookup }.

Definition defaultBoundsParams : GetNodesBoundsParams :=
  {| p_nodeOrigin := Some defaultNodeOrigin; p_nodeLookup := None |}.

Definition zeroRect : Rect :=
  {| rect_x := zero; rect_y := zero; rect_width := zero; rect_height := zero |}.

Definition zeroBox : Box :=
  {| box_x := zero; box_y := zero; box_x2 := zero; box_y2 := zero |}.

Definition emptyBox : Box :=
  {| box_x := PInf; box_y := PInf; box_x2 := NInf; box_y2 := NInf |}.

(** The node a [getNodesBounds] entry stands for. *)
Definition resolveNode (params : GetNodesBoundsParams) (nodeOrId : NodeOrId)
  : option LookupItem :=
  match p_nodeLookup params with
  | None =>
      match nodeOrId with
      | OfNode n => Some (Plain n)
      | OfInternal i => Some (Internal i)
      | OfId _ => None
      end
  | Some lookup =>
      match nodeOrId with
      | OfId k => option_map Internal (JsMap.get k lookup)
      | OfNode n => option_map Internal (JsMap.get (id n) lookup)
      | OfInternal i => Some (Internal i)
      end
  end.

(** [getNodesBounds(nodes, params = { nodeOrigin: [0, 0], nodeLookup: undefined })] *)
Definition getNodesBounds (nodes : list NodeOrId) (params : option GetNodesBoundsParams)
  : Rect :=
  let params := orElse params defaultBoundsParams in
  match nodes with
  | [] => zeroRect
  | _ =>
      boxToRect
        (fold_left
           (fun currBox nodeOrId =>
              let nodeBox :=
                match resolveNode params nodeOrId with
                | Some currentNode => nodeToBox currentNode (p_nodeOrigin params)
                | None => zeroBox
                end in
              getBoundsOfBoxes currBox nodeBox)
           nodes emptyBox)
  end.

(** [getInternalNodesBounds(nodeLookup, params = {})]; only [params.filter]
    is read. *)
Definition getInternalNodesBounds (nodeLookup : NodeLookup)
  (filter : option (InternalNode -> bool)) : Rect :=
  if Nat.eqb (JsMap.size nodeLookup) 0 then zeroRect
  else
    boxToRect
      (fold_left
         (fun box kv =>
            let node := snd kv in
            if match filter with None => true | Some f => f node end
            then getBoundsOfBoxes box (nodeToBox (Internal node) None)
            else box)
         nodeLookup emptyBox).

(* ------------------------------------------------------------------------- *)
(** ** Node adoption ([unnamed/part_003]) *)

(** [UpdateNodesOptions]: every key is optional. *)
Record UpdateNodesOptions : Type :=
  { o_nodeOrigin : option NodeOrigin;
    o_nodeExtent : option CoordinateExtent;
    o_elevateNodesOnSelect : option bool;
    o_defaults : option NodeDefaults;
    o_checkEquality : option bool }.

(** Options after [mergeObjects] with a table of defaults. *)
Record MergedOptions : Type :=
  { nodeOrigin : NodeOrigin;
    nodeExtent : CoordinateExtent;
    elevateNodesOnSelect : bool;
    defaults : NodeDefaults;
    checkEquality : option bool }.

Definition defaultOptions : MergedOptions :=
  {| nodeOrigin := (zero, zero);
     nodeExtent := infiniteExtent;
     elevateNodesOnSelect := true;
     defaults := noDefaults;
     checkEquality := None |}.

Definition adoptUserNodesDefaultOptions : MergedOptions :=
  {| nodeOrigin := nodeOrigin defaultOptions;
     nodeExtent := nodeExtent defaultOptions;
     elevateNodesOnSelect := elevateNodesOnSelect defaultOptions;
     defaults := defaults defaultOptions;
     checkEquality := Some true |}.

(** [mergeObjects(base, incoming)]: the keys of [incoming] that are not
    [undefined] overwrite those of [base]. *)
Definition mergeObjects (base : MergedOptions) (incoming : option UpdateNodesOptions)
  : MergedOptions :=
  match incoming with
  | None => base
  | Some o =>
      {| nodeOrigin := orElse (o_nodeOrigin o) (nodeOrigin base);
         nodeExtent := orElse (o_nodeExtent o) (nodeExtent base);
         elevateNodesOnSelect := orElse (o_elevateNodesOnSelect o) (elevateNodesOnSelect base);
         defaults := orElse (o_defaults o) (defaults base);
         checkEquality := orElseOpt (o_checkEquality o) (checkEquality base) |}
  end.

(** [calculateZ(node, selectedNodeZ)] *)
Definition calculateZ (node : Node) (selectedNodeZ : num) : num :=
  add (if isNumeric (zIndex node) then orElse (zIndex node) zero else zero)
      (if truthyBool (selected node) then selectedNodeZ else zero).

(** [calculateChildXYZ(childNode, parentNode, nodeOrigin, nodeExtent, selectedNodeZ)] *)
Definition calculateChildXYZ (childNode parentNode : InternalNode)
  (nodeOrigin : NodeOrigin) (nodeExtent : CoordinateExtent) (selectedNodeZ : num)
  : XYPosition * num :=
  let parentX := x (positionAbsolute (internals parentNode)) in
  let parentY := y (positionAbsolute (internals parentNode)) in
  let childDimensions := getNodeDimensions (base childNode) in
  let positionWithOrigin := getNodePositionWithOrigin (base childNode) (Some nodeOrigin) in
  let clampedPosition :=
    match isCoordinateExtent (extent (base childNode)) with
    | Some e => clampPosition (Some positionWithOrigin) e (asPartial childDimensions)
    | None => positionWithOrigin
    end in
  let absolutePosition :=
    clampPosition
      (Some {| x := add parentX (x clampedPosition); y := add parentY (y clampedPosition) |})
      nodeExtent (asPartial childDimensions) in
  let absolutePosition :=
    match extent (base childNode) with
    | Some ExtentParent => clampPositionToParent absolutePosition childDimensions parentNode
    | _ => absolutePosition
    end in
  let childZ := calculateZ (base childNode) selectedNodeZ in
  let parentZ := z (internals parentNode) in
  ({| x := x absolutePosition; y := y absolutePosition |},
   if gtb parentZ childZ then parentZ else childZ).

(** [updateParentLookup(node, parentLookup)] *)
Definition updateParentLookup (node : InternalNode) (parentLookup : ParentLookup)
  : ParentLookup :=
  match parentId (base node) with
  | Some pid =>
      if truthyStr (Some pid) then
        match JsMap.get pid parentLookup with
        | Some childNodes =>
            JsMap.set pid (JsMap.set (id (base node)) node childNodes) parentLookup
        | None => JsMap.set pid (JsMap.set (id (base node)) node JsMap.empty) parentLookup
        end
      else parentLookup
  | None => parentLookup
  end.

(** The mutable state of an adoption pass: both lookups and the allocator. *)
Record AdoptState : Type :=
  { nodeLookup : NodeLookup;
    parentLookup : ParentLookup;
    nextRef : nat }.

(** [{ ...node, internals: { ...node.internals, positionAbsolute, z } }] *)
Definition withPlacement (r : nat) (node : InternalNode) (p : XYPosition) (newZ : num)
  : InternalNode :=
  {| base := with_ref r (base node);
     internals :=
       {| positionAbsolute := p;
          z := newZ;
          handleBounds := handleBounds (internals node);
          userNode := userNode (internals node) |} |}.

(** [updateChildNode(node, nodeLookup, parentLookup, options)].  A missing
    parent only logs a warning. *)
Definition updateChildNode (node : InternalNode) (st : AdoptState)
  (options : option UpdateNodesOptions) : AdoptState :=
  let merged := mergeObjects defaultOptions options in
  match match parentId (base node) with
        | Some pid => JsMap.get pid (nodeLookup st)
        | None => None
        end with
  | None => st
  | Some parentNode =>
      let parentLookup' := updateParentLookup node (parentLookup st) in
      let selectedNodeZ := if elevateNodesOnSelect merged then Fin 1000 else zero in
      let (xy, newZ) :=
        calculateChildXYZ node parentNode (nodeOrigin merged) (nodeExtent merged)
          selectedNodeZ in
      let pa := positionAbsolute (internals node) in
      let positionChanged :=
        negb (eqb (x xy) (x pa)) || negb (eqb (y xy) (y pa)) in
      if positionChanged || negb (eqb newZ (z (internals node))) then
        {| nodeLookup :=
             JsMap.set (id (base node))
               (withPlacement (nextRef st) node (if positionChanged then xy else pa) newZ)
               (nodeLookup st);
           parentLookup := parentLookup';
           nextRef := S (nextRef st) |}
      else
        {| nodeLookup := nodeLookup st;
           parentLookup := parentLookup';
           nextRef := nextRef st |}
  end.

(** [{ ...defaults, ...userNode, measured: {...}, internals: {...} }] *)
Definition newInternalNode (r : nat) (dflt : NodeDefaults) (userNode : Node)
  (clampedPosition : XYPosition) (previous : option InternalNode) (selectedNodeZ : num)
  : InternalNode :=
  {| base :=
       {| ref := r;
          id := id userNode;
          position := position userNode;
          nwidth := orElseOpt (nwidth userNode) (d_width dflt);
          nheight := orElseOpt (nheight userNode) (d_height dflt);
          initialWidth := orElseOpt (initialWidth userNode) (d_initialWidth dflt);
          initialHeight := orElseOpt (initialHeight userNode) (d_initialHeight dflt);
          measured := Some {| pwidth := measuredWidth userNode;
                              pheight := measuredHeight userNode |};
          parentId := orElseOpt (parentId userNode) (d_parentId dflt);
          origin := orElseOpt (origin userNode) (d_origin dflt);
          extent := orElseOpt (extent userNode) (d_extent dflt);
          expandParent := orElseOpt (expandParent userNode) (d_expandParent dflt);
          zIndex := orElseOpt (zIndex userNode) (d_zIndex dflt);
          selected := orElseOpt (selected userNode) (d_selected dflt);
          dragging := orElseOpt (dragging userNode) (d_dragging dflt);
          resizing := orElseOpt (resizing userNode) (d_resizing dflt);
          hidden := orElseOpt (hidden userNode) (d_hidden dflt) |};
     internals :=
       {| positionAbsolute := clampedPosition;
          handleBounds :=
            match measured userNode with
            | None => None
            | Some _ =>
                match previous with
                | Some i => handleBounds (internals i)
                | None => None
                end
            end;
          z := calculateZ userNode selectedNodeZ;
          userNode := userNode |} |}.

(** The [if]/[else] of the loop of [adoptUserNodes]: the internal node for
    [uNode], reused or built anew, is entered in the lookup. *)
Definition adoptOrReuse (merged : MergedOptions) (tmpLookup : NodeLookup)
  (selectedNodeZ : num) (st : AdoptState) (uNode : Node) : InternalNode * AdoptState :=
  let previous := JsMap.get (id uNode) tmpLookup in
  let reused :=
    if truthyBool (checkEquality merged) then
      match previous with
      | Some i =>
          if Nat.eqb (ref uNode) (ref (userNode (internals i)))
          then Some i else None
      | None => None
      end
    else None in
  match reused with
  | Some i =>
      (i, {| nodeLookup := JsMap.set (id uNode) i (nodeLookup st);
             parentLookup := parentLookup st;
             nextRef := nextRef st |})
  | None =>
      let positionWithOrigin :=
        getNodePositionWithOrigin uNode (Some (nodeOrigin merged)) in
      let extent :=
        orElse (isCoordinateExtent (extent uNode)) (nodeExtent merged) in
      let clampedPosition :=
        clampPosition (Some positionWithOrigin) extent
          (asPartial (getNodeDimensions uNode)) in
      let i :=
        newInternalNode (nextRef st) (defaults merged) uNode clampedPosition
          previous selectedNodeZ in
      (i, {| nodeLookup := JsMap.set (id uNode) i (nodeLookup st);
             parentLookup := parentLookup st;
             nextRef := S (nextRef st) |})
  end.

(** The body of the loop of [adoptUserNodes]. *)
Definition adoptUserNode (merged : MergedOptions) (options : option UpdateNodesOptions)
  (tmpLookup : NodeLookup) (selectedNodeZ : num) (st : AdoptState) (uNode : Node)
  : AdoptState :=
  let (internalNode, st1) := adoptOrReuse merged tmpLookup selectedNodeZ st uNode in
  if truthyStr (parentId uNode)
  then updateChildNode internalNode st1 options
  else st1.

(** [adoptUserNodes(nodes, nodeLookup, parentLookup, options)]: the lookups
    are cleared and refilled in array order; the result is their new content. *)
Definition adoptUserNodes (nodes : list Node) (nodeLookup0 : NodeLookup)
  (parentLookup0 : ParentLookup) (options : option UpdateNodesOptions)
  (next : nat) : AdoptState :=
  let merged := mergeObjects adoptUserNodesDefaultOptions options in
  let tmpLookup := nodeLookup0 in
  let selectedNodeZ := if elevateNodesOnSelect merged then Fin 1000 else zero in
  fold_left (adoptUserNode merged options tmpLookup selectedNodeZ) nodes
    {| nodeLookup := JsMap.empty; parentLookup := JsMap.empty; nextRef := next |}.

(* ------------------------------------------------------------------------- *)
(** ** Changes ([react/src/utils/changes.ts]) *)

(** [NodeChange | EdgeChange].  An [add] change has no [id] of its own. *)
Inductive Change : Type :=
| ChAdd (item : Node) (index : option nat)
| ChRemove (cid : string)
| ChReplace (cid : string) (item : Node)
| ChSelect (cid : string) (sel : bool)
| ChPosition (cid : string) (pos : option XYPosition) (drag : option bool)
| ChDimensions (cid : string) (dimensions : option Dimensions)
    (resize : option bool) (setAttributes : bool).

(** [change.id] *)
Definition changeId (c : Change) : option string :=
  match c with
  | ChAdd _ _ => None
  | ChRemove k | ChReplace k _ | ChSelect k _ | ChPosition k _ _
  | ChDimensions k _ _ _ => Some k
  end.

(** [applyChange(change, element)]: the update of the (already copied)
    element. *)
Definition applyChange (change : Change) (element : Node) : Node :=
  match change with
  | ChSelect _ s => with_selected (Some s) element
  | ChPosition _ p d =>
      let element := match p with Some p => with_position p element | None => element end in
      match d with Some d => with_dragging (Some d) element | None => element end
  | ChDimensions _ dims r setAttributes =>
      let element :=
        match dims with
        | Some dm =>
            let element :=
              with_measured
                (Some {| pwidth := Some (width dm); pheight := Some (height dm) |})
                element in
            if setAttributes
            then with_size (Some (width dm)) (Some (height dm)) element
            else element
        | None => element
        end in
      match r with Some r => with_resizing (Some r) element | None => element end
  | _ => element
  end.

(** First loop of [applyChanges]: the changes are sorted into [changesMap]
    and [addItemChanges]. *)
Definition queueChange (acc : JsMap.t (list Change) * list Change) (change : Change)
  : JsMap.t (list Change) * list Change :=
  let (changesMap, addItemChanges) := acc in
  match change with
  | ChAdd _ _ => (changesMap, addItemChanges ++ [change])
  | ChRemove k | ChReplace k _ => (JsMap.set k [change] changesMap, addItemChanges)
  | ChSelect k _ | ChPosition k _ _ | ChDimensions k _ _ _ =>
      match JsMap.get k changesMap with
      | Some elementChanges =>
          (JsMap.set k (elementChanges ++ [change]) changesMap, addItemChanges)
      | None => (JsMap.set k [change] changesMap, addItemChanges)
      end
  end.

Definition queueChanges (changes : list Change) : JsMap.t (list Change) * list Change :=
  fold_left queueChange changes (JsMap.empty, []).

(** Second loop: what one element of the current array contributes to
    [updatedElements].  The lists of [changesMap] are never empty, so
    [changes[0]] is defined. *)
Definition updateElement (changesMap : JsMap.t (list Change)) (element : Node)
  : Alloc (list Node) :=
  match JsMap.get (id element) changesMap with
  | None => ret [element]
  | Some changes =>
      match changes with
      | ChRemove _ :: _ => ret []
      | ChReplace _ item :: _ =>
          c <- copy item ;; ret [c]
      | _ =>
          updatedElement <- copy element ;;
          ret [fold_left (fun e change => applyChange change e) changes updatedElement]
      end
  end.

Fixpoint updateElements (changesMap : JsMap.t (list Change)) (elements : list Node)
  : Alloc (list Node) :=
  match elements with
  | [] => ret []
  | element :: rest =>
      out <- updateElement changesMap element ;;
      outs <- updateElements changesMap rest ;;
      ret (out ++ outs)
  end.

(** [array.splice(index, 0, item)] *)
Definition splice {A} (index : nat) (item : A) (l : list A) : list A :=
  firstn index l ++ item :: skipn index l.

(** Third loop: the [add] changes in arrival order. *)
Fixpoint addItems (addItemChanges : list Change) (updatedElements : list Node)
  : Alloc (list Node) :=
  match addItemChanges with
  | [] => ret updatedElements
  | ChAdd item index :: rest =>
      c <- copy item ;;
      addItems rest
        (match index with
         | Some i => splice i c updatedElements
         | None => updatedElements ++ [c]
         end)
  | _ :: rest => addItems rest updatedElements
  end.

(** [applyChanges(changes, elements)] *)
Definition applyChanges (changes : list Change) (elements : list Node)
  : Alloc (list Node) :=
  let (changesMap, addItemChanges) := queueChanges changes in
  updatedElements <- updateElements changesMap elements ;;
  addItems addItemChanges updatedElements.

(** [createSelectionChange(id, selected)] *)
Definition createSelectionChange (k : string) (sel : bool) : Change := ChSelect k sel.

(** The properties of a stored item that [getSelectionChanges] reads and
    writes. *)
Definition itemSelected (item : LookupItem) : option bool :=
  match item with
  | Internal i => selected (base i)
  | Plain e => selected e
  end.

Definition itemId (item : LookupItem) : string :=
  match item with
  | Internal i => id (base i)
  | Plain e => id e
  end.

(** [item.selected = s], in place. *)
Definition setItemSelected (s : bool) (item : LookupItem) : LookupItem :=
  match item with
  | Internal i => Internal {| base := with_selected (Some s) (base i); internals := internals i |}
  | Plain e => Plain (with_selected (Some s) e)
  end.

(** [item.selected !== willBeSelected] *)
Definition selectedDiffers (s : option bool) (willBeSelected : bool) : bool :=
  match s with
  | Some b => negb (Bool.eqb b willBeSelected)
  | None => true
  end.

(** [getSelectionChanges(items, selectedIds = new Set(), mutateItem = false)]:
    the changes, and the lookup after the in-place writes. *)
Fixpoint getSelectionChanges (items : JsMap.t LookupItem) (selectedIds : list string)
  (mutateItem : bool) : list Change * JsMap.t LookupItem :=
  match items with
  | [] => ([], [])
  | (k, item) :: rest =>
      let willBeSelected := existsb (String.eqb k) selectedIds in
      let (changes, rest') := getSelectionChanges rest selectedIds mutateItem in
      if negb (match itemSelected item with None => negb willBeSelected | Some _ => false end)
         && selectedDiffers (itemSelected item) willBeSelected
      then
        (createSelectionChange (itemId item) willBeSelected :: changes,
         (k, if mutateItem then setItemSelected willBeSelected item else item) :: rest')
      else (changes, (k, item) :: rest')
  end.

(** [lookupItem?.internals?.userNode ?? lookupItem] *)
Definition storeItemOf (lookupItem : LookupItem) : Node :=
  match lookupItem with
  | Internal i => userNode (internals i)
  | Plain e => e
  end.

(** First loop of [getElementsDiffChanges], started at array index [index]. *)
Fixpoint diffItems (lookup : JsMap.t LookupItem) (index : nat) (items : list Node)
  : list Change :=
  match items with
  | [] => []
  | item :: rest =>
      let storeItem := option_map storeItemOf (JsMap.get (id item) lookup) in
      (match storeItem with
       | Some s => if negb (Nat.eqb (ref s) (ref item))
                   then [ChReplace (id item) item] else []
       | None => []
       end)
      ++ (match storeItem with
          | None => [ChAdd item (Some index)]
          | Some _ => []
          end)
      ++ diffItems lookup (S index) rest
  end.

(** Second loop: the ids of the lookup that the next items lack. *)
Fixpoint diffRemoved (itemsLookup : JsMap.t Node) (lookup : JsMap.t LookupItem)
  : list Change :=
  match lookup with
  | [] => []
  | (k, _) :: rest =>
      match JsMap.get k itemsLookup with
      | None => ChRemove k :: diffRemoved itemsLookup rest
      | Some _ => diffRemoved itemsLookup rest
      end
  end.

(** [getElementsDiffChanges({ items = [], lookup })] *)
Definition getElementsDiffChanges (items : option (list Node)) (lookup : JsMap.t LookupItem)
  : list Change :=
  let items := orElse items [] in
  let itemsLookup := JsMap.ofEntries (map (fun item => (id item, item)) items) in
  diffItems lookup 0 items ++ diffRemoved itemsLookup lookup.

(** [updateConnectionLookup] as far as the edge lookup goes:
    [edgeLookup.clear()] and one [set] per edge. *)
Definition buildEdgeLookup (edges : list Node) : JsMap.t LookupItem :=
  fold_left (fun m e => JsMap.set (id e) (Plain e) m) edges JsMap.empty.

(** The node lookup as the diff reads it. *)
Definition asItems (l : NodeLookup) : JsMap.t LookupItem :=
  map (fun kv => (fst kv, Internal (snd kv))) l.

(* ------------------------------------------------------------------------- *)
(** ** Resizing ([xyresizer/utils.ts]) *)

(** [s.includes(sub)] *)
Fixpoint includes (s sub : string) : bool :=
  String.prefix sub s
  || match s with
     | EmptyString => false
     | String _ rest => includes rest sub
     end.

Record ControlDirection : Type :=
  { isHorizontal : bool; isVertical : bool; affectsX : bool; affectsY : bool }.

(** [getControlDirection(controlPosition)] *)
Definition getControlDirection (controlPosition : string) : ControlDirection :=
  {| isHorizontal := includes controlPosition "right" || includes controlPosition "left";
     isVertical := includes controlPosition "bottom" || includes controlPosition "top";
     affectsX := includes controlPosition "left";
     affectsY := includes controlPosition "top" |}.

Record StartValues : Type :=
  { sv_width : num; sv_height : num; sv_x : num; sv_y : num;
    pointerX : num; pointerY : num; aspectRatio : num }.

(** The part of [getPointerPosition]'s result that the resize reads. *)
Record PointerPosition : Type := { xSnapped : num; ySnapped : num }.

Record Boundaries : Type :=
  { minWidth : num; maxWidth : num; minHeight : num; maxHeight : num }.

Definition getLowerExtentClamp (lowerExtent lowerBound : num) : num :=
  JsNum.max zero (sub lowerBound lowerExtent).

Definition getUpperExtentClamp (upperExtent upperBound : num) : num :=
  JsNum.max zero (sub upperExtent upperBound).

Definition getSizeClamp (size minSize maxSize : num) : num :=
  max3 zero (sub minSize size) (sub size maxSize).

Definition xor (a b : bool) : bool := if a then negb b else b.

(** [getDimensionsAfterResize(startValues, controlDirection, pointerPosition,
    boundaries, keepAspectRatio, nodeOrigin, extent?, childExtent?)] *)
Definition getDimensionsAfterResize (startValues : StartValues)
  (controlDirection : ControlDirection) (pointerPosition : PointerPosition)
  (boundaries : Boundaries) (keepAspectRatio : bool) (nodeOrigin : NodeOrigin)
  (extent childExtent : option CoordinateExtent) : Rect :=
  let affX := affectsX controlDirection in
  let affY := affectsY controlDirection in
  let isHorizontal := isHorizontal controlDirection in
  let isVertical := isVertical controlDirection in
  let isDiagonal := isHorizontal && isVertical in
  let startX := sv_x startValues in
  let startY := sv_y startValues in
  let startWidth := sv_width startValues in
  let startHeight := sv_height startValues in
  let aspectRatio := aspectRatio startValues in
  let distX :=
    floor (if isHorizontal then sub (xSnapped pointerPosition) (pointerX startValues) else zero) in
  let distY :=
    floor (if isVertical then sub (ySnapped pointerPosition) (pointerY startValues) else zero) in
  let newWidth := add startWidth (if affX then neg distX else distX) in
  let newHeight := add startHeight (if affY then neg distY else distY) in
  let originOffsetX := mul (neg (fst nodeOrigin)) startWidth in
  let originOffsetY := mul (neg (snd nodeOrigin)) startHeight in
  (* min/max size *)
  let clampX := getSizeClamp newWidth (minWidth boundaries) (maxWidth boundaries) in
  let clampY := getSizeClamp newHeight (minHeight boundaries) (maxHeight boundaries) in
  (* the extent of the parent *)
  let (clampX, clampY) :=
    match extent with
    | Some extent =>
        let xExtentClamp :=
          if affX && ltb distX zero then
            getLowerExtentClamp (add (add startX distX) originOffsetX) (fst (fst extent))
          else if negb affX && gtb distX zero then
            getUpperExtentClamp (add (add startX newWidth) originOffsetX) (fst (snd extent))
          else zero in
        let yExtentClamp :=
          if affY && ltb distY zero then
            getLowerExtentClamp (add (add startY distY) originOffsetY) (snd (fst extent))
          else if negb affY && gtb distY zero then
            getUpperExtentClamp (add (add startY newHeight) originOffsetY) (snd (snd extent))
          else zero in
        (JsNum.max clampX xExtentClamp, JsNum.max clampY yExtentClamp)
    | None => (clampX, clampY)
    end in
  (* the extent of the children *)
  let (clampX, clampY) :=
    match childExtent with
    | Some childExtent =>
        let xExtentClamp :=
          if affX && gtb distX zero then
            getUpperExtentClamp (add startX distX) (fst (fst childExtent))
          else if negb affX && ltb distX zero then
            getLowerExtentClamp (add startX newWidth) (fst (snd childExtent))
          else zero in
        let yExtentClamp :=
          if affY && gtb distY zero then
            getUpperExtentClamp (add startY distY) (snd (fst childExtent))
          else if negb affY && ltb distY zero then
            getLowerExtentClamp (add startY newHeight) (snd (snd childExtent))
          else zero in
        (JsNum.max clampX xExtentClamp, JsNum.max clampY yExtentClamp)
    | None => (clampX, clampY)
    end in
  (* the opposite side under a kept aspect ratio *)
  let clampX :=
    if keepAspectRatio && isHorizontal then
      let aspectHeightClamp :=
        mul (getSizeClamp (div newWidth aspectRatio) (minHeight boundaries) (maxHeight boundaries))
            aspectRatio in
      let clampX := JsNum.max clampX aspectHeightClamp in
      let clampX :=
        match extent with
        | Some extent =>
            let aspectExtentClamp :=
              if (negb affX && negb affY) || (affX && negb affY && isDiagonal) then
                mul (getUpperExtentClamp
                       (add (add startY originOffsetY) (div newWidth aspectRatio))
                       (snd (snd extent)))
                    aspectRatio
              else
                mul (getLowerExtentClamp
                       (add (add startY originOffsetY)
                            (div (if affX then distX else neg distX) aspectRatio))
                       (snd (fst extent)))
                    aspectRatio in
            JsNum.max clampX aspectExtentClamp
        | None => clampX
        end in
      match childExtent with
      | Some childExtent =>
          let aspectExtentClamp :=
            if (negb affX && negb affY) || (affX && negb affY && isDiagonal) then
              mul (getLowerExtentClamp (add startY (div newWidth aspectRatio))
                     (snd (snd childExtent)))
                  aspectRatio
            else
              mul (getUpperExtentClamp
                     (add startY (div (if affX then distX else neg distX) aspectRatio))
                     (snd (fst childExtent)))
                  aspectRatio in
          JsNum.max clampX aspectExtentClamp
      | None => clampX
      end
    else clampX in
  let clampY :=
    if keepAspectRatio && isVertical then
      let aspectWidthClamp :=
        div (getSizeClamp (mul newHeight aspectRatio) (minWidth boundaries) (maxWidth boundaries))
            aspectRatio in
      let clampY := JsNum.max clampY aspectWidthClamp in
      let clampY :=
        match extent with
        | Some extent =>
            let aspectExtentClamp :=
              if (negb affX && negb affY) || (affY && negb affX && isDiagonal) then
                div (getUpperExtentClamp
                       (add (add startX (mul newHeight aspectRatio)) originOffsetX)
                       (fst (snd extent)))
                    aspectRatio
              else
                div (getLowerExtentClamp
                       (add (add startX (mul (if affY then distY else neg distY) aspectRatio))
                            originOffsetX)
                       (fst (fst extent)))
                    aspectRatio in
            JsNum.max clampY aspectExtentClamp
        | None => clampY
        end in
      match childExtent with
      | Some childExtent =>
          let aspectExtentClamp :=
            if (negb affX && negb affY) || (affY && negb affX && isDiagonal) then
              div (getLowerExtentClamp (add startX (mul newHeight aspectRatio))
                     (fst (snd childExtent)))
                  aspectRatio
            else
              div (getUpperExtentClamp
                     (add startX (mul (if affY then distY else neg distY) aspectRatio))
                     (fst (fst childExtent)))
                  aspectRatio in
          JsNum.max clampY aspectExtentClamp
      | None => clampY
      end
    else clampY in
  let distY := add distY (if ltb distY zero then clampY else neg clampY) in
  let distX := add distX (if ltb distX zero then clampX else neg clampX) in
  let '(distX, distY, affX, affY) :=
    if keepAspectRatio then
      if isDiagonal then
        if gtb newWidth (mul newHeight aspectRatio)
        then (distX, div (if xor affX affY then neg distX else distX) aspectRatio, affX, affY)
        else (mul (if xor affX affY then neg distY else distY) aspectRatio, distY, affX, affY)
      else if isHorizontal
      then (distX, div distX aspectRatio, affX, affX)
      else (mul distY aspectRatio, distY, affY, affY)
    else (distX, distY, affX, affY) in
  let x0 := if affX then add startX distX else startX in
  let y0 := if affY then add startY distY else startY in
  {| rect_width := add startWidth (if affX then neg distX else distX);
     rect_height := add startHeight (if affY then neg distY else distY);
     rect_x := add (mul (mul (fst nodeOrigin) distX) (if negb affX then Fin 1 else Fin (-1))) x0;
     rect_y := add (mul (mul (snd nodeOrigin) distY) (if negb affY then Fin 1 else Fin (-1))) y0 |}.

(* ------------------------------------------------------------------------- *)
(** ** Batching queue ([BatchProvider/useQueue.ts], [unnamed/part_000]) *)

Section Queue.

Variable T : Type.

(** [QueueItem<T> = T[] | ((items: T[]) => T[])] *)
Inductive QueueItem : Type :=
| Payload (items : list T)
| Updater (f : list T -> list T).

(** The state owned by one [useQueue] instance, with the state [W] that
    [runQueue] acts on.
    - [queue] is the array closed over by [createQueue];
    - [serial] is the React state of the last render, [pending] the number of
      [setSerial(n => n + 1)] updaters not yet rendered;
    - [effectDeps] is the dependency value [serial] had when the layout effect
      last ran ([None] before the first commit);
    - [flushes] records, oldest first, the arguments of the calls of
      [runQueue]. *)
Record QueueState (W : Type) : Type :=
  { queue : list QueueItem;
    serial : N;
    pending : N;
    effectDeps : option N;
    world : W;
    flushes : list (list QueueItem) }.

Variable W : Type.
Variable runQueue : list QueueItem -> W -> W.

(** [queue.push(item)]: [queue.push(item); cb()] with
    [cb = () => setSerial((n) => n + BigInt(1))]. *)
Definition push (item : QueueItem) (st : QueueState W) : QueueState W :=
  {| queue := queue st ++ [item];
     serial := serial st;
     pending := N.succ (pending st);
     effectDeps := effectDeps st;
     world := world st;
     flushes := flushes st |}.

(** The body of the layout effect: [runQueue(queueItems); queue.reset()] when
    the queue is not empty.  [runQueue] is a function of the items and the
    world: it is taken to return without pushing to the queue itself (an item
    pushed while it runs would be gone after [queue.reset()]). *)
Definition layoutEffect (st : QueueState W) : QueueState W :=
  match queue st with
  | [] =>
      {| queue := queue st; serial := serial st; pending := pending st;
         effectDeps := Some (serial st); world := world st; flushes := flushes st |}
  | queueItems =>
      {| queue := [];
         serial := serial st;
         pending := pending st;
         effectDeps := Some (serial st);
         world := runQueue queueItems (world st);
         flushes := flushes st ++ [queueItems] |}
  end.

(** One render and commit, which React performs after the synchronous code of
    a tick has returned: the queued updaters are applied to [serial], and the
    layout effect runs if its dependency [serial] changed (or on mount). *)
Definition commit (st : QueueState W) : QueueState W :=
  let rendered :=
    {| queue := queue st;
       serial := (serial st + pending st)%N;
       pending := 0%N;
       effectDeps := effectDeps st;
       world := world st;
       flushes := flushes st |} in
  match effectDeps st with
  | Some deps => if N.eqb deps (serial rendered) then rendered else layoutEffect rendered
  | None => layoutEffect rendered
  end.

Fixpoint commits (k : nat) (st : QueueState W) : QueueState W :=
  match k with
  | O => st
  | S k' => commits k' (commit st)
  end.

(** One tick: synchronous [push] calls in call order. *)
Definition tick (items : list QueueItem) (st : QueueState W) : QueueState W :=
  fold_left (fun s item => push item s) items st.

(** Nothing queued, nothing to render, effect up to date. *)
Definition settled (st : QueueState W) : Prop :=
  queue st = [] /\ pending st = 0%N /\ effectDeps st = Some (serial st).

(** The loop of the queue handlers: [next = typeof payload === 'function' ?
    payload(next) : payload]. *)
Definition reduceQueue (current : list T) (queueItems : list QueueItem) : list T :=
  fold_left
    (fun next payload =>
       match payload with
       | Updater f => f next
       | Payload items => items
       end)
    queueItems current.

End Queue.

Arguments Payload {T} items.
Arguments Updater {T} f.

(** The part of the store that [nodeQueueHandler] reads. *)
Record StoreState : Type :=
  { s_nodes : option (list Node);
    s_hasDefaultNodes : bool;
    s_onNodesChange : bool;
    s_nodeLookup : NodeLookup }.

(** What the handler calls at its end. *)
Inductive Dispatch : Type :=
| SetNodes (next : list Node)
| OnNodesChange (changes : list Change)
| NoDispatch.

(** [nodeQueueHandler(queueItems)] *)
Definition nodeQueueHandler (store : StoreState) (queueItems : list (QueueItem Node))
  : Dispatch :=
  let nodes := orElse (s_nodes store) [] in
  let next := reduceQueue nodes queueItems in
  if s_hasDefaultNodes store then SetNodes next
  else if s_onNodesChange store
       then OnNodesChange (getElementsDiffChanges (Some next) (asItems (s_nodeLookup store)))
       else NoDispatch.

(* ------------------------------------------------------------------------- *)
(** ** Vocabulary of the statements *)

(** A position with finite coordinates. *)
Definition finPos (p : Q * Q) : XYPosition := {| x := Fin (fst p); y := Fin (snd p) |}.

Definition finite (a : num) : Prop := is_finite a = true.

Definition finitePosition (p : XYPosition) : Prop := finite (x p) /\ finite (y p).

Definition finiteDimensions (d : Dimensions) : Prop :=
  finite (width d) /\ finite (height d).

Definition finiteOrigin (o : NodeOrigin) : Prop := finite (fst o) /\ finite (snd o).

(** No bound of the extent is NaN (infinite bounds are fine). *)
Definition definedExtent (e : CoordinateExtent) : Prop :=
  is_nan (fst (fst e)) = false /\ is_nan (snd (fst e)) = false
  /\ is_nan (fst (snd e)) = false /\ is_nan (snd (snd e)) = false.

(** The rectangle with infinite coordinates that an empty fold of
    [getBoundsOfBoxes] leaves behind. *)
Definition infiniteRect : Rect :=
  {| rect_x := PInf; rect_y := PInf; rect_width := NInf; rect_height := NInf |}.

(** The change is about the element with id [k]. *)
Definition aboutId (k : string) (c : Change) : bool :=
  match c with
  | ChAdd item _ => String.eqb (id item) k
  | ChRemove k' | ChReplace k' _ | ChSelect k' _ | ChPosition k' _ _
  | ChDimensions k' _ _ _ => String.eqb k' k
  end.

(** A [remove] or [replace] change for [k]. *)
Definition supersedes (k : string) (c : Change) : bool :=
  match c with
  | ChRemove k' | ChReplace k' _ => String.eqb k k'
  | _ => false
  end.

(** A change of another kind for [k]. *)
Definition accumulates (k : string) (c : Change) : bool :=
  match c with
  | ChSelect k' _ | ChPosition k' _ _ | ChDimensions k' _ _ _ => String.eqb k k'
  | _ => false
  end.

Definition isAdd (c : Change) : bool :=
  match c with ChAdd _ _ => true | _ => false end.

(** The last [remove]/[replace] change for [k], if there is one. *)
Fixpoint lastSuperseding (k : string) (changes : list Change) : option Change :=
  match changes with
  | [] => None
  | c :: rest =>
      match lastSuperseding k rest with
      | Some c' => Some c'
      | None => if supersedes k c then Some c else None
      end
  end.

(** Change application as the specification words it, per element: the last
    [remove]/[replace] for its id decides alone, whatever else is queued for
    that id before or after it; without one, the other changes for its id are
    applied in arrival order to one shallow copy; without any, the element
    passes through by reference. *)
Definition elementByRule (changes : list Change) (element : Node) : Alloc (list Node) :=
  match lastSuperseding (id element) changes with
  | Some (ChReplace _ item) => c <- copy item ;; ret [c]
  | Some _ => ret []
  | None =>
      match filter (accumulates (id element)) changes with
      | [] => ret [element]
      | cs =>
          updatedElement <- copy element ;;
          ret [fold_left (fun e change => applyChange change e) cs updatedElement]
      end
  end.

Fixpoint elementsByRule (changes : list Change) (elements : list Node)
  : Alloc (list Node) :=
  match elements with
  | [] => ret []
  | element :: rest =>
      out <- elementByRule changes element ;;
      outs <- elementsByRule changes rest ;;
      ret (out ++ outs)
  end.

(** ... and the [add] changes come last, in arrival order. *)
Definition applyChangesByRule (changes : list Change) (elements : list Node)
  : Alloc (list Node) :=
  updatedElements <- elementsByRule changes elements ;;
  addItems (filter isAdd changes) updatedElements.

(** What [changesMap] holds for [k] after one more change. *)
Definition queuedStep (k : string) (acc : option (list Change)) (c : Change)
  : option (list Change) :=
  if supersedes k c then Some [c]
  else if accumulates k c then Some (orElse acc [] ++ [c])
  else acc.

(** [lookup] holds the elements of the array, one entry per element in array
    order, under the element's id. *)
Definition builtFrom (elements : list Node) (lookup : JsMap.t LookupItem) : Prop :=
  Forall2 (fun e kv => fst kv = id e /\ ref (storeItemOf (snd kv)) = ref e)
    elements lookup.

(** Every next item is the very object the lookup stores for its id. *)
Definition unchangedByReference (items : list Node) (lookup : JsMap.t LookupItem) : Prop :=
  forall item, In item items ->
    exists li, JsMap.get (id item) lookup = Some li /\ ref (storeItemOf li) = ref item.

(** Every entry of a node lookup is stored under the id of its node. *)
Definition lookup_wf (l : NodeLookup) : Prop :=
  forall k i, JsMap.get k l = Some i -> id (base i) = k.

(** The placement that [updateChildNode] computes for [node] under
    [parentNode]. *)
Definition childPlacement (node parentNode : InternalNode)
  (options : option UpdateNodesOptions) : XYPosition * num :=
  let merged := mergeObjects defaultOptions options in
  calculateChildXYZ node parentNode (nodeOrigin merged) (nodeExtent merged)
    (if elevateNodesOnSelect merged then Fin 1000 else zero).

Definition positionChanged (node parentNode : InternalNode)
  (options : option UpdateNodesOptions) : bool :=
  let xy := fst (childPlacement node parentNode options) in
  let pa := positionAbsolute (internals node) in
  negb (eqb (x xy) (x pa)) || negb (eqb (y xy) (y pa)).

Definition placementChanged (node parentNode : InternalNode)
  (options : option UpdateNodesOptions) : bool :=
  positionChanged node parentNode options
  || negb (eqb (snd (childPlacement node parentNode options)) (z (internals node))).

(** The object that replaces [node] in the lookup when its placement changed. *)
Definition replacedChild (r : nat) (node parentNode : InternalNode)
  (options : option UpdateNodesOptions) : InternalNode :=
  withPlacement r node
    (if positionChanged node parentNode options
     then fst (childPlacement node parentNode options)
     else positionAbsolute (internals node))
    (snd (childPlacement node parentNode options)).

(** The parent that [updateChildNode] finds for [node]. *)
Definition parentOf (node : InternalNode) (lookup : NodeLookup) : option InternalNode :=
  match parentId (base node) with
  | Some pid => JsMap.get pid lookup
  | None => None
  end.

(** The lookups as [adoptUserNodes] clears them, and its loop from any state. *)
Definition adoptStart (next : nat) : AdoptState :=
  {| nodeLookup := JsMap.empty; parentLookup := JsMap.empty; nextRef := next |}.

Definition adoptAll (merged : MergedOptions) (options : option UpdateNodesOptions)
  (tmpLookup : NodeLookup) (selectedNodeZ : num) (st : AdoptState) (nodes : list Node)
  : AdoptState :=
  fold_left (adoptUserNode merged options tmpLookup selectedNodeZ) nodes st.

Unset Implicit Arguments.

(* ------------------------------------------------------------------------- *)
(** ** Numbers in double precision *)

(** The arithmetic of JavaScript on IEEE 754 binary64 numbers.  A double is a
    value of [JsNum.num] that [round] leaves alone; every operation is the
    exact operation of [JsNum] followed by [round]: to the nearest double, a
    tie to the even mantissa, an infinity from [2^1024 - 2^970] on, a
    subnormal or zero below [2^-1022].  The two zeros are one number.  The
    functions of the sources that compute with [+], [-], [*] or [/] follow
    under their own names; they are the text of the definitions above, read
    with the operations of this module. *)
Module F64.

(** [floor (log2 (n / d))] *)
Definition magnitude (n d : positive) : Z :=
  let l := (Z.log2 (Zpos n) - Z.log2 (Zpos d))%Z in
  if (Zpos d * 2 ^ Z.max 0 l <=? Zpos n * 2 ^ Z.max 0 (- l))%Z then l else (l - 1)%Z.

(** [a / b] to the nearest integer, a tie to the even one. *)
Definition nearest (a b : Z) : Z :=
  let q := (a / b)%Z in
  match (2 * (a mod b) ?= b)%Z with
  | Lt => q
  | Gt => (q + 1)%Z
  | Eq => if Z.even q then q else (q + 1)%Z
  end.

(** The exponent of the unit in the last place of the doubles around
    [n / d]: 52 binary places below its magnitude, and never below the
    subnormal [2^-1074]. *)
Definition ulpExponent (n d : positive) : Z := Z.max (magnitude n d - 52) (-1074).

(** [n / d] in units of the last place, to the nearest. *)
Definition mantissa (n d : positive) : Z :=
  let e := ulpExponent n d in
  nearest (Zpos n * 2 ^ Z.max 0 (- e)) (Zpos d * 2 ^ Z.max 0 e).

Definition roundPositive (n d : positive) : num :=
  let e := ulpExponent n d in
  let m := mantissa n d in
  if (2 ^ 1024 <=? m * 2 ^ e)%Z then PInf
  else Fin (Qred (inject_Z m * 2 ^ e)).

(** The double nearest to a rational. *)
Definition roundQ (q : Q) : num :=
  match Qnum (Qred q) with
  | Z0 => Fin 0
  | Zpos n => roundPositive n (Qden (Qred q))
  | Zneg n => neg (roundPositive n (Qden (Qred q)))
  end.

Definition round (a : num) : num :=
  match a with
  | Fin q => roundQ q
  | other => other
  end.

Definition add (a b : num) : num := round (JsNum.add a b).

Definition sub (a b : num) : num := round (JsNum.sub a b).

Definition mul (a b : num) : num := round (JsNum.mul a b).

Definition div (a b : num) : num := round (JsNum.div a b).

(** The double that a decimal literal of the sources denotes. *)
Definition lit (q : Q) : num := roundQ q.

(** [clampPosition(position = { x: 0, y: 0 }, extent, dimensions)] *)
Definition clampPosition (position : option XYPosition) (extent : CoordinateExtent)
  (dimensions : PartialDimensions) : XYPosition :=
  let position := orElse position originPosition in
  {| x := clamp (x position) (fst (fst extent))
            (sub (fst (snd extent)) (orElse (pwidth dimensions) zero));
     y := clamp (y position) (snd (fst extent))
            (sub (snd (snd extent)) (orElse (pheight dimensions) zero)) |}.

(** [clampPositionToParent(childPosition, childDimensions, parent)] *)
Definition clampPositionToParent (childPosition : XYPosition)
  (childDimensions : Dimensions) (parent : InternalNode) : XYPosition :=
  let parentWidth := width (getNodeDimensions (base parent)) in
  let parentHeight := height (getNodeDimensions (base parent)) in
  let parentX := x (positionAbsolute (internals parent)) in
  let parentY := y (positionAbsolute (internals parent)) in
  clampPosition (Some childPosition)
    ((parentX, parentY), (add parentX parentWidth, add parentY parentHeight))
    (asPartial childDimensions).

(** [getNodePositionWithOrigin(node, nodeOrigin = [0, 0])] *)
Definition getNodePositionWithOrigin (node : Node) (nodeOrigin : option NodeOrigin)
  : XYPosition :=
  let nodeOrigin := orElse nodeOrigin defaultNodeOrigin in
  let dims := getNodeDimensions node in
  let origin := orElse (origin node) nodeOrigin in
  let offsetX := mul (width dims) (fst origin) in
  let offsetY := mul (height dims) (snd origin) in
  {| x := sub (x (position node)) offsetX;
     y := sub (y (position node)) offsetY |}.

(** [calculateZ(node, selectedNodeZ)] *)
Definition calculateZ (node : Node) (selectedNodeZ : num) : num :=
  add (if isNumeric (zIndex node) then orElse (zIndex node) zero else zero)
      (if truthyBool (selected node) then selectedNodeZ else zero).

(** [calculateChildXYZ(childNode, parentNode, nodeOrigin, nodeExtent, selectedNodeZ)] *)
Definition calculateChildXYZ (childNode parentNode : InternalNode)
  (nodeOrigin : NodeOrigin) (nodeExtent : CoordinateExtent) (selectedNodeZ : num)
  : XYPosition * num :=
  let parentX := x (positionAbsolute (internals parentNode)) in
  let parentY := y (positionAbsolute (internals parentNode)) in
  let childDimensions := getNodeDimensions (base childNode) in
  let positionWithOrigin := getNodePositionWithOrigin (base childNode) (Some nodeOrigin) in
  let clampedPosition :=
    match isCoordinateExtent (extent (base childNode)) with
    | Some e => clampPosition (Some positionWithOrigin) e (asPartial childDimensions)
    | None => positionWithOrigin
    end in
  let absolutePosition :=
    clampPosition
      (Some {| x := add parentX (x clampedPosition); y := add parentY (y clampedPosition) |})
      nodeExtent (asPartial childDimensions) in
  let absolutePosition :=
    match extent (base childNode) with
    | Some ExtentParent => clampPositionToParent absolutePosition childDimensions parentNode
    | _ => absolutePosition
    end in
  let childZ := calculateZ (base childNode) selectedNodeZ in
  let parentZ := z (internals parentNode) in
  ({| x := x absolutePosition; y := y absolutePosition |},
   if gtb parentZ childZ then parentZ else childZ).

(** [updateChildNode(node, nodeLookup, parentLookup, options)].  A missing
    parent only logs a warning. *)
Definition updateChildNode (node : InternalNode) (st : AdoptState)
  (options : option UpdateNodesOptions) : AdoptState :=
  let merged := mergeObjects defaultOptions options in
  match match parentId (base node) with
        | Some pid => JsMap.get pid (nodeLookup st)
        | None => None
        end with
  | None => st
  | Some parentNode =>
      let parentLookup' := updateParentLookup node (parentLookup st) in
      let selectedNodeZ := if elevateNodesOnSelect merged then Fin 1000 else zero in
      let (xy, newZ) :=
        calculateChildXYZ node parentNode (nodeOrigin merged) (nodeExtent merged)
          selectedNodeZ in
      let pa := positionAbsolute (internals node) in
      let positionChanged :=
        negb (eqb (x xy) (x pa)) || negb (eqb (y xy) (y pa)) in
      if positionChanged || negb (eqb newZ (z (internals node))) then
        {| nodeLookup :=
             JsMap.set (id (base node))
               (withPlacement (nextRef st) node (if positionChanged then xy else pa) newZ)
               (nodeLookup st);
           parentLookup := parentLookup';
           nextRef := S (nextRef st) |}
      else
        {| nodeLookup := nodeLookup st;
           parentLookup := parentLookup';
           nextRef := nextRef st |}
  end.

(** [{ ...defaults, ...userNode, measured: {...}, internals: {...} }] *)
Definition newInternalNode (r : nat) (dflt : NodeDefaults) (userNode : Node)
  (clampedPosition : XYPosition) (previous : option InternalNode) (selectedNodeZ : num)
  : InternalNode :=
  {| base :=
       {| ref := r;
          id := id userNode;
          position := position userNode;
          nwidth := orElseOpt (nwidth userNode) (d_width dflt);
          nheight := orElseOpt (nheight userNode) (d_height dflt);
          initialWidth := orElseOpt (initialWidth userNode) (d_initialWidth dflt);
          initialHeight := orElseOpt (initialHeight userNode) (d_initialHeight dflt);
          measured := Some {| pwidth := measuredWidth userNode;
                              pheight := measuredHeight userNode |};
          parentId := orElseOpt (parentId userNode) (d_parentId dflt);
          origin := orElseOpt (origin userNode) (d_origin dflt);
          extent := orElseOpt (extent userNode) (d_extent dflt);
          expandParent := orElseOpt (expandParent userNode) (d_expandParent dflt);
          zIndex := orElseOpt (zIndex userNode) (d_zIndex dflt);
          selected := orElseOpt (selected userNode) (d_selected dflt);
          dragging := orElseOpt (dragging userNode) (d_dragging dflt);
          resizing := orElseOpt (resizing userNode) (d_resizing dflt);
          hidden := orElseOpt (hidden userNode) (d_hidden dflt) |};
     internals :=
       {| positionAbsolute := clampedPosition;
          handleBounds :=
            match measured userNode with
            | None => None
            | Some _ =>
                match previous with
                | Some i => handleBounds (internals i)
                | None => None
                end
            end;
          z := calculateZ userNode selectedNodeZ;
          userNode := userNode |} |}.

(** The [if]/[else] of the loop of [adoptUserNodes]. *)
Definition adoptOrReuse (merged : MergedOptions) (tmpLookup : NodeLookup)
  (selectedNodeZ : num) (st : AdoptState) (uNode : Node) : InternalNode * AdoptState :=
  let previous := JsMap.get (id uNode) tmpLookup in
  let reused :=
    if truthyBool (checkEquality merged) then
      match previous with
      | Some i =>
          if Nat.eqb (ref uNode) (ref (userNode (internals i)))
          then Some i else None
      | None => None
      end
    else None in
  match reused with
  | Some i =>
      (i, {| nodeLookup := JsMap.set (id uNode) i (nodeLookup st);
             parentLookup := parentLookup st;
             nextRef := nextRef st |})
  | None =>
      let positionWithOrigin :=
        getNodePositionWithOrigin uNode (Some (nodeOrigin merged)) in
      let extent :=
        orElse (isCoordinateExtent (extent uNode)) (nodeExtent merged) in
      let clampedPosition :=
        clampPosition (Some positionWithOrigin) extent
          (asPartial (getNodeDimensions uNode)) in
      let i :=
        newInternalNode (nextRef st) (defaults merged) uNode clampedPosition
          previous selectedNodeZ in
      (i, {| nodeLookup := JsMap.set (id uNode) i (nodeLookup st);
             parentLookup := parentLookup st;
             nextRef := S (nextRef st) |})
  end.

(** The body of the loop of [adoptUserNodes]. *)
Definition adoptUserNode (merged : MergedOptions) (options : option UpdateNodesOptions)
  (tmpLookup : NodeLookup) (selectedNodeZ : num) (st : AdoptState) (uNode : Node)
  : AdoptState :=
  let (internalNode, st1) := adoptOrReuse merged tmpLookup selectedNodeZ st uNode in
  if truthyStr (parentId uNode)
  then updateChildNode internalNode st1 options
  else st1.

(** [adoptUserNodes(nodes, nodeLookup, parentLookup, options)] *)
Definition adoptUserNodes (nodes : list Node) (nodeLookup0 : NodeLookup)
  (parentLookup0 : ParentLookup) (options : option UpdateNodesOptions)
  (next : nat) : AdoptState :=
  let merged := mergeObjects adoptUserNodesDefaultOptions options in
  let tmpLookup := nodeLookup0 in
  let selectedNodeZ := if elevateNodesOnSelect merged then Fin 1000 else zero in
  fold_left (adoptUserNode merged options tmpLookup selectedNodeZ) nodes
    {| nodeLookup := JsMap.empty; parentLookup := JsMap.empty; nextRef := next |}.

(** The vocabulary of the adoption, for these functions. *)
Definition childPlacement (node parentNode : InternalNode)
  (options : option UpdateNodesOptions) : XYPosition * num :=
  let merged := mergeObjects defaultOptions options in
  calculateChildXYZ node parentNode (nodeOrigin merged) (nodeExtent merged)
    (if elevateNodesOnSelect merged then Fin 1000 else zero).

Definition positionChanged (node parentNode : InternalNode)
  (options : option UpdateNodesOptions) : bool :=
  let xy := fst (childPlacement node parentNode options) in
  let pa := positionAbsolute (internals node) in
  negb (eqb (x xy) (x pa)) || negb (eqb (y xy) (y pa)).

Definition placementChanged (node parentNode : InternalNode)
  (options : option UpdateNodesOptions) : bool :=
  positionChanged node parentNode options
  || negb (eqb (snd (childPlacement node parentNode options)) (z (internals node))).

Definition replacedChild (r : nat) (node parentNode : InternalNode)
  (options : option UpdateNodesOptions) : InternalNode :=
  withPlacement r node
    (if positionChanged node parentNode options
     then fst (childPlacement node parentNode options)
     else positionAbsolute (internals node))
    (snd (childPlacement node parentNode options)).

Definition adoptAll (merged : MergedOptions) (options : option UpdateNodesOptions)
  (tmpLookup : NodeLookup) (selectedNodeZ : num) (st : AdoptState) (nodes : list Node)
  : AdoptState :=
  fold_left (adoptUserNode merged options tmpLookup selectedNodeZ) nodes st.

(** The largest coordinates at which [clampPositionToParent] leaves a child
    of the given dimensions: the parent's corner plus the parent's size minus
    the child's size, as the code computes them. *)
Definition parentBound (parent : InternalNode) (childDimensions : Dimensions) : XYPosition :=
  {| x := sub (add (x (positionAbsolute (internals parent)))
                   (width (getNodeDimensions (base parent))))
              (width childDimensions);
     y := sub (add (y (positionAbsolute (internals parent)))
                   (height (getNodeDimensions (base parent))))
              (height childDimensions) |}.

End F64.

(* ------------------------------------------------------------------------- *)
(** ** Vocabulary of the statements in double precision *)

(** The four bounds of the extent are finite. *)
Definition finiteExtent (e : CoordinateExtent) : Prop :=
  finite (fst (fst e)) /\ finite (snd (fst e))
  /\ finite (fst (snd e)) /\ finite (snd (snd e)).

(** The upper bounds that [clampPosition] clamps to: [upperBound - size] on
    each axis, as the code computes them. *)
Definition upperCorner (extent : CoordinateExtent) (dimensions : PartialDimensions)
  : XYPosition :=
  {| x := F64.sub (fst (snd extent)) (orElse (pwidth dimensions) zero);
     y := F64.sub (snd (snd extent)) (orElse (pheight dimensions) zero) |}.

(** A position between two others, on both axes. *)
Definition between (lower p upper : XYPosition) : Prop :=
  num_le (x lower) (x p) /\ num_le (x p) (x upper)
  /\ num_le (y lower) (y p) /\ num_le (y p) (y upper).

(** The right edge of [inner] lies right of the right edge of [outer], in
    exact numbers and as the sums come out in double arithmetic. *)
Definition exceedsRight (inner outer : Rect) : bool :=
  ltb (JsNum.add (rect_x outer) (rect_width outer))
      (JsNum.add (rect_x inner) (rect_width inner))
  && ltb (F64.add (rect_x outer) (rect_width outer))
         (F64.add (rect_x inner) (rect_width inner)).

(** A rational that is a double: rounding leaves its value alone. *)
Definition representable (r : Q) : Prop := num_eq (F64.roundQ r) (Fin r).

(** A number between two others. *)
Definition inRange (lower a upper : num) : Prop :=
  num_le lower a /\ num_le a upper.

(* ------------------------------------------------------------------------- *)
(** ** Sample data for the concrete instances *)

(** A node with the given identity, id, position and size, optionally a child
    of [parent] with the given [extent]. *)
Definition sampleNode (r : nat) (k : string) (px py w h : Q)
  (parent : option string) (ext : option Extent) : Node :=
  {| ref := r; id := k; position := finPos (px, py);
     nwidth := Some (Fin w); nheight := Some (Fin h);
     initialWidth := None; initialHeight := None; measured := None;
     parentId := parent; origin := None; extent := ext;
     expandParent := None; zIndex := None; selected := None;
     dragging := None; resizing := None; hidden := None |}.

(** The internal node that wraps [u] at absolute position [(ax, ay)]. *)
Definition sampleInternal (r : nat) (u : Node) (ax ay : Q) : InternalNode :=
  {| base := with_measured (Some {| pwidth := None; pheight := None |}) (with_ref r u);
     internals :=
       {| positionAbsolute := finPos (ax, ay); z := zero;
          handleBounds := None; userNode := u |} |}.

Definition sampleParentOld : Node := sampleNode 1 "p" 0 0 100 100 None None.
Definition sampleParentMoved : Node := sampleNode 10 "p" 50 0 100 100 None None.
Definition sampleChild : Node :=
  sampleNode 2 "c" 5 5 20 20 (Some "p"%string) (Some ExtentParent).
Definition sampleFarChild : Node :=
  sampleNode 3 "c" 500 (-40) 20 20 (Some "p"%string) (Some ExtentParent).

Definition sampleLookup : NodeLookup :=
  [("p"%string, sampleInternal 3 sampleParentOld 0 0);
   ("c"%string, sampleInternal 4 sampleChild 5 5)].

(** A store state with nothing queued, after the commit of the mount. *)
Definition sampleQueueState : QueueState Node nat :=
  {| queue := []; serial := 0%N; pending := 0%N; effectDeps := Some 0%N;
     world := 0%nat; flushes := [] |}.

Definition sampleParentInternal : InternalNode := sampleInternal 3 sampleParentOld 0 0.
Definition sampleChildInternal : InternalNode := sampleInternal 4 sampleChild 5 5.

(** A parent followed by a child that asks for a place far outside of it. *)
Definition sampleFamily : list Node :=
  [] ++ sampleParentOld :: [] ++ sampleFarChild :: [].

(** The array the first lookup is built from, the next items (the child is
    gone, the parent is the same object), and both lookups of the diff. *)
Definition sampleElements : list Node := [sampleParentOld; sampleChild].
Definition sampleItems : list Node := [sampleParentOld].

Definition sampleItemLookup : JsMap.t LookupItem :=
  asItems (nodeLookup (adoptUserNodes sampleElements [] [] None 100)).

Definition sampleElementsAfter : list Node :=
  fst (applyChanges (getElementsDiffChanges (Some sampleItems) sampleItemLookup)
         sampleElements 200%nat).

Definition sampleItemLookupAfter : JsMap.t LookupItem :=
  asItems (nodeLookup (adoptUserNodes sampleElementsAfter
                         (nodeLookup (adoptUserNodes sampleElements [] [] None 100))
                         [] None 300)).

(** Three functional payloads. *)
Definition sampleUpdater1 : list Node -> list Node := fun l => l ++ [sampleParentOld].
Definition sampleUpdater2 : list Node -> list Node := fun l => l ++ [sampleChild].
Definition sampleUpdater3 : list Node -> list Node := fun l => l ++ [sampleFarChild].
Definition samplePayloads : list (QueueItem Node) :=
  [Updater sampleUpdater1; Updater sampleUpdater2; Updater sampleUpdater3].

(** A node equal to [sampleChild] in every field but its identity. *)
Definition sampleChildClone : Node := with_ref 77 sampleChild.

(** What the sample lookup stores for the child. *)
Definition sampleStoredChild : LookupItem :=
  orElse (JsMap.get "c" sampleItemLookup) (Plain sampleChild).

(** The next items when the child is replaced by its clone. *)
Definition sampleItemsCloned : list Node := [sampleParentOld; sampleChildClone].

(** The child after a [select] change was applied to it. *)
Definition sampleChildSelected : Node := applyChange (ChSelect "c" true) sampleChild.

(** The resize of the aspect-ratio example, with the default minimum size. *)
Definition sampleResize : Rect :=
  getDimensionsAfterResize
    {| sv_width := Fin 200; sv_height := Fin 100;
       sv_x := Fin 30; sv_y := Fin 40;
       pointerX := Fin 310; pointerY := Fin 140;
       aspectRatio := div (Fin 200) (Fin 100) |}
    (getControlDirection "bottom-right")
    {| xSnapped := Fin (310 + 50); ySnapped := Fin (140 + 0) |}
    {| minWidth := Fin 10; maxWidth := Fin 100000;
       minHeight := Fin 10; maxHeight := Fin 100000 |}
    true (zero, zero) None None.

(** The child is new to a lookup that holds the parent only. *)
Definition sampleParentOnlyLookup : JsMap.t LookupItem :=
  asItems (nodeLookup (adoptUserNodes sampleItems [] [] None 100)).

Definition sampleElementsWithAdded : list Node :=
  fst (applyChanges (getElementsDiffChanges (Some sampleElements) sampleParentOnlyLookup)
         sampleItems 200%nat).

(* ------------------------------------------------------------------------- *)
(** ** Sample data in double precision *)

(** A measured node whose numbers are the doubles that the given decimal
    literals denote. *)
Definition doubleNode (r : nat) (k : string) (px py w h : Q)
  (parent : option string) (ext : option Extent) : Node :=
  {| ref := r; id := k;
     position := {| x := F64.lit px; y := F64.lit py |};
     nwidth := None; nheight := None;
     initialWidth := None; initialHeight := None;
     measured := Some {| pwidth := Some (F64.lit w); pheight := Some (F64.lit h) |};
     parentId := parent; origin := None; extent := ext;
     expandParent := None; zIndex := None; selected := None;
     dragging := None; resizing := None; hidden := None |}.

(** A parent at [(39.2, 0)] of size [79.1 x 100] and a child of size
    [30.9 x 20] with [extent: 'parent'] that asks for [(5000, 5)]. *)
Definition doubleParent : Node := doubleNode 1 "p" (392 # 10) 0 (791 # 10) 100 None None.

Definition doubleChild : Node :=
  doubleNode 2 "c" 5000 5 (309 # 10) 20 (Some "p"%string) (Some ExtentParent).

Definition doubleFamily : list Node := [] ++ doubleParent :: [] ++ doubleChild :: [].

Definition doubleAdopted : AdoptState := F64.adoptUserNodes doubleFamily [] [] None 100.

Definition doubleAdoptedParent : InternalNode :=
  orElse (JsMap.get "p" (nodeLookup doubleAdopted)) (sampleInternal 3 doubleParent 0 0).

Definition doubleAdoptedChild : InternalNode :=
  orElse (JsMap.get "c" (nodeLookup doubleAdopted)) (sampleInternal 4 doubleChild 0 0).

(** An extent between [-1.7e308] and [-1e308] on the x axis, and dimensions
    of width [1e308]. *)
Definition farExtent : CoordinateExtent :=
  ((F64.lit (- 17 * 10 ^ 307), Fin 0), (F64.lit (- 10 ^ 308), Fin 100)).

Definition farDimensions : PartialDimensions :=
  {| pwidth := Some (F64.lit (10 ^ 308)); pheight := None |}.

(** A degenerate extent on the x axis: lower bound 10, upper bound 8, and
    dimensions of width 3. *)
Definition degenerateExtent : CoordinateExtent :=
  ((Fin 10, Fin 0), (Fin 8, Fin 100)).

Definition degenerateDimensions : PartialDimensions :=
  {| pwidth := Some (Fin 3); pheight := None |}.

(* ------------------------------------------------------------------------- *)
(** ** Sets of strings ([types/utils.ts], [areSetsEqual]) *)

(** A JavaScript [Set] of strings: its members in insertion order. *)
Module JsSet.

Definition t : Type := list string.

Definition has (k : string) (s : t) : bool := existsb (String.eqb k) s.

Definition add (k : string) (s : t) : t := if has k s then s else s ++ [k].

(** [new Set(array)] *)
Definition ofList (l : list string) : t := fold_left (fun s k => add k s) l [].

Definition size (s : t) : nat := List.length s.

End JsSet.

(** [areSetsEqual(a, b)] *)
Definition areSetsEqual (a b : JsSet.t) : bool :=
  if negb (Nat.eqb (JsSet.size a) (JsSet.size b)) then false
  else forallb (fun item => JsSet.has item b) a.

(* ------------------------------------------------------------------------- *)
(** ** Further graph utilities ([unnamed/part_002]) *)

(** An edge, as far as the graph and store utilities read it.  A handle that
    is absent is [null]. *)
Record Edge : Type :=
  { edge_id : string;
    source : string;
    target : string;
    sourceHandle : option string;
    targetHandle : option string;
    edge_deletable : option bool }.

(** [getOutgoers(node, nodes, edges)] *)
Definition getOutgoers (node : Node) (nodes : list Node) (edges : list Edge) : list Node :=
  if negb (truthyStr (Some (id node))) then []
  else
    let outgoerIds :=
      fold_left
        (fun ids edge =>
           if String.eqb (source edge) (id node) then JsSet.add (target edge) ids else ids)
        edges [] in
    filter (fun n => JsSet.has (id n) outgoerIds) nodes.

(** [getIncomers(node, nodes, edges)] *)
Definition getIncomers (node : Node) (nodes : list Node) (edges : list Edge) : list Node :=
  if negb (truthyStr (Some (id node))) then []
  else
    let incomersIds :=
      fold_left
        (fun ids edge =>
           if String.eqb (target edge) (id node) then JsSet.add (source edge) ids else ids)
        edges [] in
    filter (fun n => JsSet.has (id n) incomersIds) nodes.

(** [getConnectedEdges(nodes, edges)] *)
Definition getConnectedEdges (nodes : list Node) (edges : list Edge) : list Edge :=
  let nodeIds := fold_left (fun ids node => JsSet.add (id node) ids) nodes [] in
  filter (fun edge => JsSet.has (source edge) nodeIds || JsSet.has (target edge) nodeIds)
    edges.

(** The result of [calculateNodePosition], and the error codes it reported
    through [onError]. *)
Record NodePosition : Type :=
  { np_position : XYPosition;
    np_positionAbsolute : XYPosition;
    np_errors : list string }.

(** A node of [getElementsToRemove]: the node and its [deletable] property. *)
Record RemovableNode : Type :=
  { rn_node : Node;
    rn_deletable : option bool }.

(** [deletable === false] *)
Definition notDeletable (d : option bool) : bool :=
  match d with
  | Some false => true
  | _ => false
  end.

(** The first loop of [getElementsToRemove]: [matchingNodes]. *)
Definition matchNodes (nodeIds : JsSet.t) (nodes : list RemovableNode)
  : list RemovableNode :=
  fold_left
    (fun matchingNodes node =>
       if notDeletable (rn_deletable node) then matchingNodes
       else
         let isIncluded := JsSet.has (id (rn_node node)) nodeIds in
         let parentHit :=
           negb isIncluded
           && match parentId (rn_node node) with
              | Some pid =>
                  truthyStr (Some pid)
                  && existsb (fun n => String.eqb (id (rn_node n)) pid) matchingNodes
              | None => false
              end in
         if isIncluded || parentHit then matchingNodes ++ [node] else matchingNodes)
    nodes [].

(** The second loop: the requested edges that are not yet listed. *)
Definition matchEdges (edgeIds : JsSet.t) (deletableEdges connectedEdges : list Edge)
  : list Edge :=
  fold_left
    (fun matchingEdges edge =>
       let isIncluded := JsSet.has (edge_id edge) edgeIds in
       if isIncluded
          && negb (existsb (fun e => String.eqb (edge_id e) (edge_id edge)) matchingEdges)
       then matchingEdges ++ [edge]
       else matchingEdges)
    deletableEdges connectedEdges.

(** What [onBeforeDelete] resolves to. *)
Inductive BeforeDeleteResult : Type :=
| Proceed (go : bool)
| Replace (nodes : list RemovableNode) (edges : list Edge).

(** [getElementsToRemove({ nodesToRemove = [], edgesToRemove = [], nodes,
    edges, onBeforeDelete })].  Of the elements to remove only the ids are
    read, so they are given by their ids (an element without an id matches
    nothing); the promise is its value. *)
Definition getElementsToRemove (nodesToRemove edgesToRemove : list string)
  (nodes : list RemovableNode) (edges : list Edge)
  (onBeforeDelete : option (list RemovableNode -> list Edge -> BeforeDeleteResult))
  : list RemovableNode * list Edge :=
  let nodeIds := JsSet.ofList nodesToRemove in
  let matchingNodes := matchNodes nodeIds nodes in
  let edgeIds := JsSet.ofList edgesToRemove in
  let deletableEdges := filter (fun edge => negb (notDeletable (edge_deletable edge))) edges in
  let connectedEdges :=
    getConnectedEdges (map rn_node matchingNodes) deletableEdges in
  let matchingEdges := matchEdges edgeIds deletableEdges connectedEdges in
  match onBeforeDelete with
  | None => (matchingNodes, matchingEdges)
  | Some callback =>
      match callback matchingNodes matchingEdges with
      | Proceed true => (matchingNodes, matchingEdges)
      | Proceed false => ([], [])
      | Replace ns es => (ns, es)
      end
  end.

(* ------------------------------------------------------------------------- *)
(** ** The edge queue ([unnamed/part_000]) *)

(** The part of the store that [edgeQueueHandler] reads. *)
Record EdgeStoreState : Type :=
  { s_edges : option (list Node);
    s_hasDefaultEdges : bool;
    s_onEdgesChange : bool;
    s_edgeLookup : JsMap.t LookupItem }.

Inductive EdgeDispatch : Type :=
| SetEdges (next : list Node)
| OnEdgesChange (changes : list Change)
| NoEdgeDispatch.

(** [edgeQueueHandler(queueItems)] *)
Definition edgeQueueHandler (store : EdgeStoreState) (queueItems : list (QueueItem Node))
  : EdgeDispatch :=
  let edges := orElse (s_edges store) [] in
  let next := reduceQueue edges queueItems in
  if s_hasDefaultEdges store then SetEdges next
  else if s_onEdgesChange store
       then OnEdgesChange (getElementsDiffChanges (Some next) (s_edgeLookup store))
       else NoEdgeDispatch.

(* ------------------------------------------------------------------------- *)
(** ** The store ([react/src/store/index.ts]) *)

(** The part of the store that the node and edge actions below read and write.
    [fs_onNodesChange] and [fs_onEdgesChange] are the calls that the callbacks
    of the user received, oldest first, or [None] without a callback;
    [fs_nextRef] is the allocator of object identities. *)
Record FlowStore : Type :=
  { fs_nodes : list Node;
    fs_edges : list Node;
    fs_nodeLookup : NodeLookup;
    fs_parentLookup : ParentLookup;
    fs_edgeLookup : JsMap.t LookupItem;
    fs_nodeOrigin : NodeOrigin;
    fs_elevateNodesOnSelect : bool;
    fs_hasDefaultNodes : bool;
    fs_hasDefaultEdges : bool;
    fs_onNodesChange : option (list (list Change));
    fs_onEdgesChange : option (list (list Change));
    fs_nextRef : nat }.

(** [setNodes(nodes)]; [nodeExtent] is the argument of [createStore]. *)
Definition setNodes (nodeExtent : option CoordinateExtent) (nodes : list Node)
  (s : FlowStore) : FlowStore :=
  let adopted :=
    adoptUserNodes nodes (fs_nodeLookup s) (fs_parentLookup s)
      (Some {| o_nodeOrigin := Some (fs_nodeOrigin s);
               o_nodeExtent := nodeExtent;
               o_elevateNodesOnSelect := Some (fs_elevateNodesOnSelect s);
               o_defaults := None;
               o_checkEquality := Some true |})
      (fs_nextRef s) in
  {| fs_nodes := nodes;
     fs_edges := fs_edges s;
     fs_nodeLookup := nodeLookup adopted;
     fs_parentLookup := parentLookup adopted;
     fs_edgeLookup := fs_edgeLookup s;
     fs_nodeOrigin := fs_nodeOrigin s;
     fs_elevateNodesOnSelect := fs_elevateNodesOnSelect s;
     fs_hasDefaultNodes := fs_hasDefaultNodes s;
     fs_hasDefaultEdges := fs_hasDefaultEdges s;
     fs_onNodesChange := fs_onNodesChange s;
     fs_onEdgesChange := fs_onEdgesChange s;
     fs_nextRef := nextRef adopted |}.

(** [setEdges(edges)], as far as the edge lookup goes. *)
Definition setEdges (edges : list Node) (s : FlowStore) : FlowStore :=
  {| fs_nodes := fs_nodes s;
     fs_edges := edges;
     fs_nodeLookup := fs_nodeLookup s;
     fs_parentLookup := fs_parentLookup s;
     fs_edgeLookup := buildEdgeLookup edges;
     fs_nodeOrigin := fs_nodeOrigin s;
     fs_elevateNodesOnSelect := fs_elevateNodesOnSelect s;
     fs_hasDefaultNodes := fs_hasDefaultNodes s;
     fs_hasDefaultEdges := fs_hasDefaultEdges s;
     fs_onNodesChange := fs_onNodesChange s;
     fs_onEdgesChange := fs_onEdgesChange s;
     fs_nextRef := fs_nextRef s |}.

(** The store after an allocation, and after a call of a callback. *)
Definition withNextRef (r : nat) (s : FlowStore) : FlowStore :=
  {| fs_nodes := fs_nodes s;
     fs_edges := fs_edges s;
     fs_nodeLookup := fs_nodeLookup s;
     fs_parentLookup := fs_parentLookup s;
     fs_edgeLookup := fs_edgeLookup s;
     fs_nodeOrigin := fs_nodeOrigin s;
     fs_elevateNodesOnSelect := fs_elevateNodesOnSelect s;
     fs_hasDefaultNodes := fs_hasDefaultNodes s;
     fs_hasDefaultEdges := fs_hasDefaultEdges s;
     fs_onNodesChange := fs_onNodesChange s;
     fs_onEdgesChange := fs_onEdgesChange s;
     fs_nextRef := r |}.

Definition callOnNodesChange (changes : list Change) (s : FlowStore) : FlowStore :=
  {| fs_nodes := fs_nodes s;
     fs_edges := fs_edges s;
     fs_nodeLookup := fs_nodeLookup s;
     fs_parentLookup := fs_parentLookup s;
     fs_edgeLookup := fs_edgeLookup s;
     fs_nodeOrigin := fs_nodeOrigin s;
     fs_elevateNodesOnSelect := fs_elevateNodesOnSelect s;
     fs_hasDefaultNodes := fs_hasDefaultNodes s;
     fs_hasDefaultEdges := fs_hasDefaultEdges s;
     fs_onNodesChange := option_map (fun calls => calls ++ [changes]) (fs_onNodesChange s);
     fs_onEdgesChange := fs_onEdgesChange s;
     fs_nextRef := fs_nextRef s |}.

Definition callOnEdgesChange (changes : list Change) (s : FlowStore) : FlowStore :=
  {| fs_nodes := fs_nodes s;
     fs_edges := fs_edges s;
     fs_nodeLookup := fs_nodeLookup s;
     fs_parentLookup := fs_parentLookup s;
     fs_edgeLookup := fs_edgeLookup s;
     fs_nodeOrigin := fs_nodeOrigin s;
     fs_elevateNodesOnSelect := fs_elevateNodesOnSelect s;
     fs_hasDefaultNodes := fs_hasDefaultNodes s;
     fs_hasDefaultEdges := fs_hasDefaultEdges s;
     fs_onNodesChange := fs_onNodesChange s;
     fs_onEdgesChange := option_map (fun calls => calls ++ [changes]) (fs_onEdgesChange s);
     fs_nextRef := fs_nextRef s |}.

(** [applyNodeChanges(changes, nodes)] and [applyEdgeChanges(changes, edges)] *)
Definition applyNodeChanges (changes : list Change) (nodes : list Node)
  : Alloc (list Node) :=
  applyChanges changes nodes.

Definition applyEdgeChanges (changes : list Change) (edges : list Node)
  : Alloc (list Node) :=
  applyChanges changes edges.

(** [triggerNodeChanges(changes)] *)
Definition triggerNodeChanges (nodeExtent : option CoordinateExtent)
  (changes : list Change) (s : FlowStore) : FlowStore :=
  match changes with
  | [] => s
  | _ :: _ =>
      let s :=
        if fs_hasDefaultNodes s then
          let (updatedNodes, r) := applyNodeChanges changes (fs_nodes s) (fs_nextRef s) in
          setNodes nodeExtent updatedNodes (withNextRef r s)
        else s in
      callOnNodesChange changes s
  end.

(** [triggerEdgeChanges(changes)] *)
Definition triggerEdgeChanges (changes : list Change) (s : FlowStore) : FlowStore :=
  match changes with
  | [] => s
  | _ :: _ =>
      let s :=
        if fs_hasDefaultEdges s then
          let (updatedEdges, r) := applyEdgeChanges changes (fs_edges s) (fs_nextRef s) in
          setEdges updatedEdges (withNextRef r s)
        else s in
      callOnEdgesChange changes s
  end.

(** The [reduce] of [resetSelectedElements]: a change for every selected
    element. *)
Definition unselectChanges (elements : list Node) : list Change :=
  fold_left
    (fun res element =>
       if truthyBool (selected element)
       then res ++ [createSelectionChange (id element) false]
       else res)
    elements [].

(** [resetSelectedElements()] *)
Definition resetSelectedElements (nodeExtent : option CoordinateExtent) (s : FlowStore)
  : FlowStore :=
  let nodeChanges := unselectChanges (fs_nodes s) in
  let edgeChanges := unselectChanges (fs_edges s) in
  triggerEdgeChanges edgeChanges (triggerNodeChanges nodeExtent nodeChanges s).

(* ------------------------------------------------------------------------- *)
(** ** Bounds and dragging in double precision *)

(** The functions of [types/utils.ts] and [unnamed/part_002] that the further
    properties are about and that compute with [+] and [-]: the text of the
    definitions above, read with the operations of [F64]. *)
Module F64Graph.

Import F64.

(** [boxToRect(box)] *)
Definition boxToRect (b : Box) : Rect :=
  {| rect_x := box_x b; rect_y := box_y b;
     rect_width := sub (box_x2 b) (box_x b);
     rect_height := sub (box_y2 b) (box_y b) |}.

(** [nodeToBox(node, nodeOrigin = [0, 0])]; [isInternalNodeBase] is the
    constructor test. *)
Definition nodeToBox (node : LookupItem) (nodeOrigin : option NodeOrigin) : Box :=
  let (p, n) :=
    match node with
    | Internal i => (positionAbsolute (internals i), base i)
    | Plain u => (getNodePositionWithOrigin u nodeOrigin, u)
    end in
  {| box_x := x p;
     box_y := y p;
     box_x2 := add (x p)
                 (orElse (orElseOpt (orElseOpt (measuredWidth n) (nwidth n)) (initialWidth n)) zero);
     box_y2 := add (y p)
                 (orElse (orElseOpt (orElseOpt (measuredHeight n) (nheight n)) (initialHeight n)) zero) |}.

(** [getNodesBounds(nodes, params = { nodeOrigin: [0, 0], nodeLookup: undefined })] *)
Definition getNodesBounds (nodes : list NodeOrId) (params : option GetNodesBoundsParams)
  : Rect :=
  let params := orElse params defaultBoundsParams in
  match nodes with
  | [] => zeroRect
  | _ =>
      boxToRect
        (fold_left
           (fun currBox nodeOrId =>
              let nodeBox :=
                match resolveNode params nodeOrId with
                | Some currentNode => nodeToBox currentNode (p_nodeOrigin params)
                | None => zeroBox
                end in
              getBoundsOfBoxes currBox nodeBox)
           nodes emptyBox)
  end.

(** [getInternalNodesBounds(nodeLookup, params = {})]; only [params.filter]
    is read. *)
Definition getInternalNodesBounds (nodeLookup : NodeLookup)
  (filter : option (InternalNode -> bool)) : Rect :=
  if Nat.eqb (JsMap.size nodeLookup) 0 then zeroRect
  else
    boxToRect
      (fold_left
         (fun box kv =>
            let node := snd kv in
            if match filter with None => true | Some f => f node end
            then getBoundsOfBoxes box (nodeToBox (Internal node) None)
            else box)
         nodeLookup emptyBox).

(** [calculateNodePosition({ nodeId, nextPosition, nodeLookup,
    nodeOrigin = [0, 0], nodeExtent, onError })].  A [nodeId] that the lookup
    does not hold makes the code throw ([None]); the nodes of a lookup always
    have a [measured] object. *)
Definition calculateNodePosition (nodeId : string) (nextPosition : XYPosition)
  (nodeLookup : NodeLookup) (nodeOrigin : option NodeOrigin)
  (nodeExtent : option CoordinateExtent) : option NodePosition :=
  match JsMap.get nodeId nodeLookup with
  | None => None
  | Some node =>
      let nodeOrigin := orElse nodeOrigin (zero, zero) in
      let parentNode :=
        match parentId (base node) with
        | Some pid => if truthyStr (Some pid) then JsMap.get pid nodeLookup else None
        | None => None
        end in
      let parentXY :=
        match parentNode with
        | Some p => positionAbsolute (internals p)
        | None => originPosition
        end in
      let parentX := x parentXY in
      let parentY := y parentXY in
      let origin := orElse (origin (base node)) nodeOrigin in
      let isParentExtent :=
        match extent (base node) with
        | Some ExtentParent => true
        | _ => false
        end in
      let '(extent, errors) :=
        if isParentExtent && negb (truthyBool (expandParent (base node))) then
          match parentNode with
          | None => (nodeExtent, ["005"%string])
          | Some p =>
              match measuredWidth (base p), measuredHeight (base p) with
              | Some parentWidth, Some parentHeight =>
                  if truthy parentWidth && truthy parentHeight
                  then (Some ((parentX, parentY),
                              (add parentX parentWidth, add parentY parentHeight)), [])
                  else (nodeExtent, [])
              | _, _ => (nodeExtent, [])
              end
          end
        else
          match parentNode, isCoordinateExtent (extent (base node)) with
          | Some _, Some e =>
              (Some ((add (fst (fst e)) parentX, add (snd (fst e)) parentY),
                     (add (fst (snd e)) parentX, add (snd (snd e)) parentY)), [])
          | _, _ => (nodeExtent, [])
          end in
      let nodeMeasured :=
        {| pwidth := measuredWidth (base node); pheight := measuredHeight (base node) |} in
      let positionAbsolute :=
        match extent with
        | Some e => clampPosition (Some nextPosition) e nodeMeasured
        | None => nextPosition
        end in
      let errors :=
        match measuredWidth (base node), measuredHeight (base node) with
        | Some _, Some _ => errors
        | _, _ => errors ++ ["015"%string]
        end in
      Some
        {| np_position :=
             {| x := add (sub (x positionAbsolute) parentX)
                      (mul (orElse (measuredWidth (base node)) zero) (fst origin));
                y := add (sub (y positionAbsolute) parentY)
                      (mul (orElse (measuredHeight (base node)) zero) (snd origin)) |};
           np_positionAbsolute := positionAbsolute;
           np_errors := errors |}
  end.

End F64Graph.

(* ------------------------------------------------------------------------- *)
(** ** Auto panning in double precision ([types/utils.ts]) *)

(** [Math.abs]; the absolute value of a double is a double. *)
Module JsMath.

Definition abs (a : num) : num :=
  match a with
  | NaN => NaN
  | Fin q => Fin (Qabs.Qabs q)
  | NInf | PInf => PInf
  end.

End JsMath.

Module F64Utils.

Import F64.

(** [calcAutoPanVelocity(value, min, max)] *)
Definition calcAutoPanVelocity (value min max : num) : num :=
  if ltb value min then
    div (clamp (JsMath.abs (sub value min)) (Fin 1) min) min
  else if gtb value max then
    div (neg (clamp (JsMath.abs (sub value max)) (Fin 1) min)) min
  else zero.

(** [calcAutoPan(pos, bounds, speed = 15, distance = 40)]; the result array
    [[xMovement, yMovement]] is a pair. *)
Definition calcAutoPan (pos : XYPosition) (bounds : Dimensions)
  (speed distance : option num) : num * num :=
  let speed := orElse speed (Fin 15) in
  let distance := orElse distance (Fin 40) in
  let xMovement :=
    mul (calcAutoPanVelocity (x pos) distance (sub (width bounds) distance)) speed in
  let yMovement :=
    mul (calcAutoPanVelocity (y pos) distance (sub (height bounds) distance)) speed in
  (xMovement, yMovement).

End F64Utils.

(* ------------------------------------------------------------------------- *)
(** ** Vocabulary of the further properties *)

Definition finiteBox (b : Box) : Prop :=
  finite (box_x b) /\ finite (box_y b) /\ finite (box_x2 b) /\ finite (box_y2 b).

(** [inner] lies within [outer]. *)
Definition boxWithin (inner outer : Box) : Prop :=
  num_le (box_x outer) (box_x inner) /\ num_le (box_y outer) (box_y inner)
  /\ num_le (box_x2 inner) (box_x2 outer) /\ num_le (box_y2 inner) (box_y2 outer).

(** The filter of [getInternalNodesBounds] lets [node] through. *)
Definition passes (filter : option (InternalNode -> bool)) (node : InternalNode) : bool :=
  match filter with
  | None => true
  | Some f => f node
  end.

(** The [selected] property of the element with id [k] after the selection
    changes among [changes], from [current]. *)
Fixpoint selectionAfter (k : string) (changes : list Change) (current : option bool)
  : option bool :=
  match changes with
  | [] => current
  | ChSelect k' b :: rest =>
      selectionAfter k rest (if String.eqb k k' then Some b else current)
  | _ :: rest => selectionAfter k rest current
  end.

Definition isSelect (c : Change) : bool :=
  match c with ChSelect _ _ => true | _ => false end.

(** The lookup holds the elements of the array in array order, each under its
    id and with its [selected] property. *)
Definition mirrors (elements : list Node) (lookup : JsMap.t LookupItem) : Prop :=
  Forall2
    (fun e kv =>
       fst kv = id e /\ itemId (snd kv) = id e /\ itemSelected (snd kv) = selected e)
    elements lookup.

(** [k] is the id of one of the elements. *)
Definition hasId (k : string) (elements : list Node) : bool :=
  existsb (fun e => String.eqb (id e) k) elements.

(** The elements that stay (their id is among the next items) stand in the
    same order in both arrays. *)
Definition keptInOrder (elements items : list Node) : Prop :=
  map id (filter (fun e => hasId (id e) items) elements)
  = map id (filter (fun i => hasId (id i) elements) items).

(** The element [r] of the new array stands for the item [i]: it has its id,
    and is the same object or a shallow copy of it. *)
Definition reproduces (r i : Node) : Prop :=
  id r = id i /\ (ref r = ref i \/ exists k, r = with_ref k i).

(* ------------------------------------------------------------------------- *)
(** ** Sample data of the further properties *)

(** An edge from the parent to the child. *)
Definition sampleEdge : Edge :=
  {| edge_id := "e1"; source := "p"; target := "c";
     sourceHandle := None; targetHandle := None; edge_deletable := None |}.

Definition sampleRemovableParent : RemovableNode :=
  {| rn_node := sampleParentOld; rn_deletable := None |}.

Definition sampleRemovableChild : RemovableNode :=
  {| rn_node := sampleChild; rn_deletable := None |}.

Definition sampleRemovables : list RemovableNode :=
  [sampleRemovableParent; sampleRemovableChild].

(** A parent raised to [zIndex] 5 and its child without a [zIndex]. *)
Definition sampleRaisedParent : Node :=
  {| ref := 11; id := "p"; position := finPos (0, 0);
     nwidth := Some (Fin 100); nheight := Some (Fin 100);
     initialWidth := None; initialHeight := None; measured := None;
     parentId := None; origin := None; extent := None;
     expandParent := None; zIndex := Some (Fin 5); selected := None;
     dragging := None; resizing := None; hidden := None |}.

Definition sampleRaisedFamily : list Node :=
  [] ++ sampleRaisedParent :: [] ++ sampleChild :: [].

Definition sampleRaisedAdopted : AdoptState :=
  adoptUserNodes sampleRaisedFamily [] [] None 100.

Definition sampleRaisedAdoptedParent : InternalNode :=
  orElse (JsMap.get "p" (nodeLookup sampleRaisedAdopted)) sampleParentInternal.

Definition sampleRaisedAdoptedChild : InternalNode :=
  orElse (JsMap.get "c" (nodeLookup sampleRaisedAdopted)) sampleChildInternal.

(** A flow that keeps its own nodes and edges; the child and the edge are
    selected. *)
Definition sampleSelectedEdge : Node :=
  applyChange (ChSelect "e1" true) (sampleNode 20 "e1" 0 0 0 0 None None).

Definition sampleOtherEdge : Node := sampleNode 21 "e2" 0 0 0 0 None None.

Definition sampleStore : FlowStore :=
  {| fs_nodes := [sampleParentOld; sampleChildSelected];
     fs_edges := [sampleSelectedEdge; sampleOtherEdge];
     fs_nodeLookup := nodeLookup (adoptUserNodes [sampleParentOld; sampleChildSelected]
                                    [] [] None 100);
     fs_parentLookup := parentLookup (adoptUserNodes [sampleParentOld; sampleChildSelected]
                                        [] [] None 100);
     fs_edgeLookup := buildEdgeLookup [sampleSelectedEdge; sampleOtherEdge];
     fs_nodeOrigin := (zero, zero);
     fs_elevateNodesOnSelect := true;
     fs_hasDefaultNodes := true;
     fs_hasDefaultEdges := true;
     fs_onNodesChange := Some [];
     fs_onEdgesChange := None;
     fs_nextRef := 200 |}.

(** The next items of a diff that replaces the parent, drops the child and
    adds a new node. *)
Definition sampleNextItems : list Node :=
  [sampleParentMoved; sampleNode 11 "d" 7 7 10 10 None None].

(** The extent between [(39.2, 0)] and [(118.3, 100)] and the dimensions
    [30.9 x 20], in doubles. *)
Definition doubleExtent : CoordinateExtent :=
  ((F64.lit (392 # 10), Fin 0), (F64.lit (1183 # 10), Fin 100)).

Definition doubleDimensions : PartialDimensions :=
  {| pwidth := Some (F64.lit (309 # 10)); pheight := Some (Fin 20) |}.

(** The internal node of [u] at the absolute position [(ax, ay)]. *)
Definition doubleInternal (r : nat) (u : Node) (ax ay : Q) : InternalNode :=
  {| base := with_ref r u;
     internals :=
       {| positionAbsolute := {| x := F64.lit ax; y := F64.lit ay |}; z := zero;
          handleBounds := None; userNode := u |} |}.

(** A node at [(60.2, 0)] of size [10 x 10] and one at [(140.2, 0)] of size
    [94.9 x 10]. *)
Definition doubleLeft : Node := doubleNode 31 "l" (602 # 10) 0 10 10 None None.

Definition doubleRight : Node := doubleNode 32 "r" (1402 # 10) 0 (949 # 10) 10 None None.

Definition doubleBoundsLookup : NodeLookup :=
  [("l"%string, doubleInternal 33 doubleLeft (602 # 10) 0);
   ("r"%string, doubleInternal 34 doubleRight (1402 # 10) 0)].

Definition doubleBoundsNodes : list NodeOrId := [OfNode doubleLeft; OfNode doubleRight].

(** A pointer at [(2.3, 99)] in a pane of [100 x 100], panned with speed
    [0.1] inside a margin of [3]; [0.1] as the double it is. *)
Definition panPosition : XYPosition := {| x := F64.lit (23 # 10); y := Fin 99 |}.

Definition panBounds : Dimensions := {| width := Fin 100; height := Fin 100 |}.

Definition panSpeed : Q := 3602879701896397 # 36028797018963968.

(* ------------------------------------------------------------------------- *)
(** * Properties *)

(** ** Numbers *)

Lemma Qmax_l_eq (a b : Q) : b <= a -> Qmax a b = a.
Proof.
  intros H. unfold Qmax, GenericMinMax.gmax.
  destruct (Qcompare_spec a b); try reflexivity. lra.
Qed.

Lemma Qmax_r_eq (a b : Q) : a < b -> Qmax a b = b.
Proof.
  intros H. unfold Qmax, GenericMinMax.gmax.
  destruct (Qcompare_spec a b); try reflexivity; lra.
Qed.

Lemma Qmin_l_eq (a b : Q) : a <= b -> Qmin a b = a.
Proof.
  intros H. unfold Qmin, GenericMinMax.gmin.
  destruct (Qcompare_spec a b); try reflexivity. lra.
Qed.

Lemma Qmin_r_eq (a b : Q) : b < a -> Qmin a b = b.
Proof.
  intros H. unfold Qmin, GenericMinMax.gmin.
  destruct (Qcompare_spec a b); try reflexivity; lra.
Qed.

Lemma finite_inv (a : num) : finite a -> exists q, a = Fin q.
Proof. destruct a; cbn; try discriminate. eauto. Qed.

Lemma floor_comp (a b : Q) : a == b -> floor (Fin a) = floor (Fin b).
Proof. intros H. cbn. rewrite H. reflexivity. Qed.

(** ** Clamping *)

Lemma clamp_defined (v lo hi : num) :
  is_nan v = false -> is_nan lo = false -> is_nan hi = false ->
  is_nan (clamp v lo hi) = false.
Proof. destruct v, lo, hi; cbn; congruence. Qed.

(** ** Rounding *)

Lemma roundQ_defined (q : Q) : is_nan (F64.roundQ q) = false.
Proof.
  unfold F64.roundQ, F64.roundPositive.
  destruct (Qnum (Qred q)); [reflexivity| |];
    destruct (_ <=? _)%Z; reflexivity.
Qed.

Lemma round_defined (a : num) : is_nan a = false -> is_nan (F64.round a) = false.
Proof. destruct a; cbn; try congruence. intros _. apply roundQ_defined. Qed.

(** The sum, difference and product of doubles are numbers, possibly
    infinite, as long as one operand is finite (both, for the product). *)
Lemma add_defined_l (a b : num) :
  finite a -> is_nan b = false -> is_nan (F64.add a b) = false.
Proof.
  intros Ha Hb. destruct (finite_inv a Ha) as (p & ->). apply round_defined.
  destruct b; cbn in *; congruence.
Qed.

Lemma sub_defined_l (a b : num) :
  finite a -> is_nan b = false -> is_nan (F64.sub a b) = false.
Proof.
  intros Ha Hb. destruct (finite_inv a Ha) as (p & ->). apply round_defined.
  destruct b; cbn in *; congruence.
Qed.

Lemma sub_defined_r (a b : num) :
  is_nan a = false -> finite b -> is_nan (F64.sub a b) = false.
Proof.
  intros Ha Hb. destruct (finite_inv b Hb) as (p & ->). apply round_defined.
  destruct a; cbn in *; congruence.
Qed.

Lemma mul_defined (a b : num) :
  finite a -> finite b -> is_nan (F64.mul a b) = false.
Proof.
  intros Ha Hb. destruct (finite_inv a Ha) as (p & ->).
  destruct (finite_inv b Hb) as (q & ->). apply round_defined. reflexivity.
Qed.

Lemma finite_not_nan (a : num) : finite a -> is_nan a = false.
Proof. unfold finite. destruct a; cbn; congruence. Qed.

(** ** Clamping between numbers *)

Lemma clamp_below_upper (v lo hi : num) :
  is_nan v = false -> is_nan lo = false -> is_nan hi = false ->
  num_le (clamp v lo hi) hi.
Proof.
  destruct v, lo, hi; cbn; try discriminate; intros _ _ _;
    try exact I; try apply Qle_refl; apply Q.le_min_r.
Qed.

Lemma clamp_above_lower (v lo hi : num) :
  is_nan v = false -> num_le lo hi -> num_le lo (clamp v lo hi).
Proof.
  destruct v, lo, hi; cbn; try discriminate; try contradiction; intros _ H;
    try exact I; try apply Qle_refl; try exact H; try apply Q.le_max_r;
    apply Q.min_glb; first [apply Qle_refl|apply Q.le_max_r|exact H].
Qed.

Lemma clamp_upper_wins (v lo hi : num) :
  is_nan v = false -> ltb hi lo = true -> clamp v lo hi = hi.
Proof.
  destruct v, lo, hi; cbn; try discriminate; intros _ H; try reflexivity.
  - destruct (Qcompare_spec q0 q) as [E|L|G]; try discriminate.
    f_equal. apply Qmin_r_eq. exact L.
  - destruct (Qcompare_spec q1 q0) as [E|L|G]; try discriminate.
    f_equal. apply Qmin_r_eq. pose proof (Q.le_max_r q q0). lra.
Qed.

Lemma clamp_finite (v lo hi : num) :
  finite v -> finite lo -> finite hi -> finite (clamp v lo hi).
Proof.
  intros Hv Hl Hh. destruct (finite_inv v Hv) as (p & ->).
  destruct (finite_inv lo Hl) as (q & ->). destruct (finite_inv hi Hh) as (r & ->).
  reflexivity.
Qed.

(** C9, as the code has it in double arithmetic: [clampPosition] is total and
    never produces NaN for finite inputs (a missing position is the origin, a
    missing dimension is 0).  Each returned coordinate is
    [min(max(value, lowerBound), upperBound - size)] with the difference as
    the code computes it, and it is finite whenever that difference is: the
    difference can overflow to an infinity.  When the extent is degenerate
    ([upperBound - size < lowerBound]) the coordinate is [upperBound - size]:
    the upper clamp wins. *)
Theorem clampPosition_never_NaN :
  forall (position : option XYPosition) (extent : CoordinateExtent)
         (dimensions : PartialDimensions),
    finitePosition (orElse position originPosition) ->
    finiteExtent extent ->
    finite (orElse (pwidth dimensions) zero) ->
    finite (orElse (pheight dimensions) zero) ->
    let p := orElse position originPosition in
    let upper := upperCorner extent dimensions in
    let clamped := F64.clampPosition position extent dimensions in
    clamped
    = {| x := JsNum.min (JsNum.max (x p) (fst (fst extent))) (x upper);
         y := JsNum.min (JsNum.max (y p) (snd (fst extent))) (y upper) |}
    /\ is_nan (x clamped) = false /\ is_nan (y clamped) = false
    /\ (finite (x upper) -> finite (x clamped))
    /\ (finite (y upper) -> finite (y clamped))
    /\ (ltb (x upper) (fst (fst extent)) = true -> x clamped = x upper)
    /\ (ltb (y upper) (snd (fst extent)) = true -> y clamped = y upper).
Proof.
  intros position extent dimensions [Hpx Hpy] (Hlx & Hly & Hux & Huy) Hw Hh p upper clamped.
  assert (Nx : is_nan (x upper) = false)
    by (apply sub_defined_r; [now apply finite_not_nan|exact Hw]).
  assert (Ny : is_nan (y upper) = false)
    by (apply sub_defined_r; [now apply finite_not_nan|exact Hh]).
  assert (Ex : x clamped = clamp (x p) (fst (fst extent)) (x upper)) by reflexivity.
  assert (Ey : y clamped = clamp (y p) (snd (fst extent)) (y upper)) by reflexivity.
  split; [reflexivity|]. rewrite Ex, Ey.
  split; [apply clamp_defined; auto using finite_not_nan|].
  split; [apply clamp_defined; auto using finite_not_nan|].
  split; [intros F; now apply clamp_finite|].
  split; [intros F; now apply clamp_finite|].
  split; intros L; apply clamp_upper_wins; auto using finite_not_nan.
Qed.

(** The degenerate extent: lower bound 10, upper bound 8, width 3. *)
Lemma clampPosition_never_NaN_witness :
  finitePosition (finPos (7, 7))
  /\ finiteExtent degenerateExtent
  /\ F64.clampPosition (Some (finPos (7, 7))) degenerateExtent degenerateDimensions
     = {| x := Fin 5; y := Fin 7 |}
  /\ ltb (x (upperCorner degenerateExtent degenerateDimensions)) (Fin 10) = true.
Proof.
  assert (Fp : finitePosition (finPos (7, 7))) by (split; reflexivity).
  assert (Fe : finiteExtent degenerateExtent) by (repeat split).
  destruct (clampPosition_never_NaN (Some (finPos (7, 7))) degenerateExtent
              degenerateDimensions Fp Fe eq_refl eq_refl) as (E & _).
  split; [exact Fp|]. split; [exact Fe|]. split; [|reflexivity].
  rewrite E. vm_compute. reflexivity.
Defined.

(** Where C9 fails as it is stated: every input is finite and the lower bound
    of the extent is below the upper one, yet the upper bound [-1e308] less
    the width [1e308] is [-Infinity] in double arithmetic, and so is the
    returned coordinate. *)
Lemma clampPosition_infinite_counterexample :
  finitePosition originPosition
  /\ finiteExtent farExtent
  /\ ltb (fst (fst farExtent)) (fst (snd farExtent)) = true
  /\ finite (orElse (pwidth farDimensions) zero)
  /\ finite (orElse (pheight farDimensions) zero)
  /\ x (F64.clampPosition (Some originPosition) farExtent farDimensions) = NInf.
Proof. vm_compute. repeat split; reflexivity. Qed.

(** ** Bounds *)

Lemma getNodesBounds_empty (params : option GetNodesBoundsParams) :
  getNodesBounds [] params = zeroRect.
Proof. reflexivity. Qed.

Lemma getInternalNodesBounds_empty (filter : option (InternalNode -> bool)) :
  getInternalNodesBounds [] filter = zeroRect.
Proof. reflexivity. Qed.

(** C10, where the code departs from it: the empty node array and the empty
    lookup give the zero rectangle (the two lemmas above), but whenever the
    filter matches no node of a lookup that is not empty, the fold never
    leaves its initial box and the result is the rectangle [x = y = Infinity],
    [width = height = -Infinity]. *)
Theorem getInternalNodesBounds_filter_matching_none :
  forall (nodeLookup : NodeLookup) (filter : InternalNode -> bool),
    nodeLookup <> [] ->
    (forall kv, In kv nodeLookup -> filter (snd kv) = false) ->
    getInternalNodesBounds nodeLookup (Some filter) = infiniteRect.
Proof.
  intros nodeLookup filter Hne Hall. unfold getInternalNodesBounds.
  destruct nodeLookup as [|kv0 rest]; [congruence|]. cbn [JsMap.size List.length Nat.eqb].
  assert (G : forall (l : NodeLookup) (b : Box),
             (forall kv, In kv l -> filter (snd kv) = false) ->
             fold_left
               (fun box kv =>
                  if filter (snd kv)
                  then getBoundsOfBoxes box (nodeToBox (Internal (snd kv)) None)
                  else box) l b = b).
  { induction l as [|kv l IH]; intros b H; cbn [fold_left]; [reflexivity|].
    rewrite (H kv (or_introl eq_refl)). apply IH. intros kv' Hin. apply H. now right. }
  rewrite (G _ emptyBox Hall). reflexivity.
Qed.

(** The lookup of two nodes with the filter [() => false]. *)
Lemma getInternalNodesBounds_filter_matching_none_witness :
  sampleLookup <> []
  /\ (forall kv, In kv sampleLookup -> (fun _ : InternalNode => false) (snd kv) = false)
  /\ getInternalNodesBounds sampleLookup (Some (fun _ => false)) = infiniteRect.
Proof.
  assert (Hne : sampleLookup <> []) by discriminate.
  assert (Hall : forall kv, In kv sampleLookup ->
                   (fun _ : InternalNode => false) (snd kv) = false)
    by reflexivity.
  split; [exact Hne|]. split; [exact Hall|].
  exact (getInternalNodesBounds_filter_matching_none sampleLookup (fun _ => false) Hne Hall).
Defined.

(** ** Resizing *)

Lemma getSizeClamp_inside (s lo hi : Q) :
  lo <= s -> s <= hi -> getSizeClamp (Fin s) (Fin lo) (Fin hi) = Fin 0.
Proof.
  intros H1 H2. unfold getSizeClamp, max3, zero. cbn [sub add neg JsNum.max].
  rewrite (Qmax_l_eq 0 (lo + - s)) by lra.
  rewrite (Qmax_l_eq 0 (s + - hi)) by lra. reflexivity.
Qed.

(** C7: a node of size 200x100 (aspect ratio [200 / 100]) resized from the
    bottom-right handle with [keepAspectRatio], origin [0, 0], no extent, no
    child extent and min/max sizes that do not bind, by a pointer that moved
    by (50, 0): the result is 250 wide and 125 high, at the start position. *)
Theorem resize_keeps_aspect_ratio :
  forall (startX startY pX pY minW maxW minH maxH : Q),
    minW <= 200 -> 250 <= maxW -> minH <= 100 -> 125 <= maxH ->
    let r :=
      getDimensionsAfterResize
        {| sv_width := Fin 200; sv_height := Fin 100;
           sv_x := Fin startX; sv_y := Fin startY;
           pointerX := Fin pX; pointerY := Fin pY;
           aspectRatio := div (Fin 200) (Fin 100) |}
        (getControlDirection "bottom-right"%string)
        {| xSnapped := Fin (pX + 50); ySnapped := Fin (pY + 0) |}
        {| minWidth := Fin minW; maxWidth := Fin maxW;
           minHeight := Fin minH; maxHeight := Fin maxH |}
        true (zero, zero) None None in
    num_eq (rect_width r) (Fin 250) /\ num_eq (rect_height r) (Fin 125)
    /\ num_eq (rect_x r) (Fin startX) /\ num_eq (rect_y r) (Fin startY).
Proof.
  intros startX startY pX pY minW maxW minH maxH HminW HmaxW HminH HmaxH r.
  subst r. unfold getDimensionsAfterResize.
  replace (getControlDirection "bottom-right"%string)
    with {| isHorizontal := true; isVertical := true; affectsX := false; affectsY := false |}
    by reflexivity.
  cbn [isHorizontal isVertical affectsX affectsY sv_width sv_height sv_x sv_y
       pointerX pointerY aspectRatio xSnapped ySnapped minWidth maxWidth minHeight
       maxHeight andb negb orb fst snd].
  cbn [sub neg add].
  rewrite (floor_comp (pX + 50 + - pX) 50) by ring.
  rewrite (floor_comp (pY + 0 + - pY) 0) by ring.
  change (floor (Fin 50)) with (Fin 50). change (floor (Fin 0)) with (Fin 0).
  assert (Hc : (200 + 50) / (200 / 100) == 125) by (vm_compute; reflexivity).
  assert (Hd : (100 + 0) * (200 / 100) == 200) by (vm_compute; reflexivity).
  cbn -[getSizeClamp].
  repeat match goal with
  | |- context [getSizeClamp (Fin ?s) (Fin ?lo) (Fin ?hi)] =>
      rewrite (getSizeClamp_inside s lo hi)
        by first [lra | rewrite Hc; lra | rewrite Hd; lra]
  end.
  cbn.
  repeat split; try ring; vm_compute; reflexivity.
Qed.

(** The instance with the default minimum size 10 and a pointer that starts
    at (310, 140). *)
Lemma resize_keeps_aspect_ratio_witness :
  10 <= 200 /\ 250 <= 100000 /\ 10 <= 100 /\ 125 <= 100000
  /\ num_eq (rect_width sampleResize) (Fin 250)
  /\ num_eq (rect_height sampleResize) (Fin 125)
  /\ num_eq (rect_x sampleResize) (Fin 30)
  /\ num_eq (rect_y sampleResize) (Fin 40).
Proof.
  assert (H1 : 10 <= 200) by (vm_compute; discriminate).
  assert (H2 : 250 <= 100000) by (vm_compute; discriminate).
  assert (H3 : 10 <= 100) by (vm_compute; discriminate).
  assert (H4 : 125 <= 100000) by (vm_compute; discriminate).
  do 4 (split; [assumption|]).
  exact (resize_keeps_aspect_ratio 30 40 310 140 10 100000 10 100000 H1 H2 H3 H4).
Defined.

(** ** Batching queue *)

Section QueueFacts.

Variables (T W : Type) (runQueue : list (QueueItem T) -> W -> W).

Lemma tick_fields (items : list (QueueItem T)) (st : QueueState T W) :
  queue (tick items st) = queue st ++ items
  /\ serial (tick items st) = serial st
  /\ pending (tick items st) = (pending st + N.of_nat (List.length items))%N
  /\ effectDeps (tick items st) = effectDeps st
  /\ world (tick items st) = world st
  /\ flushes (tick items st) = flushes st.
Proof.
  revert st. induction items as [|item items IH]; intros st.
  - cbn. rewrite app_nil_r, N.add_0_r. repeat split.
  - cbn [tick fold_left]. fold (tick items (push item st)).
    destruct (IH (push item st)) as (Hq & Hs & Hp & He & Hw & Hf).
    rewrite Hq, Hs, Hp, He, Hw, Hf. cbn [push queue serial pending effectDeps world flushes].
    rewrite <- app_assoc. cbn [app List.length]. repeat split. lia.
Qed.

Lemma commit_settled (st : QueueState T W) :
  settled st -> commit runQueue st = st.
Proof.
  destruct st as [q s p e w f]. unfold settled. cbn. intros (-> & -> & ->).
  unfold commit. cbn. rewrite N.add_0_r, N.eqb_refl. reflexivity.
Qed.

Lemma commits_settled (k : nat) (st : QueueState T W) :
  settled st -> commits runQueue k st = st.
Proof.
  induction k as [|k IH]; intros H; cbn; [reflexivity|].
  rewrite commit_settled by exact H. apply IH, H.
Qed.

(** One commit after a tick that queued something flushes all of it at once. *)
Lemma commit_after_tick (items : list (QueueItem T)) (st : QueueState T W) :
  settled st -> items <> [] ->
  let st' := commit runQueue (tick items st) in
  settled st'
  /\ flushes st' = flushes st ++ [items]
  /\ world st' = runQueue items (world st).
Proof.
  intros (Hq & Hp & He) Hne.
  destruct (tick_fields items st) as (Tq & Ts & Tp & Te & Tw & Tf).
  rewrite Hq in Tq. rewrite Hp in Tp. rewrite He in Te. cbn in Tq, Tp.
  cbv zeta. unfold commit. rewrite Te, Ts, Tp.
  assert (Hneq : N.eqb (serial st) (serial st + N.of_nat (List.length items)) = false).
  { apply N.eqb_neq. destruct items; [congruence|]. cbn [List.length]. lia. }
  cbn [serial]. rewrite Hneq. unfold layoutEffect.
  cbn [queue serial pending effectDeps world flushes]. rewrite Tq, Tw, Tf.
  destruct items as [|i items]; [congruence|].
  cbn [queue serial pending effectDeps world flushes]. unfold settled.
  cbn [queue serial pending effectDeps world flushes]. repeat split.
Qed.

End QueueFacts.

(** C8: three [push] calls with functional payloads in one tick, from a queue
    with nothing pending.  No flush runs inside the tick; however many commits
    follow (at least one), [runQueue] has then run exactly once, with the three
    payloads in call order; the queue handler applies each payload to the
    result of the previous one, starting from the current collection; the
    queue is empty afterwards, and a later tick is flushed on its own. *)
Theorem batching_collapse :
  forall (W : Type) (runQueue : list (QueueItem Node) -> W -> W)
         (st : QueueState Node W) (f1 f2 f3 : list Node -> list Node) (k : nat),
    settled st -> (0 < k)%nat ->
    let items := [Updater f1; Updater f2; Updater f3] in
    let st' := commits runQueue k (tick items st) in
    flushes (tick items st) = flushes st
    /\ flushes st' = flushes st ++ [items]
    /\ world st' = runQueue items (world st)
    /\ queue st' = []
    /\ (forall current, reduceQueue current items = f3 (f2 (f1 current)))
    /\ (forall store, s_hasDefaultNodes store = true ->
          nodeQueueHandler store items = SetNodes (f3 (f2 (f1 (orElse (s_nodes store) [])))))
    /\ (forall items2, items2 <> [] ->
          flushes (commit runQueue (tick items2 st')) = flushes st ++ [items; items2]).
Proof.
  intros W runQueue st f1 f2 f3 k Hst Hk items st'.
  assert (Hne : items <> []) by discriminate.
  destruct (commit_after_tick _ _ runQueue items st Hst Hne) as (Hs1 & Hf1 & Hw1).
  assert (Est : st' = commit runQueue (tick items st)).
  { subst st'. destruct k as [|k]; [lia|]. cbn [commits].
    apply commits_settled, Hs1. }
  split; [apply tick_fields|].
  rewrite Est. repeat split.
  - exact Hf1.
  - exact Hw1.
  - apply Hs1.
  - intros store Hd. unfold nodeQueueHandler. rewrite Hd. reflexivity.
  - intros items2 Hne2.
    destruct (commit_after_tick _ _ runQueue items2 _ Hs1 Hne2) as (_ & Hf2 & _).
    rewrite Hf2, Hf1, <- app_assoc. reflexivity.
Qed.

(** Three updaters that append a node each, counted flushes, two commits. *)
Lemma batching_collapse_witness :
  settled sampleQueueState /\ (0 < 2)%nat
  /\ flushes (commits (fun _ w => S w) 2 (tick samplePayloads sampleQueueState))
     = [samplePayloads]
  /\ world (commits (fun _ w => S w) 2 (tick samplePayloads sampleQueueState)) = 1%nat
  /\ queue (commits (fun _ w => S w) 2 (tick samplePayloads sampleQueueState)) = [].
Proof.
  assert (Hs : settled sampleQueueState) by (repeat split).
  assert (Hk : (0 < 2)%nat) by lia.
  destruct (batching_collapse nat (fun _ w => S w) sampleQueueState
              sampleUpdater1 sampleUpdater2 sampleUpdater3 2 Hs Hk)
    as (_ & Hf & Hw & Hq & _).
  repeat split; assumption.
Defined.

(** ** JavaScript maps *)

Module JsMapFacts.
Import JsMap.

Lemma get_set_eq V (k : string) (v : V) (m : t V) : get k (set k v m) = Some v.
Proof.
  induction m as [|[k' v'] m IH]; cbn.
  - rewrite String.eqb_refl. reflexivity.
  - destruct (String.eqb k k') eqn:E; cbn; rewrite E; [reflexivity|exact IH].
Qed.

Lemma get_set_ne V (k k' : string) (v : V) (m : t V) :
  k <> k' -> get k (set k' v m) = get k m.
Proof.
  intros Hne. induction m as [|[k2 v2] m IH]; cbn.
  - apply String.eqb_neq in Hne. rewrite Hne. reflexivity.
  - destruct (String.eqb k' k2) eqn:E; cbn.
    + apply String.eqb_eq in E. subst k2.
      apply String.eqb_neq in Hne. rewrite Hne. reflexivity.
    + destruct (String.eqb k k2); [reflexivity|exact IH].
Qed.

Lemma get_set V (k k' : string) (v : V) (m : t V) :
  get k (set k' v m) = if String.eqb k k' then Some v else get k m.
Proof.
  destruct (String.eqb k k') eqn:E.
  - apply String.eqb_eq in E. subst. apply get_set_eq.
  - apply String.eqb_neq in E. apply get_set_ne, E.
Qed.

Lemma get_None_keys V (k : string) (m : t V) : get k m = None <-> ~ In k (keys m).
Proof.
  induction m as [|[k' v'] m IH]; cbn.
  - tauto.
  - destruct (String.eqb k k') eqn:E.
    + apply String.eqb_eq in E. subst. split; [discriminate|]. intros H. exfalso. apply H. now left.
    + apply String.eqb_neq in E. rewrite IH. split.
      * intros H [H1|H1]; [congruence|tauto].
      * intros H H1. apply H. now right.
Qed.

Lemma keys_set V (k : string) (v : V) (m : t V) :
  keys (set k v m) = if has k m then keys m else keys m ++ [k].
Proof.
  unfold has, keys. induction m as [|[k' v'] m IH]; cbn.
  - reflexivity.
  - destruct (String.eqb k k') eqn:E; cbn.
    + reflexivity.
    + rewrite IH. destruct (get k m); reflexivity.
Qed.

Lemma get_ofEntries_acc V (entries : list (string * V)) (m : t V) (k : string) :
  get k (fold_left (fun m kv => set (fst kv) (snd kv) m) entries m) = None
  <-> get k m = None /\ ~ In k (map fst entries).
Proof.
  revert m. induction entries as [|[k' v'] entries IH]; intros m; cbn.
  - tauto.
  - rewrite IH, get_set. cbn. destruct (String.eqb k k') eqn:E.
    + apply String.eqb_eq in E. subst. split; [intros [H _]; discriminate|].
      intros [_ H]. exfalso. apply H. now left.
    + apply String.eqb_neq in E. split.
      * intros [H1 H2]. split; [exact H1|]. intros [H3|H3]; [congruence|tauto].
      * intros [H1 H2]. split; [exact H1|]. intros H3. apply H2. now right.
Qed.

Lemma get_ofEntries_None V (entries : list (string * V)) (k : string) :
  get k (ofEntries entries) = None <-> ~ In k (map fst entries).
Proof.
  unfold ofEntries. rewrite get_ofEntries_acc. cbn. tauto.
Qed.

End JsMapFacts.
Import JsMapFacts.

(** ** Selection changes *)

Lemma getSelectionChanges_app (before after : JsMap.t LookupItem)
  (selectedIds : list string) (mutateItem : bool) :
  getSelectionChanges (before ++ after) selectedIds mutateItem
  = (fst (getSelectionChanges before selectedIds mutateItem)
       ++ fst (getSelectionChanges after selectedIds mutateItem),
     snd (getSelectionChanges before selectedIds mutateItem)
       ++ snd (getSelectionChanges after selectedIds mutateItem)).
Proof.
  induction before as [|[k item] before IH]; cbn [app getSelectionChanges].
  - cbn. destruct (getSelectionChanges after selectedIds mutateItem); reflexivity.
  - rewrite IH.
    destruct (getSelectionChanges before selectedIds mutateItem) as [c1 r1].
    destruct (getSelectionChanges after selectedIds mutateItem) as [c2 r2].
    cbn [fst snd].
    destruct (negb _ && _); reflexivity.
Qed.

(** C4: for a stored item whose key the target selection excludes,
    [getSelectionChanges] emits nothing when the item's [selected] flag is
    undefined, and emits the change [select false] for the item's id when the
    flag is [true]; an item that was never selected gets the flag [true] by
    being selected (in place, or through a [select] change). *)
Theorem selection_change_suppression :
  forall (before after : JsMap.t LookupItem) (k : string) (item : LookupItem)
         (selectedIds : list string) (mutateItem : bool),
    existsb (String.eqb k) selectedIds = false ->
    let changesOf items := fst (getSelectionChanges items selectedIds mutateItem) in
    (itemSelected item = None ->
       changesOf (before ++ (k, item) :: after) = changesOf before ++ changesOf after)
    /\ (itemSelected item = Some true ->
       changesOf (before ++ (k, item) :: after)
       = changesOf before ++ ChSelect (itemId item) false :: changesOf after)
    /\ (itemSelected item = None ->
       itemSelected (setItemSelected true item) = Some true
       /\ forall e, selected (applyChange (ChSelect k true) e) = Some true).
Proof.
  intros before after k item selectedIds mutateItem Hnot changesOf.
  subst changesOf. cbv beta.
  repeat split.
  - intros Hsel. rewrite getSelectionChanges_app. cbn [fst getSelectionChanges].
    rewrite Hnot, Hsel. cbn.
    destruct (getSelectionChanges after selectedIds mutateItem); reflexivity.
  - intros Hsel. rewrite getSelectionChanges_app. cbn [fst getSelectionChanges].
    rewrite Hnot, Hsel. cbn.
    destruct (getSelectionChanges after selectedIds mutateItem); reflexivity.
  - destruct item; reflexivity.
Qed.

(** ** Diffing *)

Lemma diffItems_other (lookup : JsMap.t LookupItem) (k : string) (items : list Node)
  (index : nat) :
  ~ In k (map id items) ->
  filter (aboutId k) (diffItems lookup index items) = [].
Proof.
  revert index. induction items as [|item items IH]; intros index Hnot; cbn [diffItems].
  - reflexivity.
  - cbn in Hnot. assert (Hk : String.eqb (id item) k = false).
    { apply String.eqb_neq. tauto. }
    rewrite !filter_app, IH by tauto.
    destruct (option_map storeItemOf (JsMap.get (id item) lookup)) as [s|]; cbn.
    + destruct (negb (ref s =? ref item)%nat); cbn; [rewrite Hk|]; reflexivity.
    + rewrite Hk. reflexivity.
Qed.

Lemma diffRemoved_other (itemsLookup : JsMap.t Node) (lookup : JsMap.t LookupItem)
  (k : string) :
  JsMap.get k itemsLookup <> None ->
  filter (aboutId k) (diffRemoved itemsLookup lookup) = [].
Proof.
  intros Hin. induction lookup as [|[k' li] lookup IH]; cbn [diffRemoved].
  - reflexivity.
  - destruct (JsMap.get k' itemsLookup) eqn:E; [exact IH|].
    cbn. rewrite IH. destruct (String.eqb k' k) eqn:Ek; [|reflexivity].
    apply String.eqb_eq in Ek. congruence.
Qed.

(** C2: an item of the next array (with unique ids) whose id the lookup holds
    and whose stored counterpart is another object: the diff has exactly one
    change about that id, a [replace] carrying the item.  Only identities are
    compared, never field values. *)
Theorem diff_reference_sensitive :
  forall (items : list Node) (lookup : JsMap.t LookupItem) (item : Node) (li : LookupItem),
    NoDup (map id items) ->
    In item items ->
    JsMap.get (id item) lookup = Some li ->
    ref (storeItemOf li) <> ref item ->
    filter (aboutId (id item)) (getElementsDiffChanges (Some items) lookup)
    = [ChReplace (id item) item].
Proof.
  intros items lookup item li Hnd Hin Hget Href.
  unfold getElementsDiffChanges. cbn [orElse]. rewrite filter_app.
  rewrite diffRemoved_other.
  2:{ rewrite get_ofEntries_None, map_map. cbn. intros H. apply H.
      apply in_map_iff. exists item. split; [reflexivity|exact Hin]. }
  rewrite app_nil_r.
  generalize 0%nat as index.
  induction items as [|a items IH]; intros index; [contradiction|].
  cbn in Hnd. apply NoDup_cons_iff in Hnd. destruct Hnd as [Hna Hnd].
  cbn [diffItems]. rewrite !filter_app.
  destruct Hin as [->|Hin].
  - rewrite Hget. cbn [option_map].
    apply Nat.eqb_neq in Href. rewrite Href. cbn.
    rewrite String.eqb_refl, diffItems_other by exact Hna. reflexivity.
  - assert (Hne : String.eqb (id a) (id item) = false).
    { apply String.eqb_neq. intros E. apply Hna. rewrite E. apply in_map, Hin. }
    rewrite (IH Hnd Hin).
    destruct (option_map storeItemOf (JsMap.get (id a) lookup)) as [s|]; cbn.
    + destruct (negb (ref s =? ref a)%nat); cbn; [rewrite Hne|]; reflexivity.
    + rewrite Hne. reflexivity.
Qed.

(** ** Change application *)

Lemma queueChange_get (k : string) (acc : JsMap.t (list Change) * list Change)
  (c : Change) :
  JsMap.get k (fst (queueChange acc c)) = queuedStep k (JsMap.get k (fst acc)) c.
Proof.
  destruct acc as [m adds]. unfold queuedStep.
  destruct c as [it ix|k'|k' it|k' s|k' p d|k' dm r sa]; cbn [queueChange fst supersedes accumulates].
  - reflexivity.
  - rewrite get_set. destruct (String.eqb k k'); reflexivity.
  - rewrite get_set. destruct (String.eqb k k'); reflexivity.
  - destruct (String.eqb k k') eqn:E.
    + apply String.eqb_eq in E. subst k'.
      destruct (JsMap.get k m); cbn [fst orElse]; rewrite get_set_eq; reflexivity.
    + apply String.eqb_neq in E.
      destruct (JsMap.get k' m); cbn [fst]; rewrite get_set_ne by exact E; reflexivity.
  - destruct (String.eqb k k') eqn:E.
    + apply String.eqb_eq in E. subst k'.
      destruct (JsMap.get k m); cbn [fst orElse]; rewrite get_set_eq; reflexivity.
    + apply String.eqb_neq in E.
      destruct (JsMap.get k' m); cbn [fst]; rewrite get_set_ne by exact E; reflexivity.
  - destruct (String.eqb k k') eqn:E.
    + apply String.eqb_eq in E. subst k'.
      destruct (JsMap.get k m); cbn [fst orElse]; rewrite get_set_eq; reflexivity.
    + apply String.eqb_neq in E.
      destruct (JsMap.get k' m); cbn [fst]; rewrite get_set_ne by exact E; reflexivity.
Qed.

Lemma queueChange_adds (acc : JsMap.t (list Change) * list Change) (c : Change) :
  snd (queueChange acc c) = snd acc ++ filter isAdd [c].
Proof.
  destruct acc as [m adds].
  destruct c as [it ix|k'|k' it|k' s|k' p d|k' dm r sa]; cbn [queueChange snd filter isAdd];
    try (destruct (JsMap.get k' m); cbn [snd]); rewrite ?app_nil_r; reflexivity.
Qed.

Lemma lastSuperseding_snoc (k : string) (changes : list Change) (c : Change) :
  lastSuperseding k (changes ++ [c])
  = if supersedes k c then Some c else lastSuperseding k changes.
Proof.
  induction changes as [|c0 changes IH]; cbn [app lastSuperseding].
  - destruct (supersedes k c); reflexivity.
  - rewrite IH. destruct (supersedes k c); reflexivity.
Qed.

Lemma supersedes_not_accumulates (k : string) (c : Change) :
  supersedes k c = true -> accumulates k c = false.
Proof. destruct c; cbn; congruence. Qed.

(** The queued list starts with the last superseding change, or else is the
    list of the accumulating changes. *)
Lemma queued_characterised (k : string) (changes : list Change) :
  let queued := JsMap.get k (fst (queueChanges changes)) in
  match lastSuperseding k changes with
  | Some c => exists tail, queued = Some (c :: tail)
  | None =>
      queued = match filter (accumulates k) changes with
               | [] => None
               | cs => Some cs
               end
  end.
Proof.
  unfold queueChanges.
  induction changes as [|c changes IH] using rev_ind.
  - cbn. reflexivity.
  - cbv zeta in *. rewrite fold_left_app. cbn [fold_left].
    rewrite queueChange_get, lastSuperseding_snoc, filter_app. unfold queuedStep.
    destruct (supersedes k c) eqn:Es.
    + exists []. reflexivity.
    + destruct (lastSuperseding k changes) as [c'|].
      * destruct IH as [tail IH]. rewrite IH.
        destruct (accumulates k c); cbn [orElse]; eauto.
        exists (tail ++ [c]). reflexivity.
      * rewrite IH. cbn [filter]. destruct (accumulates k c).
        -- destruct (filter (accumulates k) changes); reflexivity.
        -- rewrite app_nil_r. reflexivity.
Qed.

Lemma queueChanges_adds (changes : list Change) :
  snd (queueChanges changes) = filter isAdd changes.
Proof.
  unfold queueChanges.
  induction changes as [|c changes IH] using rev_ind.
  - reflexivity.
  - rewrite fold_left_app. cbn [fold_left].
    rewrite queueChange_adds, IH, filter_app. reflexivity.
Qed.

Lemma lastSuperseding_supersedes (k : string) (changes : list Change) (c : Change) :
  lastSuperseding k changes = Some c -> supersedes k c = true.
Proof.
  induction changes as [|c0 changes IH]; cbn; [discriminate|].
  destruct (lastSuperseding k changes); [intros H; injection H as ->; auto|].
  destruct (supersedes k c0) eqn:E; [intros H; injection H as <-; exact E|discriminate].
Qed.

Lemma updateElement_by_rule (changes : list Change) (element : Node) (n : nat) :
  updateElement (fst (queueChanges changes)) element n = elementByRule changes element n.
Proof.
  unfold updateElement, elementByRule.
  pose proof (queued_characterised (id element) changes) as H. cbv zeta in H.
  destruct (lastSuperseding (id element) changes) as [c|] eqn:El.
  - destruct H as [tail ->].
    apply lastSuperseding_supersedes in El.
    destruct c; cbn in El; try discriminate; reflexivity.
  - rewrite H.
    destruct (filter (accumulates (id element)) changes) as [|c cs] eqn:Ef; [reflexivity|].
    assert (Hc : accumulates (id element) c = true).
    { assert (Hin : In c (filter (accumulates (id element)) changes))
        by (rewrite Ef; now left).
      apply filter_In in Hin. tauto. }
    destruct c; cbn in Hc; try discriminate; reflexivity.
Qed.

Lemma updateElements_by_rule (changes : list Change) (elements : list Node) (n : nat) :
  updateElements (fst (queueChanges changes)) elements n = elementsByRule changes elements n.
Proof.
  revert n. induction elements as [|e elements IH]; intros n; cbn [updateElements elementsByRule].
  - reflexivity.
  - unfold bind. rewrite updateElement_by_rule.
    destruct (elementByRule changes e n) as [out n1]. rewrite IH. reflexivity.
Qed.

(** C3: [applyChanges] computes what the rule of the specification says
    ([applyChangesByRule]): per element, the last [remove] or [replace] change
    for its id decides alone, all other changes for that id, queued before or
    after it, being discarded; without one, the other changes for the id are
    applied in arrival order to one shallow copy; [add] changes come last. *)
Theorem applyChanges_follows_rule :
  forall (changes : list Change) (elements : list Node) (n : nat),
    applyChanges changes elements n = applyChangesByRule changes elements n.
Proof.
  intros changes elements n. unfold applyChanges, applyChangesByRule.
  pose proof (queueChanges_adds changes) as Ha.
  pose proof (updateElements_by_rule changes elements n) as Hu.
  destruct (queueChanges changes) as [m adds]. cbn [fst snd] in *. subst adds.
  unfold bind. rewrite Hu. reflexivity.
Qed.

(** ** Diff, apply, diff again *)

Lemma builtFrom_keys (elements : list Node) (lookup : JsMap.t LookupItem) :
  builtFrom elements lookup -> JsMap.keys lookup = map id elements.
Proof.
  unfold JsMap.keys. induction 1 as [|e [k li] elements lookup [Hk _] _ IH]; cbn.
  - reflexivity.
  - cbn in Hk. congruence.
Qed.

Lemma builtFrom_get (elements : list Node) (lookup : JsMap.t LookupItem) (e : Node) :
  builtFrom elements lookup -> NoDup (map id elements) -> In e elements ->
  exists li, JsMap.get (id e) lookup = Some li /\ ref (storeItemOf li) = ref e.
Proof.
  induction 1 as [|e0 [k li] elements lookup [Hk Hr] Hb IH]; intros Hnd Hin.
  - contradiction.
  - cbn in Hk, Hr, Hnd. apply NoDup_cons_iff in Hnd. destruct Hnd as [Hn0 Hnd].
    cbn [JsMap.get]. destruct Hin as [->|Hin].
    + rewrite Hk, String.eqb_refl. eauto.
    + assert (Hne : String.eqb (id e) k = false).
      { apply String.eqb_neq. intros E. apply Hn0. rewrite <- Hk, <- E. apply in_map, Hin. }
      rewrite Hne. apply IH; auto.
Qed.

Lemma builtFrom_get_inv (elements : list Node) (lookup : JsMap.t LookupItem)
  (k : string) (li : LookupItem) :
  builtFrom elements lookup -> JsMap.get k lookup = Some li ->
  exists e, In e elements /\ id e = k /\ ref (storeItemOf li) = ref e.
Proof.
  induction 1 as [|e0 [k0 li0] elements lookup [Hk Hr] Hb IH]; intros Hget.
  - discriminate.
  - cbn in Hk, Hr. cbn [JsMap.get] in Hget. destruct (String.eqb k k0) eqn:E.
    + apply String.eqb_eq in E. injection Hget as <-. subst.
      exists e0. split; [now left|split; [reflexivity|exact Hr]].
    + destruct (IH Hget) as (e & H1 & H2 & H3). exists e. split; [now right|tauto].
Qed.

Lemma diffItems_unchanged (lookup : JsMap.t LookupItem) (items : list Node) (index : nat) :
  unchangedByReference items lookup -> diffItems lookup index items = [].
Proof.
  unfold unchangedByReference. revert index.
  induction items as [|item items IH]; intros index H; cbn [diffItems]; [reflexivity|].
  destruct (H item (or_introl eq_refl)) as (li & -> & Href).
  cbn [option_map]. rewrite Href, Nat.eqb_refl. cbn.
  apply IH. intros it Hit. apply H. now right.
Qed.

Lemma diffRemoved_none (itemsLookup : JsMap.t Node) (lookup : JsMap.t LookupItem) :
  (forall k, In k (JsMap.keys lookup) -> JsMap.get k itemsLookup <> None) ->
  diffRemoved itemsLookup lookup = [].
Proof.
  induction lookup as [|[k li] lookup IH]; intros H; cbn [diffRemoved]; [reflexivity|].
  destruct (JsMap.get k itemsLookup) eqn:E.
  - apply IH. intros k' Hk'. apply H. now right.
  - exfalso. apply (H k); [now left|exact E].
Qed.

Lemma lastSuperseding_diffRemoved (itemsLookup : JsMap.t Node)
  (lookup : JsMap.t LookupItem) (k : string) :
  lastSuperseding k (diffRemoved itemsLookup lookup)
  = if JsMap.has k lookup && negb (JsMap.has k itemsLookup)
    then Some (ChRemove k) else None.
Proof.
  unfold JsMap.has.
  induction lookup as [|[k' li] lookup IH]; cbn [diffRemoved JsMap.get]; [reflexivity|].
  destruct (String.eqb k k') eqn:E.
  - apply String.eqb_eq in E. subst k'.
    destruct (JsMap.get k itemsLookup) eqn:Ei.
    + rewrite IH, andb_false_r. reflexivity.
    + cbn [lastSuperseding]. rewrite IH. cbn [negb andb supersedes].
      rewrite String.eqb_refl. destruct (JsMap.get k lookup); reflexivity.
  - destruct (JsMap.get k' itemsLookup) eqn:Ei.
    + exact IH.
    + cbn [lastSuperseding]. rewrite IH. cbn [supersedes]. rewrite E.
      destruct (match JsMap.get k lookup with Some _ => true | None => false end
                && negb match JsMap.get k itemsLookup with Some _ => true | None => false end);
        reflexivity.
Qed.

Lemma diffRemoved_kinds (itemsLookup : JsMap.t Node) (lookup : JsMap.t LookupItem)
  (k : string) :
  filter (accumulates k) (diffRemoved itemsLookup lookup) = []
  /\ filter isAdd (diffRemoved itemsLookup lookup) = [].
Proof.
  induction lookup as [|[k' li] lookup IH]; cbn [diffRemoved]; [split; reflexivity|].
  destruct (JsMap.get k' itemsLookup); [exact IH|]. cbn. exact IH.
Qed.

(** Applying a diff that only removes keeps, by reference, the elements
    whose id the next items still have. *)
Lemma elementsByRule_removed (itemsLookup : JsMap.t Node) (lookup : JsMap.t LookupItem)
  (elements : list Node) (n : nat) :
  (forall e, In e elements -> JsMap.has (id e) lookup = true) ->
  elementsByRule (diffRemoved itemsLookup lookup) elements n
  = (filter (fun e => JsMap.has (id e) itemsLookup) elements, n).
Proof.
  revert n. induction elements as [|e elements IH]; intros n H; cbn [elementsByRule filter].
  - reflexivity.
  - unfold bind, elementByRule.
    rewrite lastSuperseding_diffRemoved, (H e (or_introl eq_refl)). cbn [andb].
    destruct (JsMap.has (id e) itemsLookup); cbn [negb].
    + rewrite (proj1 (diffRemoved_kinds itemsLookup lookup (id e))). cbn [ret].
      rewrite IH by (intros e' He'; apply H; now right). reflexivity.
    + cbn [ret]. rewrite IH by (intros e' He'; apply H; now right). reflexivity.
Qed.

(** Dropping elements keeps the ids unique. *)
Lemma NoDup_ids_filter (keep : Node -> bool) (elements : list Node) :
  NoDup (map id elements) -> NoDup (map id (filter keep elements)).
Proof.
  intros Hnd. induction elements as [|e elements IH]; cbn in *; [exact Hnd|].
  apply NoDup_cons_iff in Hnd. destruct Hnd as [Hfresh Hnd].
  destruct (keep e); cbn; [|exact (IH Hnd)].
  apply NoDup_cons; [|exact (IH Hnd)].
  intros Hin. apply Hfresh.
  apply in_map_iff in Hin. destruct Hin as (e' & He' & Hin).
  apply filter_In in Hin. apply in_map_iff. exists e'. tauto.
Qed.

(** C1: [elements] (with unique ids) is the array the lookup was built from
    and every next item is, by reference, the object stored for its id.  The
    changes of [getElementsDiffChanges] applied to [elements] by
    [applyChanges] give an array such that the diff of the same items against
    a lookup built from it is empty. *)
Theorem diff_apply_rediff_empty :
  forall (elements items : list Node) (lookup : JsMap.t LookupItem) (n : nat),
    NoDup (map id elements) ->
    builtFrom elements lookup ->
    unchangedByReference items lookup ->
    let changes := getElementsDiffChanges (Some items) lookup in
    let elements' := fst (applyChanges changes elements n) in
    forall lookup', builtFrom elements' lookup' ->
      getElementsDiffChanges (Some items) lookup' = [].
Proof.
  intros elements items lookup n Hnd Hb Hun changes elements' lookup' Hb'.
  set (itemsLookup := JsMap.ofEntries (map (fun item => (id item, item)) items)).
  assert (Hil : forall item, In item items -> JsMap.has (id item) itemsLookup = true).
  { intros item Hin. unfold JsMap.has.
    destruct (JsMap.get (id item) itemsLookup) eqn:E; [reflexivity|].
    apply get_ofEntries_None in E. exfalso. apply E. rewrite map_map. cbn.
    apply in_map, Hin. }
  assert (Hch : changes = diffRemoved itemsLookup lookup).
  { subst changes. unfold getElementsDiffChanges. cbn [orElse].
    rewrite diffItems_unchanged by exact Hun. reflexivity. }
  assert (He' : elements' = filter (fun e => JsMap.has (id e) itemsLookup) elements).
  { subst elements'. unfold applyChanges.
    pose proof (queueChanges_adds changes) as Ha.
    pose proof (updateElements_by_rule changes elements n) as Hu.
    destruct (queueChanges changes) as [m adds]. cbn [fst snd] in Ha, Hu. subst adds.
    unfold bind. rewrite Hu, Hch.
    rewrite elementsByRule_removed.
    - rewrite (proj2 (diffRemoved_kinds itemsLookup lookup EmptyString)). reflexivity.
    - intros e He. destruct (@builtFrom_get _ _ _ Hb Hnd He) as (li & Hg & _).
      unfold JsMap.has. rewrite Hg. reflexivity. }
  pose proof (NoDup_ids_filter (fun e => JsMap.has (id e) itemsLookup) _ Hnd) as Hnd'.
  rewrite <- He' in Hnd'.
  unfold getElementsDiffChanges. cbn [orElse]. fold itemsLookup.
  rewrite diffItems_unchanged, diffRemoved_none; [reflexivity| |].
  - intros k Hk. rewrite (builtFrom_keys _ _ Hb') in Hk.
    apply in_map_iff in Hk. destruct Hk as (e & <- & He).
    rewrite He' in He. apply filter_In in He. destruct He as [_ He].
    unfold JsMap.has in He. destruct (JsMap.get (id e) itemsLookup); congruence.
  - intros item Hin. destruct (Hun item Hin) as (li & Hg & Href).
    destruct (@builtFrom_get_inv _ _ _ _ Hb Hg) as (e & Hin0 & Hid & Hre).
    assert (Hin' : In e elements').
    { rewrite He'. apply filter_In. split; [exact Hin0|]. rewrite Hid. apply Hil, Hin. }
    destruct (@builtFrom_get _ _ _ Hb' Hnd' Hin') as (li' & Hg' & Hs').
    exists li'. rewrite <- Hid. split; [exact Hg'|]. congruence.
Qed.

Lemma builtFrom_snoc (elements : list Node) (lookup : JsMap.t LookupItem)
  (e : Node) (li : LookupItem) :
  builtFrom elements lookup -> ~ In (id e) (map id elements) ->
  ref (storeItemOf li) = ref e ->
  builtFrom (elements ++ [e]) (JsMap.set (id e) li lookup).
Proof.
  induction 1 as [|e0 [k0 li0] elements lookup [Hk Hr] Hb IH]; intros Hn Href.
  - cbn. constructor; [split; [reflexivity|exact Href]|constructor].
  - cbn in Hk, Hn. cbn [JsMap.set app].
    destruct (String.eqb (id e) k0) eqn:E.
    + apply String.eqb_eq in E. exfalso. apply Hn. left. congruence.
    + constructor; [split; assumption|]. apply IH; [tauto|exact Href].
Qed.

(** The edge lookup is built from the edge array. *)
Lemma buildEdgeLookup_builtFrom (edges : list Node) :
  NoDup (map id edges) -> builtFrom edges (buildEdgeLookup edges).
Proof.
  unfold buildEdgeLookup.
  assert (G : forall (done : list Node) (m : JsMap.t LookupItem),
             builtFrom done m -> NoDup (map id (done ++ edges)) ->
             builtFrom (done ++ edges)
               (fold_left (fun m e => JsMap.set (id e) (Plain e) m) edges m)).
  { induction edges as [|e edges IH]; intros done m Hb Hnd; cbn [fold_left].
    - rewrite app_nil_r. exact Hb.
    - replace (done ++ e :: edges) with ((done ++ [e]) ++ edges) in *
        by (rewrite <- app_assoc; reflexivity).
      apply IH; [|exact Hnd].
      apply builtFrom_snoc; [exact Hb| |reflexivity].
      rewrite map_app in Hnd. apply NoDup_app_remove_r in Hnd.
      rewrite map_app in Hnd. cbn in Hnd.
      apply NoDup_remove_2 in Hnd. rewrite app_nil_r in Hnd. exact Hnd. }
  intros Hnd. apply (G [] []); [constructor|exact Hnd].
Qed.

(** ** Node adoption *)

Lemma updateChildNode_nodeLookup (node : InternalNode) (st : AdoptState)
  (options : option UpdateNodesOptions) :
  nodeLookup (updateChildNode node st options)
  = match parentOf node (nodeLookup st) with
    | None => nodeLookup st
    | Some parentNode =>
        if placementChanged node parentNode options
        then JsMap.set (id (base node))
               (replacedChild (nextRef st) node parentNode options) (nodeLookup st)
        else nodeLookup st
    end.
Proof.
  unfold updateChildNode, parentOf.
  destruct (match parentId (base node) with
            | Some pid => JsMap.get pid (nodeLookup st)
            | None => None
            end) as [parentNode|]; [|reflexivity].
  unfold placementChanged, replacedChild, positionChanged, childPlacement.
  destruct (calculateChildXYZ node parentNode _ _ _) as [xy newZ]. cbn [fst snd].
  destruct (negb (eqb (x xy) (x (positionAbsolute (internals node))))
            || negb (eqb (y xy) (y (positionAbsolute (internals node))))); cbn [orb].
  - reflexivity.
  - destruct (negb (eqb newZ (z (internals node)))); reflexivity.
Qed.

Lemma updateChildNode_nextRef (node : InternalNode) (st : AdoptState)
  (options : option UpdateNodesOptions) :
  (nextRef st <= nextRef (updateChildNode node st options))%nat.
Proof.
  unfold updateChildNode.
  destruct (match parentId (base node) with
            | Some pid => JsMap.get pid (nodeLookup st)
            | None => None
            end) as [parentNode|]; [|lia].
  destruct (calculateChildXYZ node parentNode _ _ _) as [xy newZ].
  destruct (_ || _); cbn; lia.
Qed.

Section Adoption.

Variables (merged : MergedOptions) (options : option UpdateNodesOptions)
          (tmpLookup : NodeLookup) (selectedNodeZ : num).
Hypothesis tmp_wf : lookup_wf tmpLookup.

Lemma adoptOrReuse_id (st : AdoptState) (uNode : Node) :
  id (base (fst (adoptOrReuse merged tmpLookup selectedNodeZ st uNode))) = id uNode.
Proof.
  unfold adoptOrReuse.
  destruct (truthyBool (checkEquality merged)); [|reflexivity].
  destruct (JsMap.get (id uNode) tmpLookup) as [i|] eqn:E; [|reflexivity].
  destruct (ref uNode =? ref (userNode (internals i)))%nat; [|reflexivity].
  cbn. apply tmp_wf, E.
Qed.

Lemma adoptOrReuse_userNode (st : AdoptState) (uNode : Node) :
  ref (userNode (internals (fst (adoptOrReuse merged tmpLookup selectedNodeZ st uNode))))
  = ref uNode.
Proof.
  unfold adoptOrReuse.
  destruct (truthyBool (checkEquality merged)); [|reflexivity].
  destruct (JsMap.get (id uNode) tmpLookup) as [i|] eqn:E; [|reflexivity].
  destruct (ref uNode =? ref (userNode (internals i)))%nat eqn:Er; [|reflexivity].
  cbn. apply Nat.eqb_eq in Er. congruence.
Qed.

Lemma adoptOrReuse_nodeLookup (st : AdoptState) (uNode : Node) :
  nodeLookup (snd (adoptOrReuse merged tmpLookup selectedNodeZ st uNode))
  = JsMap.set (id uNode) (fst (adoptOrReuse merged tmpLookup selectedNodeZ st uNode))
      (nodeLookup st).
Proof.
  unfold adoptOrReuse.
  destruct (truthyBool (checkEquality merged)); [|reflexivity].
  destruct (JsMap.get (id uNode) tmpLookup) as [i|]; [|reflexivity].
  destruct (ref uNode =? ref (userNode (internals i)))%nat; reflexivity.
Qed.


(** What the loop body leaves in the lookup. *)
Lemma adoptUserNode_nodeLookup (st : AdoptState) (uNode : Node) :
  let internalNode := fst (adoptOrReuse merged tmpLookup selectedNodeZ st uNode) in
  let st1 := snd (adoptOrReuse merged tmpLookup selectedNodeZ st uNode) in
  let entered := JsMap.set (id uNode) internalNode (nodeLookup st) in
  nodeLookup (adoptUserNode merged options tmpLookup selectedNodeZ st uNode)
  = match (if truthyStr (parentId uNode) then parentOf internalNode entered else None) with
    | None => entered
    | Some parentNode =>
        if placementChanged internalNode parentNode options
        then JsMap.set (id uNode)
               (replacedChild (nextRef st1) internalNode parentNode options) entered
        else entered
    end.
Proof.
  cbv zeta. unfold adoptUserNode.
  pose proof (adoptOrReuse_nodeLookup st uNode) as Hl.
  pose proof (adoptOrReuse_id st uNode) as Hi.
  destruct (adoptOrReuse merged tmpLookup selectedNodeZ st uNode) as [internalNode st1].
  cbn [fst snd] in *.
  destruct (truthyStr (parentId uNode)); [|exact Hl].
  rewrite updateChildNode_nodeLookup, Hl, Hi. reflexivity.
Qed.

Lemma adoptUserNode_get_other (st : AdoptState) (uNode : Node) (k : string) :
  k <> id uNode ->
  JsMap.get k (nodeLookup (adoptUserNode merged options tmpLookup selectedNodeZ st uNode))
  = JsMap.get k (nodeLookup st).
Proof.
  intros Hne. rewrite adoptUserNode_nodeLookup.
  destruct (if truthyStr (parentId uNode) then _ else None) as [parentNode|].
  - destruct (placementChanged _ parentNode options);
      rewrite ?get_set_ne by exact Hne; reflexivity.
  - rewrite get_set_ne by exact Hne. reflexivity.
Qed.

Lemma adoptUserNode_keys (st : AdoptState) (uNode : Node) :
  JsMap.keys (nodeLookup (adoptUserNode merged options tmpLookup selectedNodeZ st uNode))
  = if JsMap.has (id uNode) (nodeLookup st)
    then JsMap.keys (nodeLookup st)
    else JsMap.keys (nodeLookup st) ++ [id uNode].
Proof.
  rewrite adoptUserNode_nodeLookup.
  assert (Hh : forall v, JsMap.has (id uNode) (JsMap.set (id uNode) v (nodeLookup st)) = true).
  { intros v. unfold JsMap.has. rewrite get_set_eq. reflexivity. }
  destruct (if truthyStr (parentId uNode) then _ else None) as [parentNode|].
  - destruct (placementChanged _ parentNode options); rewrite !keys_set, ?Hh; reflexivity.
  - apply keys_set.
Qed.

Lemma adoptAll_get_other (nodes : list Node) (st : AdoptState) (k : string) :
  ~ In k (map id nodes) ->
  JsMap.get k (nodeLookup (adoptAll merged options tmpLookup selectedNodeZ st nodes))
  = JsMap.get k (nodeLookup st).
Proof.
  unfold adoptAll. revert st. induction nodes as [|u nodes IH]; intros st Hn; cbn [fold_left].
  - reflexivity.
  - cbn in Hn. rewrite IH by tauto. apply adoptUserNode_get_other. intros E. apply Hn. now left.
Qed.

Lemma adoptAll_app (pre post : list Node) (st : AdoptState) :
  adoptAll merged options tmpLookup selectedNodeZ st (pre ++ post)
  = adoptAll merged options tmpLookup selectedNodeZ
      (adoptAll merged options tmpLookup selectedNodeZ st pre) post.
Proof. unfold adoptAll. apply fold_left_app. Qed.

End Adoption.

Lemma getNodeDimensions_with_ref (r : nat) (n : Node) :
  getNodeDimensions (with_ref r n) = getNodeDimensions n.
Proof. reflexivity. Qed.

Lemma adoptUserNodes_adoptAll (nodes : list Node) (nodeLookup0 : NodeLookup)
  (parentLookup0 : ParentLookup) (options : option UpdateNodesOptions) (next : nat) :
  adoptUserNodes nodes nodeLookup0 parentLookup0 options next
  = adoptAll (mergeObjects adoptUserNodesDefaultOptions options) options nodeLookup0
      (if elevateNodesOnSelect (mergeObjects adoptUserNodesDefaultOptions options)
       then Fin 1000 else zero)
      (adoptStart next) nodes.
Proof. reflexivity. Qed.

Lemma NoDup_middle_not_in (pre post : list Node) (u : Node) :
  NoDup (map id (pre ++ u :: post)) ->
  ~ In (id u) (map id pre) /\ ~ In (id u) (map id post).
Proof.
  rewrite map_app. cbn [map]. intros H. pose proof (NoDup_remove_2 _ _ _ H) as H2.
  rewrite in_app_iff in H2. tauto.
Qed.

Lemma NoDup_before_not_after (pre post : list Node) (u v : Node) :
  NoDup (map id (pre ++ u :: post)) -> In v pre ->
  id v <> id u /\ ~ In (id v) (map id post).
Proof.
  intros H Hin. induction pre as [|a pre IH]; [contradiction|].
  cbn in H. apply NoDup_cons_iff in H. destruct H as [Hna H].
  destruct Hin as [->|Hin]; [|exact (IH H Hin)].
  rewrite map_app, in_app_iff in Hna. cbn in Hna. split.
  - intros E. apply Hna. right. left. congruence.
  - intros Hp. apply Hna. right. right. exact Hp.
Qed.





(** ** Node adoption in double arithmetic *)

Lemma double_updateChildNode_nodeLookup (node : InternalNode) (st : AdoptState)
  (options : option UpdateNodesOptions) :
  nodeLookup (F64.updateChildNode node st options)
  = match parentOf node (nodeLookup st) with
    | None => nodeLookup st
    | Some parentNode =>
        if F64.placementChanged node parentNode options
        then JsMap.set (id (base node))
               (F64.replacedChild (nextRef st) node parentNode options) (nodeLookup st)
        else nodeLookup st
    end.
Proof.
  unfold F64.updateChildNode, parentOf.
  destruct (match parentId (base node) with
            | Some pid => JsMap.get pid (nodeLookup st)
            | None => None
            end) as [parentNode|]; [|reflexivity].
  unfold F64.placementChanged, F64.replacedChild, F64.positionChanged, F64.childPlacement.
  destruct (F64.calculateChildXYZ node parentNode _ _ _) as [xy newZ]. cbn [fst snd].
  destruct (negb (eqb (x xy) (x (positionAbsolute (internals node))))
            || negb (eqb (y xy) (y (positionAbsolute (internals node))))); cbn [orb].
  - reflexivity.
  - destruct (negb (eqb newZ (z (internals node)))); reflexivity.
Qed.

Section DoubleAdoption.

Variables (merged : MergedOptions) (options : option UpdateNodesOptions)
          (tmpLookup : NodeLookup) (selectedNodeZ : num).
Hypothesis tmp_wf : lookup_wf tmpLookup.

Lemma double_adoptOrReuse_id (st : AdoptState) (uNode : Node) :
  id (base (fst (F64.adoptOrReuse merged tmpLookup selectedNodeZ st uNode))) = id uNode.
Proof.
  unfold F64.adoptOrReuse.
  destruct (truthyBool (checkEquality merged)); [|reflexivity].
  destruct (JsMap.get (id uNode) tmpLookup) as [i|] eqn:E; [|reflexivity].
  destruct (ref uNode =? ref (userNode (internals i)))%nat; [|reflexivity].
  cbn. apply tmp_wf, E.
Qed.

Lemma double_adoptOrReuse_nodeLookup (st : AdoptState) (uNode : Node) :
  nodeLookup (snd (F64.adoptOrReuse merged tmpLookup selectedNodeZ st uNode))
  = JsMap.set (id uNode) (fst (F64.adoptOrReuse merged tmpLookup selectedNodeZ st uNode))
      (nodeLookup st).
Proof.
  unfold F64.adoptOrReuse.
  destruct (truthyBool (checkEquality merged)); [|reflexivity].
  destruct (JsMap.get (id uNode) tmpLookup) as [i|]; [|reflexivity].
  destruct (ref uNode =? ref (userNode (internals i)))%nat; reflexivity.
Qed.

(** What the loop body leaves in the lookup. *)
Lemma double_adoptUserNode_nodeLookup (st : AdoptState) (uNode : Node) :
  let internalNode := fst (F64.adoptOrReuse merged tmpLookup selectedNodeZ st uNode) in
  let st1 := snd (F64.adoptOrReuse merged tmpLookup selectedNodeZ st uNode) in
  let entered := JsMap.set (id uNode) internalNode (nodeLookup st) in
  nodeLookup (F64.adoptUserNode merged options tmpLookup selectedNodeZ st uNode)
  = match (if truthyStr (parentId uNode) then parentOf internalNode entered else None) with
    | None => entered
    | Some parentNode =>
        if F64.placementChanged internalNode parentNode options
        then JsMap.set (id uNode)
               (F64.replacedChild (nextRef st1) internalNode parentNode options) entered
        else entered
    end.
Proof.
  cbv zeta. unfold F64.adoptUserNode.
  pose proof (double_adoptOrReuse_nodeLookup st uNode) as Hl.
  pose proof (double_adoptOrReuse_id st uNode) as Hi.
  destruct (F64.adoptOrReuse merged tmpLookup selectedNodeZ st uNode) as [internalNode st1].
  cbn [fst snd] in *.
  destruct (truthyStr (parentId uNode)); [|exact Hl].
  rewrite double_updateChildNode_nodeLookup, Hl, Hi. reflexivity.
Qed.

Lemma double_adoptUserNode_get_other (st : AdoptState) (uNode : Node) (k : string) :
  k <> id uNode ->
  JsMap.get k (nodeLookup (F64.adoptUserNode merged options tmpLookup selectedNodeZ st uNode))
  = JsMap.get k (nodeLookup st).
Proof.
  intros Hne. rewrite double_adoptUserNode_nodeLookup.
  destruct (if truthyStr (parentId uNode) then _ else None) as [parentNode|].
  - destruct (F64.placementChanged _ parentNode options);
      rewrite ?get_set_ne by exact Hne; reflexivity.
  - rewrite get_set_ne by exact Hne. reflexivity.
Qed.

Lemma double_adoptAll_get_other (nodes : list Node) (st : AdoptState) (k : string) :
  ~ In k (map id nodes) ->
  JsMap.get k (nodeLookup (F64.adoptAll merged options tmpLookup selectedNodeZ st nodes))
  = JsMap.get k (nodeLookup st).
Proof.
  unfold F64.adoptAll. revert st.
  induction nodes as [|u nodes IH]; intros st Hn; cbn [fold_left].
  - reflexivity.
  - cbn in Hn. rewrite IH by tauto. apply double_adoptUserNode_get_other.
    intros E. apply Hn. now left.
Qed.

Lemma double_adoptAll_app (pre post : list Node) (st : AdoptState) :
  F64.adoptAll merged options tmpLookup selectedNodeZ st (pre ++ post)
  = F64.adoptAll merged options tmpLookup selectedNodeZ
      (F64.adoptAll merged options tmpLookup selectedNodeZ st pre) post.
Proof. unfold F64.adoptAll. apply fold_left_app. Qed.

End DoubleAdoption.

Lemma double_adoptUserNodes_adoptAll (nodes : list Node) (nodeLookup0 : NodeLookup)
  (parentLookup0 : ParentLookup) (options : option UpdateNodesOptions) (next : nat) :
  F64.adoptUserNodes nodes nodeLookup0 parentLookup0 options next
  = F64.adoptAll (mergeObjects adoptUserNodesDefaultOptions options) options nodeLookup0
      (if elevateNodesOnSelect (mergeObjects adoptUserNodesDefaultOptions options)
       then Fin 1000 else zero)
      (adoptStart next) nodes.
Proof. reflexivity. Qed.

Lemma num_eq_reflexive (a : num) : num_eq a a.
Proof. destruct a; cbn; try exact I. reflexivity. Qed.

Lemma eqb_num_eq (a b : num) : eqb a b = true -> num_eq a b.
Proof.
  destruct a, b; cbn; try discriminate; intros H; try exact I.
  now apply Qeq_bool_iff.
Qed.

Lemma num_le_eq_both (a b a' b' : num) :
  num_le a b -> num_eq a a' -> num_eq b b' -> num_le a' b'.
Proof.
  destruct a, b, a', b'; cbn; try tauto. intros H E1 E2. rewrite <- E1, <- E2. exact H.
Qed.

(** The placement of a child with [extent: 'parent']: never beyond the bound
    that the code computes from the parent, and not before the parent's
    corner when the bound is not. *)
Lemma double_childPlacement_bounded (node p : InternalNode)
  (options : option UpdateNodesOptions) :
  extent (base node) = Some ExtentParent ->
  finitePosition (positionAbsolute (internals p)) ->
  finiteDimensions (getNodeDimensions (base p)) ->
  finiteDimensions (getNodeDimensions (base node)) ->
  finitePosition (position (base node)) ->
  finiteOrigin (orElse (origin (base node)) (nodeOrigin (mergeObjects defaultOptions options))) ->
  definedExtent (nodeExtent (mergeObjects defaultOptions options)) ->
  let q := fst (F64.childPlacement node p options) in
  let bound := F64.parentBound p (getNodeDimensions (base node)) in
  let corner := positionAbsolute (internals p) in
  num_le (x q) (x bound) /\ num_le (y q) (y bound)
  /\ (num_le (x corner) (x bound) -> num_le (x corner) (x q))
  /\ (num_le (y corner) (y bound) -> num_le (y corner) (y q)).
Proof.
  intros Hext [Hpx Hpy] [Hpw Hph] [Hcw Hch] [Hfx Hfy] [Hox Hoy] (He1 & He2 & He3 & He4).
  unfold F64.childPlacement, F64.calculateChildXYZ. cbn [fst].
  rewrite Hext. cbn [isCoordinateExtent].
  unfold F64.clampPositionToParent, F64.parentBound.
  unfold F64.clampPosition at 1.
  cbn [orElse x y width height asPartial pwidth pheight fst snd].
  set (merged := mergeObjects defaultOptions options) in *.
  set (inner := F64.clampPosition _ (nodeExtent merged) _).
  assert (Nx : is_nan (x inner) = false).
  { subst inner. unfold F64.clampPosition, F64.getNodePositionWithOrigin.
    cbn [orElse x y width height asPartial pwidth pheight fst snd].
    apply clamp_defined; [|exact He1|].
    - apply add_defined_l; [exact Hpx|]. apply sub_defined_l; [exact Hfx|].
      apply mul_defined; assumption.
    - apply sub_defined_r; assumption. }
  assert (Ny : is_nan (y inner) = false).
  { subst inner. unfold F64.clampPosition, F64.getNodePositionWithOrigin.
    cbn [orElse x y width height asPartial pwidth pheight fst snd].
    apply clamp_defined; [|exact He2|].
    - apply add_defined_l; [exact Hpy|]. apply sub_defined_l; [exact Hfy|].
      apply mul_defined; assumption.
    - apply sub_defined_r; assumption. }
  assert (Bx : is_nan (F64.sub (F64.add (x (positionAbsolute (internals p)))
                                  (width (getNodeDimensions (base p))))
                         (width (getNodeDimensions (base node)))) = false).
  { apply sub_defined_r; [|exact Hcw]. apply add_defined_l; [exact Hpx|].
    now apply finite_not_nan. }
  assert (By : is_nan (F64.sub (F64.add (y (positionAbsolute (internals p)))
                                  (height (getNodeDimensions (base p))))
                         (height (getNodeDimensions (base node)))) = false).
  { apply sub_defined_r; [|exact Hch]. apply add_defined_l; [exact Hpy|].
    now apply finite_not_nan. }
  split; [apply clamp_below_upper; auto using finite_not_nan|].
  split; [apply clamp_below_upper; auto using finite_not_nan|].
  split; intros H; apply clamp_above_lower; assumption.
Qed.

(** C6, as the code has it in double arithmetic: a child placed by the
    adoption under a parent that precedes it in the array (ids unique), whose
    entry has [extent: 'parent'] and names the parent, all numbers involved
    being finite (the default extent may have infinite bounds).  After
    adoption the child's absolute position is, on each axis, at most the bound
    [parentPosition + parentSize - childSize] as the code computes it, and at
    least the parent's position when that bound is.  The child's far edge
    [position + size] is then within the parent up to the rounding of these
    sums and differences. *)
Theorem parent_clamp_within_bound :
  forall (pre mid post : list Node) (parent child : Node) (nodeLookup0 : NodeLookup)
         (parentLookup0 : ParentLookup) (options : option UpdateNodesOptions)
         (next : nat) (p c : InternalNode),
    lookup_wf nodeLookup0 ->
    NoDup (map id (pre ++ parent :: mid ++ child :: post)) ->
    truthyStr (parentId child) = true ->
    let final :=
      F64.adoptUserNodes (pre ++ parent :: mid ++ child :: post) nodeLookup0 parentLookup0
        options next in
    JsMap.get (id parent) (nodeLookup final) = Some p ->
    JsMap.get (id child) (nodeLookup final) = Some c ->
    parentId (base c) = Some (id parent) ->
    extent (base c) = Some ExtentParent ->
    finitePosition (positionAbsolute (internals p)) ->
    finiteDimensions (getNodeDimensions (base p)) ->
    finiteDimensions (getNodeDimensions (base c)) ->
    finitePosition (position (base c)) ->
    finiteOrigin (orElse (origin (base c)) (nodeOrigin (mergeObjects defaultOptions options))) ->
    definedExtent (nodeExtent (mergeObjects defaultOptions options)) ->
    let corner := positionAbsolute (internals p) in
    let bound := F64.parentBound p (getNodeDimensions (base c)) in
    let placed := positionAbsolute (internals c) in
    num_le (x placed) (x bound) /\ num_le (y placed) (y bound)
    /\ (num_le (x corner) (x bound) -> num_le (x corner) (x placed))
    /\ (num_le (y corner) (y bound) -> num_le (y corner) (y placed)).
Proof.
  intros pre mid post parent child nodeLookup0 parentLookup0 options next p c
         Hwf Hnd Htruthy final Hp Hc Hpid Hext Hpa Hpd Hcd Hcp Hco Hde corner bound placed.
  subst final. rewrite double_adoptUserNodes_adoptAll in Hp, Hc.
  set (merged := mergeObjects adoptUserNodesDefaultOptions options) in *.
  set (sz := if elevateNodesOnSelect merged then Fin 1000 else zero) in *.
  replace (pre ++ parent :: mid ++ child :: post)
    with ((pre ++ parent :: mid) ++ child :: post) in *
    by (rewrite <- app_assoc; reflexivity).
  destruct (NoDup_middle_not_in _ _ _ Hnd) as [_ Hpost].
  assert (Hparent : In parent (pre ++ parent :: mid)) by (apply in_elt).
  destruct (NoDup_before_not_after _ _ _ _ Hnd Hparent) as [Hne Hppost].
  rewrite double_adoptAll_app in Hp, Hc.
  set (before := F64.adoptAll merged options nodeLookup0 sz (adoptStart next)
                   (pre ++ parent :: mid)) in *.
  change (F64.adoptAll merged options nodeLookup0 sz before (child :: post))
    with (F64.adoptAll merged options nodeLookup0 sz
            (F64.adoptUserNode merged options nodeLookup0 sz before child) post) in Hp, Hc.
  rewrite (double_adoptAll_get_other merged options nodeLookup0 sz Hwf post _ _ Hpost) in Hc.
  rewrite (double_adoptAll_get_other merged options nodeLookup0 sz Hwf post _ _ Hppost) in Hp.
  rewrite (double_adoptUserNode_get_other merged options nodeLookup0 sz Hwf before child _ Hne)
    in Hp.
  rewrite (double_adoptUserNode_nodeLookup merged options nodeLookup0 sz Hwf) in Hc.
  rewrite Htruthy in Hc.
  set (internalNode := fst (F64.adoptOrReuse merged nodeLookup0 sz before child)) in *.
  set (st1 := snd (F64.adoptOrReuse merged nodeLookup0 sz before child)) in *.
  (* the entry has the fields of the adopted node *)
  assert (Hfields : with_ref 0 (base c) = with_ref 0 (base internalNode)
                    /\ exists parentNode,
                         parentOf internalNode
                           (JsMap.set (id child) internalNode (nodeLookup before))
                         = Some parentNode
                         /\ (positionAbsolute (internals c)
                             = fst (F64.childPlacement internalNode parentNode options)
                             \/ (F64.positionChanged internalNode parentNode options = false
                                 /\ positionAbsolute (internals c)
                                    = positionAbsolute (internals internalNode)))).
  { destruct (parentOf internalNode _) as [parentNode|] eqn:Epar.
    - destruct (F64.placementChanged internalNode parentNode options) eqn:Echg;
        rewrite ?get_set_eq in Hc; injection Hc as <-.
      + split; [reflexivity|]. exists parentNode. split; [reflexivity|].
        unfold F64.replacedChild, withPlacement. cbn [internals positionAbsolute].
        destruct (F64.positionChanged internalNode parentNode options); auto.
      + split; [reflexivity|]. exists parentNode. split; [reflexivity|]. right.
        unfold F64.placementChanged in Echg. apply orb_false_iff in Echg. tauto.
    - exfalso. rewrite get_set_eq in Hc. injection Hc as <-.
      unfold parentOf in Epar. rewrite Hpid in Epar.
      rewrite get_set_ne in Epar by exact Hne. congruence. }
  destruct Hfields as (Hf & parentNode & Epar & Hplace).
  assert (Fpid : parentId (base internalNode) = parentId (base c))
    by (change (parentId (with_ref 0 (base internalNode)) = parentId (with_ref 0 (base c)));
        rewrite Hf; reflexivity).
  assert (Fext : extent (base internalNode) = extent (base c))
    by (change (extent (with_ref 0 (base internalNode)) = extent (with_ref 0 (base c)));
        rewrite Hf; reflexivity).
  assert (Fpos : position (base internalNode) = position (base c))
    by (change (position (with_ref 0 (base internalNode)) = position (with_ref 0 (base c)));
        rewrite Hf; reflexivity).
  assert (For : origin (base internalNode) = origin (base c))
    by (change (origin (with_ref 0 (base internalNode)) = origin (with_ref 0 (base c)));
        rewrite Hf; reflexivity).
  assert (Fdim : getNodeDimensions (base internalNode) = getNodeDimensions (base c))
    by (rewrite <- (getNodeDimensions_with_ref 0 (base internalNode)),
                <- (getNodeDimensions_with_ref 0 (base c)), Hf; reflexivity).
  unfold parentOf in Epar. rewrite Fpid, Hpid, get_set_ne in Epar by exact Hne.
  assert (parentNode = p) by congruence. subst parentNode. clear Epar.
  rewrite <- Fpos in Hcp. rewrite <- For in Hco. rewrite <- Fext in Hext.
  rewrite <- Fdim in Hcd.
  pose proof (double_childPlacement_bounded internalNode p options
                Hext Hpa Hpd Hcd Hcp Hco Hde) as Hq.
  cbv zeta in Hq. rewrite Fdim in Hq. fold bound corner in Hq.
  destruct Hq as (Qx & Qy & Lx & Ly).
  (* the stored position is the computed one, up to the value of the numbers *)
  assert (Hstored : num_eq (x (fst (F64.childPlacement internalNode p options))) (x placed)
                    /\ num_eq (y (fst (F64.childPlacement internalNode p options)))
                         (y placed)).
  { subst placed. destruct Hplace as [E|[Hunch E]].
    - rewrite E. split; apply num_eq_reflexive.
    - rewrite E. unfold F64.positionChanged in Hunch.
      apply orb_false_iff in Hunch. destruct Hunch as [Ux Uy].
      apply negb_false_iff in Ux, Uy. split; now apply eqb_num_eq. }
  destruct Hstored as [Sx Sy].
  assert (Rbx : num_eq (x bound) (x bound)) by apply num_eq_reflexive.
  assert (Rby : num_eq (y bound) (y bound)) by apply num_eq_reflexive.
  assert (Rcx : num_eq (x corner) (x corner)) by apply num_eq_reflexive.
  assert (Rcy : num_eq (y corner) (y corner)) by apply num_eq_reflexive.
  split; [exact (num_le_eq_both _ _ _ _ Qx Sx Rbx)|].
  split; [exact (num_le_eq_both _ _ _ _ Qy Sy Rby)|].
  split; intros H.
  - exact (num_le_eq_both _ _ _ _ (Lx H) Rcx Sx).
  - exact (num_le_eq_both _ _ _ _ (Ly H) Rcy Sy).
Qed.

(** ** The node lookup is built from the node array *)

Lemma set_set (V : Type) (k : string) (v v' : V) (m : JsMap.t V) :
  JsMap.set k v (JsMap.set k v' m) = JsMap.set k v m.
Proof.
  induction m as [|[k0 v0] m IH]; cbn.
  - rewrite String.eqb_refl. reflexivity.
  - destruct (String.eqb k k0) eqn:E; cbn; rewrite E; [reflexivity|].
    rewrite IH. reflexivity.
Qed.

Lemma asItems_set (k : string) (i : InternalNode) (l : NodeLookup) :
  asItems (JsMap.set k i l) = JsMap.set k (Internal i) (asItems l).
Proof.
  unfold asItems. induction l as [|[k0 i0] l IH]; cbn; [reflexivity|].
  destruct (String.eqb k k0); cbn; [reflexivity|]. rewrite IH. reflexivity.
Qed.

Lemma adoptUserNode_builtFrom (merged : MergedOptions)
  (options : option UpdateNodesOptions) (tmpLookup : NodeLookup) (selectedNodeZ : num)
  (done : list Node) (st : AdoptState) (u : Node) :
  lookup_wf tmpLookup ->
  builtFrom done (asItems (nodeLookup st)) ->
  ~ In (id u) (map id done) ->
  builtFrom (done ++ [u])
    (asItems (nodeLookup (adoptUserNode merged options tmpLookup selectedNodeZ st u))).
Proof.
  intros Hwf Hb Hnew.
  rewrite (adoptUserNode_nodeLookup merged options tmpLookup selectedNodeZ Hwf).
  pose proof (adoptOrReuse_userNode merged tmpLookup selectedNodeZ st u) as Hu.
  set (internalNode := fst (adoptOrReuse merged tmpLookup selectedNodeZ st u)) in *.
  destruct (if truthyStr (parentId u) then _ else None) as [parentNode|].
  - destruct (placementChanged internalNode parentNode options).
    + rewrite set_set, asItems_set. apply builtFrom_snoc; assumption.
    + rewrite asItems_set. apply builtFrom_snoc; assumption.
  - rewrite asItems_set. apply builtFrom_snoc; assumption.
Qed.

Lemma adoptUserNodes_builtFrom (nodes : list Node) (nodeLookup0 : NodeLookup)
  (parentLookup0 : ParentLookup) (options : option UpdateNodesOptions) (next : nat) :
  lookup_wf nodeLookup0 ->
  NoDup (map id nodes) ->
  builtFrom nodes
    (asItems (nodeLookup (adoptUserNodes nodes nodeLookup0 parentLookup0 options next))).
Proof.
  intros Hwf Hnd. rewrite adoptUserNodes_adoptAll.
  set (merged := mergeObjects adoptUserNodesDefaultOptions options).
  set (sz := if elevateNodesOnSelect merged then Fin 1000 else zero).
  assert (G : forall (todo done : list Node) (st : AdoptState),
             builtFrom done (asItems (nodeLookup st)) ->
             NoDup (map id (done ++ todo)) ->
             builtFrom (done ++ todo)
               (asItems (nodeLookup (adoptAll merged options nodeLookup0 sz st todo)))).
  { induction todo as [|u todo IH]; intros done st Hb Hn.
    - rewrite app_nil_r. exact Hb.
    - replace (done ++ u :: todo) with ((done ++ [u]) ++ todo) in *
        by (rewrite <- app_assoc; reflexivity).
      apply IH; [|exact Hn].
      apply adoptUserNode_builtFrom; [exact Hwf|exact Hb|].
      rewrite map_app in Hn. apply NoDup_app_remove_r in Hn.
      rewrite map_app in Hn. cbn in Hn.
      apply NoDup_remove_2 in Hn. rewrite app_nil_r in Hn. exact Hn. }
  apply (G nodes [] (adoptStart next)); [constructor|exact Hnd].
Qed.

Lemma lookup_wf_empty : lookup_wf [].
Proof. intros k i H. discriminate H. Qed.

(** The entries of an adopted lookup are stored under their ids. *)
Lemma adoptUserNodes_wf (nodes : list Node) (nodeLookup0 : NodeLookup)
  (parentLookup0 : ParentLookup) (options : option UpdateNodesOptions) (next : nat) :
  lookup_wf nodeLookup0 ->
  lookup_wf (nodeLookup (adoptUserNodes nodes nodeLookup0 parentLookup0 options next)).
Proof.
  intros Hwf. rewrite adoptUserNodes_adoptAll.
  set (merged := mergeObjects adoptUserNodesDefaultOptions options).
  set (sz := if elevateNodesOnSelect merged then Fin 1000 else zero).
  assert (G : forall (todo : list Node) (st : AdoptState),
             lookup_wf (nodeLookup st) ->
             lookup_wf (nodeLookup (adoptAll merged options nodeLookup0 sz st todo))).
  { induction todo as [|u todo IH]; intros st Hst; [exact Hst|].
    apply IH. intros k i.
    rewrite (adoptUserNode_nodeLookup merged options nodeLookup0 sz Hwf).
    pose proof (adoptOrReuse_id merged nodeLookup0 sz Hwf st u) as Hid.
    set (internalNode := fst (adoptOrReuse merged nodeLookup0 sz st u)) in *.
    assert (Hset : forall v, id (base v) = id u ->
               JsMap.get k (JsMap.set (id u) v (nodeLookup st)) = Some i ->
               id (base i) = k).
    { intros v Hv. rewrite get_set. destruct (String.eqb k (id u)) eqn:E.
      - apply String.eqb_eq in E. intros H. injection H as <-. congruence.
      - apply Hst. }
    destruct (if truthyStr (parentId u) then _ else None) as [parentNode|].
    - destruct (placementChanged internalNode parentNode options).
      + rewrite set_set. apply Hset. exact Hid.
      + apply Hset, Hid.
    - apply Hset, Hid. }
  apply G. exact lookup_wf_empty.
Qed.

(** ** Concrete instances *)

(** The child is gone from the next items, the parent is the same object. *)
Lemma diff_apply_rediff_empty_witness :
  NoDup (map id sampleElements)
  /\ builtFrom sampleElements sampleItemLookup
  /\ unchangedByReference sampleItems sampleItemLookup
  /\ builtFrom sampleElementsAfter sampleItemLookupAfter
  /\ getElementsDiffChanges (Some sampleItems) sampleItemLookupAfter = [].
Proof.
  assert (Hnd : NoDup (map id sampleElements)).
  { repeat (constructor; [cbn; intuition discriminate|]). constructor. }
  assert (Hb : builtFrom sampleElements sampleItemLookup).
  { apply adoptUserNodes_builtFrom; [exact lookup_wf_empty|exact Hnd]. }
  assert (Hun : unchangedByReference sampleItems sampleItemLookup).
  { intros item [<-|[]]. eexists. split; reflexivity. }
  assert (Hb' : builtFrom sampleElementsAfter sampleItemLookupAfter).
  { apply adoptUserNodes_builtFrom.
    - apply adoptUserNodes_wf, lookup_wf_empty.
    - repeat (constructor; [cbn; intuition discriminate|]). constructor. }
  split; [exact Hnd|]. split; [exact Hb|]. split; [exact Hun|]. split; [exact Hb'|].
  exact (diff_apply_rediff_empty sampleElements sampleItems sampleItemLookup 200 Hnd Hb Hun
           sampleItemLookupAfter Hb').
Defined.

(** The child is replaced by a clone: equal in every field, another object. *)
Lemma diff_reference_sensitive_witness :
  with_ref (ref sampleChild) sampleChildClone = sampleChild
  /\ NoDup (map id sampleItemsCloned)
  /\ In sampleChildClone sampleItemsCloned
  /\ JsMap.get (id sampleChildClone) sampleItemLookup = Some sampleStoredChild
  /\ ref (storeItemOf sampleStoredChild) <> ref sampleChildClone
  /\ filter (aboutId (id sampleChildClone))
       (getElementsDiffChanges (Some sampleItemsCloned) sampleItemLookup)
     = [ChReplace (id sampleChildClone) sampleChildClone].
Proof.
  assert (Hnd : NoDup (map id sampleItemsCloned)).
  { repeat (constructor; [cbn; intuition discriminate|]). constructor. }
  assert (Hin : In sampleChildClone sampleItemsCloned) by (right; left; reflexivity).
  assert (Hne : ref (storeItemOf sampleStoredChild) <> ref sampleChildClone)
    by (vm_compute; discriminate).
  split; [reflexivity|]. split; [exact Hnd|]. split; [exact Hin|].
  split; [reflexivity|]. split; [exact Hne|].
  exact (diff_reference_sensitive sampleItemsCloned sampleItemLookup sampleChildClone
           sampleStoredChild Hnd Hin eq_refl Hne).
Defined.

(** The child, never selected and then selected, against the target
    selection [{p}]. *)
Lemma selection_change_suppression_witness :
  existsb (String.eqb "c") ["p"%string] = false
  /\ itemSelected (Plain sampleChild) = None
  /\ fst (getSelectionChanges ([] ++ ("c"%string, Plain sampleChild) :: []) ["p"%string] false)
     = [] ++ []
  /\ itemSelected (Plain sampleChildSelected) = Some true
  /\ fst (getSelectionChanges ([] ++ ("c"%string, Plain sampleChildSelected) :: [])
            ["p"%string] false)
     = [] ++ [ChSelect "c" false].
Proof.
  destruct (selection_change_suppression [] [] "c" (Plain sampleChild) ["p"%string] false
              eq_refl) as (Hnone & _ & _).
  destruct (selection_change_suppression [] [] "c" (Plain sampleChildSelected)
              ["p"%string] false eq_refl) as (_ & Hsel & _).
  split; [reflexivity|]. split; [reflexivity|]. split; [exact (Hnone eq_refl)|].
  split; [reflexivity|]. exact (Hsel eq_refl).
Defined.

(** Where the hypothesis of the round trip ends: an item that is new to the
    lookup is added as a shallow copy, so the same items diffed against the
    lookup built from the result give a [replace] for it. *)
Example rediff_after_add_is_replace :
  getElementsDiffChanges (Some sampleElements) sampleParentOnlyLookup
  = [ChAdd sampleChild (Some 1%nat)]
  /\ sampleElementsWithAdded = [sampleParentOld; with_ref 200 sampleChild]
  /\ getElementsDiffChanges (Some sampleElements)
       (asItems (nodeLookup (adoptUserNodes sampleElementsWithAdded [] [] None 300)))
     = [ChReplace "c" sampleChild].
Proof. repeat split. Qed.

(** The child of width 30.9 that asks for x = 5000 under the parent at
    x = 39.2 of width 79.1 is placed at x = 87.4, the bound that the code
    computes. *)
Lemma parent_clamp_within_bound_witness :
  lookup_wf []
  /\ NoDup (map id doubleFamily)
  /\ truthyStr (parentId doubleChild) = true
  /\ JsMap.get (id doubleParent) (nodeLookup doubleAdopted) = Some doubleAdoptedParent
  /\ JsMap.get (id doubleChild) (nodeLookup doubleAdopted) = Some doubleAdoptedChild
  /\ between (positionAbsolute (internals doubleAdoptedParent))
       (positionAbsolute (internals doubleAdoptedChild))
       (F64.parentBound doubleAdoptedParent (getNodeDimensions (base doubleAdoptedChild)))
  /\ positionAbsolute (internals doubleAdoptedChild)
     = {| x := F64.lit (874 # 10); y := Fin 5 |}.
Proof.
  assert (Hnd : NoDup (map id doubleFamily)).
  { repeat (constructor; [cbn; intuition discriminate|]). constructor. }
  assert (Hx : num_le (x (positionAbsolute (internals doubleAdoptedParent)))
                 (x (F64.parentBound doubleAdoptedParent
                       (getNodeDimensions (base doubleAdoptedChild)))))
    by (vm_compute; discriminate).
  assert (Hy : num_le (y (positionAbsolute (internals doubleAdoptedParent)))
                 (y (F64.parentBound doubleAdoptedParent
                       (getNodeDimensions (base doubleAdoptedChild)))))
    by (vm_compute; discriminate).
  destruct (parent_clamp_within_bound [] [] [] doubleParent doubleChild [] [] None 100
              doubleAdoptedParent doubleAdoptedChild lookup_wf_empty Hnd eq_refl
              eq_refl eq_refl eq_refl eq_refl
              (conj eq_refl eq_refl) (conj eq_refl eq_refl) (conj eq_refl eq_refl)
              (conj eq_refl eq_refl) (conj eq_refl eq_refl)
              (conj eq_refl (conj eq_refl (conj eq_refl eq_refl))))
    as (Ux & Uy & Lx & Ly).
  split; [exact lookup_wf_empty|]. split; [exact Hnd|]. do 3 (split; [reflexivity|]).
  split; [|vm_compute; reflexivity].
  split; [exact (Lx Hx)|]. split; [exact Ux|]. split; [exact (Ly Hy)|exact Uy].
Defined.

(** Where C6 fails as it is stated: the parent is larger than the child, the
    child has [extent: 'parent'] and follows its parent in the array, and
    after adoption the child's right edge [87.4 + 30.9] lies right of the
    parent's right edge [39.2 + 79.1], in exact numbers as well as in double
    arithmetic ([118.30000000000001] against [118.3]). *)
Lemma parent_clamp_counterexample :
  JsMap.get (id doubleParent) (nodeLookup doubleAdopted) = Some doubleAdoptedParent
  /\ JsMap.get (id doubleChild) (nodeLookup doubleAdopted) = Some doubleAdoptedChild
  /\ parentId (base doubleAdoptedChild) = Some (id doubleParent)
  /\ extent (base doubleAdoptedChild) = Some ExtentParent
  /\ num_le (width (getNodeDimensions (base doubleAdoptedChild)))
       (width (getNodeDimensions (base doubleAdoptedParent)))
  /\ num_le (height (getNodeDimensions (base doubleAdoptedChild)))
       (height (getNodeDimensions (base doubleAdoptedParent)))
  /\ exceedsRight (nodeToRect (Internal doubleAdoptedChild) None)
       (nodeToRect (Internal doubleAdoptedParent) None) = true.
Proof.
  do 4 (split; [reflexivity|]).
  split; [vm_compute; discriminate|]. split; [vm_compute; discriminate|].
  vm_compute. reflexivity.
Qed.

(* ------------------------------------------------------------------------- *)
(** * Further properties *)

(** ** Numbers, order and finiteness *)

Lemma num_le_trans (a b c : num) : num_le a b -> num_le b c -> num_le a c.
Proof.
  destruct a, b, c; cbn; try tauto. intros H1 H2. exact (Qle_trans _ _ _ H1 H2).
Qed.

(** ** Clamping, continued *)

(** X2: under the default extent [infiniteExtent] [clampPosition] returns the
    position it is given, whatever its coordinates, as long as the dimensions
    that are present are finite. *)
Theorem clampPosition_infiniteExtent :
  forall (p : XYPosition) (dimensions : PartialDimensions),
    (forall w, pwidth dimensions = Some w -> finite w) ->
    (forall h, pheight dimensions = Some h -> finite h) ->
    clampPosition (Some p) infiniteExtent dimensions = p.
Proof.
  intros [px py] [w h] Hw Hh. unfold clampPosition, infiniteExtent, clamp.
  cbn [orElse x y fst snd pwidth pheight] in *.
  assert (Ew : sub PInf (orElse w zero) = PInf).
  { destruct w as [w|]; [|reflexivity].
    destruct (finite_inv w (Hw w eq_refl)) as (q & ->). reflexivity. }
  assert (Eh : sub PInf (orElse h zero) = PInf).
  { destruct h as [h|]; [|reflexivity].
    destruct (finite_inv h (Hh h eq_refl)) as (q & ->). reflexivity. }
  rewrite Ew, Eh. destruct px, py; reflexivity.
Qed.

Lemma clamp_kept (v lo hi : num) : num_le lo v -> num_le v hi -> clamp v lo hi = v.
Proof.
  destruct v, lo, hi; cbn; try contradiction; intros H1 H2; try reflexivity.
  - rewrite (Qmin_l_eq q q0 H2). reflexivity.
  - rewrite (Qmax_l_eq q q0 H1), (Qmin_l_eq q q1 H2). reflexivity.
  - rewrite (Qmax_l_eq q q0 H1). reflexivity.
Qed.

(** X1: in double arithmetic, for a position and an extent without NaN and
    finite dimensions, [clampPosition] returns on each axis a coordinate that
    is at most [upperBound - size] as the code computes it, and at least the
    lower bound whenever the lower bound is not above that; a position that is
    between the two already is returned as it is. *)
Theorem clampPosition_within :
  forall (p : XYPosition) (extent : CoordinateExtent) (dimensions : PartialDimensions),
    is_nan (x p) = false -> is_nan (y p) = false ->
    definedExtent extent ->
    finite (orElse (pwidth dimensions) zero) ->
    finite (orElse (pheight dimensions) zero) ->
    let lower := {| x := fst (fst extent); y := snd (fst extent) |} in
    let upper := upperCorner extent dimensions in
    let clamped := F64.clampPosition (Some p) extent dimensions in
    num_le (x clamped) (x upper) /\ num_le (y clamped) (y upper)
    /\ (num_le (x lower) (x upper) -> num_le (x lower) (x clamped))
    /\ (num_le (y lower) (y upper) -> num_le (y lower) (y clamped))
    /\ (between lower p upper -> clamped = p).
Proof.
  intros [px py] extent dimensions Hx Hy (H1 & H2 & H3 & H4) Hw Hh lower upper clamped.
  cbn [x y] in Hx, Hy.
  assert (Nx : is_nan (x upper) = false) by (apply sub_defined_r; assumption).
  assert (Ny : is_nan (y upper) = false) by (apply sub_defined_r; assumption).
  assert (Ex : x clamped = clamp px (fst (fst extent)) (x upper)) by reflexivity.
  assert (Ey : y clamped = clamp py (snd (fst extent)) (y upper)) by reflexivity.
  rewrite Ex, Ey.
  split; [now apply clamp_below_upper|]. split; [now apply clamp_below_upper|].
  split; [intros L; now apply clamp_above_lower|].
  split; [intros L; now apply clamp_above_lower|].
  intros (B1 & B2 & B3 & B4). cbn [x y lower] in B1, B2, B3, B4.
  unfold clamped, F64.clampPosition. cbn [orElse x y].
  fold (x upper) (y upper).
  change (F64.sub (fst (snd extent)) (orElse (pwidth dimensions) zero)) with (x upper).
  change (F64.sub (snd (snd extent)) (orElse (pheight dimensions) zero)) with (y upper).
  rewrite (clamp_kept px _ _ B1 B2), (clamp_kept py _ _ B3 B4). reflexivity.
Qed.

(** ** Bounds of several nodes *)

Lemma finiteBox_inv (b : Box) :
  finiteBox b ->
  exists x1 y1 x2 y2,
    b = {| box_x := Fin x1; box_y := Fin y1; box_x2 := Fin x2; box_y2 := Fin y2 |}.
Proof.
  destruct b as [bx by_ bx2 by2]. intros (H1 & H2 & H3 & H4). cbn in *.
  destruct (finite_inv _ H1) as (x1 & ->), (finite_inv _ H2) as (y1 & ->),
    (finite_inv _ H3) as (x2 & ->), (finite_inv _ H4) as (y2 & ->).
  now exists x1, y1, x2, y2.
Qed.

Lemma getBoundsOfBoxes_empty (b : Box) :
  finiteBox b -> getBoundsOfBoxes emptyBox b = b.
Proof. intros H. destruct (finiteBox_inv b H) as (x1 & y1 & x2 & y2 & ->). reflexivity. Qed.

Lemma getBoundsOfBoxes_finite (a b : Box) :
  finiteBox a -> finiteBox b -> finiteBox (getBoundsOfBoxes a b).
Proof.
  intros Ha Hb. destruct (finiteBox_inv a Ha) as (x1 & y1 & x2 & y2 & ->).
  destruct (finiteBox_inv b Hb) as (x1' & y1' & x2' & y2' & ->).
  repeat split.
Qed.

Lemma getBoundsOfBoxes_within (a b : Box) :
  finiteBox a -> finiteBox b ->
  boxWithin a (getBoundsOfBoxes a b) /\ boxWithin b (getBoundsOfBoxes a b).
Proof.
  intros Ha Hb. destruct (finiteBox_inv a Ha) as (x1 & y1 & x2 & y2 & ->).
  destruct (finiteBox_inv b Hb) as (x1' & y1' & x2' & y2' & ->).
  unfold boxWithin, getBoundsOfBoxes. cbn.
  repeat split; first [apply Q.le_min_l|apply Q.le_min_r|apply Q.le_max_l|apply Q.le_max_r].
Qed.

Lemma boxWithin_refl (b : Box) : finiteBox b -> boxWithin b b.
Proof.
  intros H. destruct (finiteBox_inv b H) as (x1 & y1 & x2 & y2 & ->).
  repeat split; cbn; apply Qle_refl.
Qed.

Lemma boxWithin_trans (a b c : Box) : boxWithin a b -> boxWithin b c -> boxWithin a c.
Proof.
  intros (A1 & A2 & A3 & A4) (B1 & B2 & B3 & B4).
  repeat split; eapply num_le_trans; eassumption.
Qed.

(** The fold of [getBoundsOfBoxes] over the boxes that [boxOf] selects: started
    from a finite box, or from [emptyBox], it ends in a finite box around every
    selected box (and around the start), unless nothing was selected. *)
Lemma bounds_fold (A : Type) (boxOf : A -> option Box) (l : list A) (acc : Box) :
  (forall a b, In a l -> boxOf a = Some b -> finiteBox b) ->
  let step := fun (box : Box) (a : A) =>
                match boxOf a with
                | Some b => getBoundsOfBoxes box b
                | None => box
                end in
  (finiteBox acc ->
     finiteBox (fold_left step l acc) /\ boxWithin acc (fold_left step l acc)
     /\ forall a b, In a l -> boxOf a = Some b -> boxWithin b (fold_left step l acc))
  /\ (acc = emptyBox ->
      forall a b, In a l -> boxOf a = Some b ->
        finiteBox (fold_left step l acc)
        /\ forall a' b', In a' l -> boxOf a' = Some b' ->
             boxWithin b' (fold_left step l acc)).
Proof.
  intros Hfin step.
  assert (F : forall l acc,
             (forall a b, In a l -> boxOf a = Some b -> finiteBox b) ->
             finiteBox acc ->
             finiteBox (fold_left step l acc) /\ boxWithin acc (fold_left step l acc)
             /\ forall a b, In a l -> boxOf a = Some b ->
                  boxWithin b (fold_left step l acc)).
  { clear l acc Hfin. induction l as [|a0 l IH]; intros acc Hfin Hacc; cbn [fold_left].
    - split; [exact Hacc|]. split; [now apply boxWithin_refl|]. intros a b [].
    - assert (Hfin' : forall a b, In a l -> boxOf a = Some b -> finiteBox b)
        by (intros a b Hin; apply Hfin; now right).
      replace (step acc a0)
        with (match boxOf a0 with Some b => getBoundsOfBoxes acc b | None => acc end)
        by reflexivity.
      destruct (boxOf a0) as [b0|] eqn:E0.
      + pose proof (Hfin a0 b0 (or_introl eq_refl) E0) as Hb0.
        destruct (getBoundsOfBoxes_within acc b0 Hacc Hb0) as (W1 & W2).
        destruct (IH (getBoundsOfBoxes acc b0) Hfin'
                    (getBoundsOfBoxes_finite acc b0 Hacc Hb0)) as (I1 & I2 & I3).
        split; [exact I1|]. split; [exact (boxWithin_trans _ _ _ W1 I2)|].
        intros a b [<-|Hin] Eb.
        * rewrite E0 in Eb. injection Eb as <-. exact (boxWithin_trans _ _ _ W2 I2).
        * exact (I3 a b Hin Eb).
      + destruct (IH acc Hfin' Hacc) as (I1 & I2 & I3).
        split; [exact I1|]. split; [exact I2|].
        intros a b [<-|Hin] Eb; [congruence|exact (I3 a b Hin Eb)]. }
  split; [exact (F l acc Hfin)|].
  intros ->. induction l as [|a0 l IH]; intros a b Hin Eb; [destruct Hin|].
  assert (Hfin' : forall a b, In a l -> boxOf a = Some b -> finiteBox b)
    by (intros a1 b1 Hin1; apply Hfin; now right).
  cbn [fold_left].
  replace (step emptyBox a0)
    with (match boxOf a0 with Some b => getBoundsOfBoxes emptyBox b | None => emptyBox end)
    by reflexivity.
  destruct (boxOf a0) as [b0|] eqn:E0.
  - pose proof (Hfin a0 b0 (or_introl eq_refl) E0) as Hb0.
    rewrite (getBoundsOfBoxes_empty b0 Hb0).
    destruct (F l b0 Hfin' Hb0) as (I1 & I2 & I3).
    split; [exact I1|]. intros a' b' [<-|Hin'] Eb'.
    + rewrite E0 in Eb'. injection Eb' as <-. exact I2.
    + exact (I3 a' b' Hin' Eb').
  - destruct Hin as [<-|Hin]; [congruence|].
    destruct (IH Hfin' a b Hin Eb) as (I1 & I2).
    split; [exact I1|]. intros a' b' [<-|Hin'] Eb'; [congruence|exact (I2 a' b' Hin' Eb')].
Qed.

Lemma bounds_fold_ext (A : Type) (f g : Box -> A -> Box) (l : list A) (acc : Box) :
  (forall box a, In a l -> f box a = g box a) ->
  fold_left f l acc = fold_left g l acc.
Proof.
  revert acc. induction l as [|a l IH]; intros acc H; cbn [fold_left]; [reflexivity|].
  rewrite (H acc a (or_introl eq_refl)). apply IH. intros box a' Hin. apply H. now right.
Qed.

(** The bounds of the nodes that pass the filter, in double arithmetic: the
    rectangle of a finite box around the box of each. *)
Lemma double_bounds_fold (A : Type) (boxOf : A -> option Box) (l : list A) (a : A)
  (b : Box) :
  (forall a' b', In a' l -> boxOf a' = Some b' -> finiteBox b') ->
  In a l -> boxOf a = Some b ->
  let bounds :=
    fold_left (fun box a' => match boxOf a' with
                             | Some b' => getBoundsOfBoxes box b'
                             | None => box
                             end) l emptyBox in
  finiteBox bounds
  /\ forall a' b', In a' l -> boxOf a' = Some b' -> boxWithin b' bounds.
Proof.
  intros Hfin Hin Hb bounds.
  destruct (bounds_fold A boxOf l emptyBox Hfin) as (_ & G).
  exact (G eq_refl a b Hin Hb).
Qed.

(** X4: in double arithmetic the rectangle of [getInternalNodesBounds] is the
    rectangle of a finite box around the box of every node of the lookup that
    the filter lets through (every node, without a filter), provided the boxes
    of those nodes are finite: its corner is not right of or below the corner
    of any of them, and its size is the difference, as [boxToRect] computes
    it, to a far corner that is not left of or above the far corner of any of
    them. *)
Theorem getInternalNodesBounds_contains :
  forall (nodeLookup : NodeLookup) (filter : option (InternalNode -> bool))
         (k : string) (node : InternalNode),
    (forall kv, In kv nodeLookup -> passes filter (snd kv) = true ->
                finiteBox (F64Graph.nodeToBox (Internal (snd kv)) None)) ->
    In (k, node) nodeLookup ->
    passes filter node = true ->
    exists bounds,
      finiteBox bounds
      /\ F64Graph.getInternalNodesBounds nodeLookup filter = F64Graph.boxToRect bounds
      /\ forall kv, In kv nodeLookup -> passes filter (snd kv) = true ->
           boxWithin (F64Graph.nodeToBox (Internal (snd kv)) None) bounds.
Proof.
  intros nodeLookup filter k node Hfin Hin Hpass. unfold F64Graph.getInternalNodesBounds.
  destruct nodeLookup as [|kv0 rest] eqn:El; [destruct Hin|].
  cbn [JsMap.size List.length Nat.eqb]. rewrite <- El in *. clear El kv0 rest.
  set (boxOf := fun kv : string * InternalNode =>
                  if passes filter (snd kv)
                  then Some (F64Graph.nodeToBox (Internal (snd kv)) None) else None).
  rewrite (bounds_fold_ext _ _
             (fun box kv => match boxOf kv with
                            | Some b => getBoundsOfBoxes box b
                            | None => box
                            end) nodeLookup emptyBox).
  2:{ intros box kv _. unfold boxOf, passes. cbv zeta.
      destruct filter as [f|]; [destruct (f (snd kv))|]; reflexivity. }
  assert (Hb : forall a b, In a nodeLookup -> boxOf a = Some b -> finiteBox b).
  { intros a b Ha. unfold boxOf. destruct (passes filter (snd a)) eqn:Ep; [|discriminate].
    intros [= <-]. exact (Hfin a Ha Ep). }
  assert (Ek : boxOf (k, node) = Some (F64Graph.nodeToBox (Internal node) None))
    by (unfold boxOf; cbn [snd]; now rewrite Hpass).
  destruct (double_bounds_fold _ boxOf nodeLookup (k, node) _ Hb Hin Ek) as (G1 & G2).
  eexists. split; [exact G1|]. split; [reflexivity|].
  intros kv Hkv Hp. apply (G2 kv); [exact Hkv|]. unfold boxOf. now rewrite Hp.
Qed.

(** X5: in double arithmetic the rectangle of [getNodesBounds] of an array
    that is not empty is the rectangle of a finite box around the box of every
    node that an entry of the array stands for (the node itself, or the one
    the lookup holds for its id), provided the boxes of those nodes are
    finite.  An entry that stands for no node counts as the box
    [(0, 0, 0, 0)]. *)
Theorem getNodesBounds_contains :
  forall (nodes : list NodeOrId) (params : option GetNodesBoundsParams)
         (entry : NodeOrId),
    (forall e i, In e nodes ->
       resolveNode (orElse params defaultBoundsParams) e = Some i ->
       finiteBox (F64Graph.nodeToBox i (p_nodeOrigin (orElse params defaultBoundsParams)))) ->
    In entry nodes ->
    exists bounds,
      finiteBox bounds
      /\ F64Graph.getNodesBounds nodes params = F64Graph.boxToRect bounds
      /\ forall e i, In e nodes ->
           resolveNode (orElse params defaultBoundsParams) e = Some i ->
           boxWithin
             (F64Graph.nodeToBox i (p_nodeOrigin (orElse params defaultBoundsParams)))
             bounds.
Proof.
  intros nodes params entry Hfin Hin. unfold F64Graph.getNodesBounds.
  set (ps := orElse params defaultBoundsParams) in *.
  destruct nodes as [|e0 rest] eqn:El; [destruct Hin|].
  rewrite <- El in *. clear El e0 rest.
  set (boxOf := fun e : NodeOrId =>
                  Some match resolveNode ps e with
                       | Some currentNode => F64Graph.nodeToBox currentNode (p_nodeOrigin ps)
                       | None => zeroBox
                       end).
  rewrite (bounds_fold_ext _ _
             (fun box e => match boxOf e with
                           | Some b => getBoundsOfBoxes box b
                           | None => box
                           end) nodes emptyBox)
    by reflexivity.
  assert (Hb : forall a b, In a nodes -> boxOf a = Some b -> finiteBox b).
  { intros a b Ha. unfold boxOf. intros [= <-].
    destruct (resolveNode ps a) as [i|] eqn:Ei; [exact (Hfin a i Ha Ei)|].
    repeat split. }
  destruct (double_bounds_fold _ boxOf nodes entry _ Hb Hin eq_refl) as (G1 & G2).
  eexists. split; [exact G1|]. split; [reflexivity|].
  intros e i He Ei. apply (G2 e); [exact He|]. unfold boxOf. now rewrite Ei.
Qed.

(* ------------------------------------------------------------------------- *)
(** ** Rounding to a double is monotone at the doubles *)
Lemma log2_bounds (p : positive) :
  2 ^ Z.log2 (Zpos p) <= inject_Z (Zpos p) /\ inject_Z (Zpos p) < 2 ^ (Z.log2 (Zpos p) + 1).
Proof.
  destruct (Z.log2_spec (Zpos p) eq_refl) as [H1 H2].
  pose proof (Z.log2_nonneg (Zpos p)) as H0.
  split.
  - rewrite <- (Zpower_Qpower 2 _ H0). rewrite <- Zle_Qle. exact H1.
  - replace (Z.log2 (Zpos p) + 1)%Z with (Z.succ (Z.log2 (Zpos p))) by lia.
    rewrite <- (Zpower_Qpower 2 _ (Z.le_le_succ_r _ _ H0)). rewrite <- Zlt_Qlt. exact H2.
Qed.

Lemma pow2_pos (k : Z) : 0 < 2 ^ k.
Proof. apply Qpower_0_lt. reflexivity. Qed.

Lemma pow2_split (k : Z) : 2 ^ k * 2 ^ Z.max 0 (- k) == 2 ^ Z.max 0 k.
Proof.
  rewrite <- Qpower_plus by discriminate.
  destruct (Z.max_spec 0 k) as [[H1 ->]|[H1 ->]], (Z.max_spec 0 (- k)) as [[H2 ->]|[H2 ->]];
    try lia; f_equiv; lia.
Qed.

(** The test of [magnitude], in rationals. *)
Lemma magnitude_test (n d : positive) (l : Z) :
  (Zpos d * 2 ^ Z.max 0 l <=? Zpos n * 2 ^ Z.max 0 (- l))%Z = true
  <-> 2 ^ l * inject_Z (Zpos d) <= inject_Z (Zpos n).
Proof.
  rewrite Z.leb_le, Zle_Qle, !inject_Z_mult.
  rewrite !(Zpower_Qpower 2) by lia.
  change (inject_Z 2) with 2.
  pose proof (pow2_split l) as E. pose proof (pow2_pos (Z.max 0 (- l))) as P.
  rewrite <- E.
  set (X := 2 ^ l) in *. set (Y := 2 ^ Z.max 0 (- l)) in *.
  set (N := inject_Z (Zpos n)). set (D := inject_Z (Zpos d)).
  clearbody X Y N D. split; intros H; nra.
Qed.

Lemma magnitude_spec (n d : positive) :
  2 ^ F64.magnitude n d * inject_Z (Zpos d) <= inject_Z (Zpos n)
  /\ inject_Z (Zpos n) < 2 ^ (F64.magnitude n d + 1) * inject_Z (Zpos d).
Proof.
  unfold F64.magnitude.
  destruct (log2_bounds n) as [A1 A2]. destruct (log2_bounds d) as [B1 B2].
  set (ln := Z.log2 (Zpos n)) in *. set (ld := Z.log2 (Zpos d)) in *.
  set (l := (ln - ld)%Z).
  assert (E0 : 2 ^ ln == 2 ^ l * 2 ^ ld)
    by (rewrite <- Qpower_plus by discriminate; f_equiv; lia).
  assert (E1 : 2 ^ (ln + 1) == 2 * 2 ^ ln)
    by (rewrite Qpower_plus by discriminate; change (2 ^ 1) with 2; ring).
  assert (E2 : 2 ^ (ld + 1) == 2 * 2 ^ ld)
    by (rewrite Qpower_plus by discriminate; change (2 ^ 1) with 2; ring).
  assert (E3 : 2 ^ (l + 1) == 2 * 2 ^ l)
    by (rewrite Qpower_plus by discriminate; change (2 ^ 1) with 2; ring).
  assert (E4 : 2 ^ l == 2 * 2 ^ (l - 1)).
  { replace l with ((l - 1) + 1)%Z at 1 by lia.
    rewrite Qpower_plus by discriminate. change (2 ^ 1) with 2. ring. }
  pose proof (pow2_pos l) as Pl. pose proof (pow2_pos ld) as Pd.
  pose proof (pow2_pos (l - 1)) as Pl1.
  destruct (_ <=? _)%Z eqn:T.
  - apply magnitude_test in T. split; [exact T|].
    rewrite E3. rewrite E1, E0 in A2.
    set (X := 2 ^ l) in *. set (B := 2 ^ ld) in *.
    set (N := inject_Z (Zpos n)) in *. set (D := inject_Z (Zpos d)) in *.
    clearbody X B N D. nra.
  - assert (T' : ~ 2 ^ l * inject_Z (Zpos d) <= inject_Z (Zpos n)).
    { intros H. apply magnitude_test in H. congruence. }
    replace (l - 1 + 1)%Z with l by lia.
    rewrite E2 in B2. rewrite E0 in A1. rewrite E4 in T', A1.
    set (X := 2 ^ (l - 1)) in *. set (B := 2 ^ ld) in *.
    set (N := inject_Z (Zpos n)) in *. set (D := inject_Z (Zpos d)) in *.
    clearbody X B N D. split; nra.
Qed.

Lemma magnitude_monotone (n d n' d' : positive) :
  Zpos n # d <= Zpos n' # d' -> (F64.magnitude n d <= F64.magnitude n' d')%Z.
Proof.
  intros H. destruct (magnitude_spec n d) as [L _]. destruct (magnitude_spec n' d') as [_ U].
  assert (H' : inject_Z (Zpos n) * inject_Z (Zpos d') <= inject_Z (Zpos n') * inject_Z (Zpos d)).
  { unfold Qle in H. cbn [Qnum Qden] in H. rewrite <- !inject_Z_mult, <- Zle_Qle. exact H. }
  assert (S : 2 ^ F64.magnitude n d < 2 ^ (F64.magnitude n' d' + 1)).
  { assert (Pd : 0 < inject_Z (Zpos d)) by (rewrite <- (Zlt_Qlt 0); reflexivity).
    assert (Pd' : 0 < inject_Z (Zpos d')) by (rewrite <- (Zlt_Qlt 0); reflexivity).
    pose proof (pow2_pos (F64.magnitude n d)). pose proof (pow2_pos (F64.magnitude n' d' + 1)).
    set (X := 2 ^ F64.magnitude n d) in *. set (Y := 2 ^ (F64.magnitude n' d' + 1)) in *.
    set (N := inject_Z (Zpos n)) in *. set (D := inject_Z (Zpos d)) in *.
    set (N' := inject_Z (Zpos n')) in *. set (D' := inject_Z (Zpos d')) in *.
    clearbody X Y N D N' D'.
    destruct (Qlt_le_dec X Y) as [|G]; [assumption|exfalso].
    assert (S1 : X * D * D' <= N * D') by nra.
    assert (S2 : N' * D < Y * D' * D) by nra.
    assert (P : 0 < D * D') by nra.
    assert (S3 : Y * (D * D') <= X * (D * D')) by nra.
    nra. }
  apply Qpower_lt_compat_l_inv in S; [lia|reflexivity].
Qed.

Lemma nearest_le (a b k : Z) :
  (0 < b)%Z -> (a <= k * b)%Z -> (F64.nearest a b <= k)%Z.
Proof.
  intros Hb H. unfold F64.nearest.
  pose proof (Z.div_mod a b ltac:(lia)) as E.
  pose proof (Z.mod_pos_bound a b Hb) as R.
  set (q := (a / b)%Z) in *. set (r := (a mod b)%Z) in *.
  destruct (2 * r ?= b)%Z eqn:C.
  - apply Z.compare_eq in C. destruct (Z.even q); nia.
  - nia.
  - apply Z.compare_gt_iff in C. nia.
Qed.

Lemma nearest_nonneg (a b : Z) : (0 <= a)%Z -> (0 < b)%Z -> (0 <= F64.nearest a b)%Z.
Proof.
  intros Ha Hb. unfold F64.nearest.
  pose proof (Z.div_pos a b Ha Hb).
  destruct (_ ?= _)%Z; [destruct (Z.even _)| |]; lia.
Qed.

Lemma roundPositive_below (n d : positive) (r : Q) :
  Zpos n # d <= r -> representable r -> num_le (F64.roundPositive n d) (Fin r).
Proof.
  intros Hq Hr.
  assert (Pq : 0 < Zpos n # d) by reflexivity.
  assert (Pr : 0 < r) by lra.
  unfold representable, F64.roundQ in Hr.
  pose proof (Qred_correct r) as Er.
  destruct (Qred r) as [rn d'] eqn:Ered. cbn [Qnum Qden] in Hr.
  destruct rn as [|n'|n'].
  - exfalso. rewrite <- Er in Pr. discriminate Pr.
  - unfold F64.roundPositive in *.
    pose proof (magnitude_monotone n d n' d' ltac:(rewrite Er; exact Hq)) as Hg.
    set (e := F64.ulpExponent n d) in *. set (e' := F64.ulpExponent n' d') in *.
    assert (He : (e <= e')%Z) by (unfold e, e', F64.ulpExponent; lia).
    set (m' := F64.mantissa n' d') in *.
    destruct (2 ^ 1024 <=? m' * 2 ^ e')%Z eqn:C'; [contradiction|].
    cbn [num_eq] in Hr. rewrite Qred_correct in Hr.
    apply Z.leb_gt in C'.
    set (k := (m' * 2 ^ (e' - e))%Z).
    assert (Hm : (F64.mantissa n d <= k)%Z).
    { unfold F64.mantissa. fold e. apply nearest_le.
      - pose proof (Z.pow_pos_nonneg 2 (Z.max 0 e) ltac:(lia) ltac:(lia)). lia.
      - rewrite Zle_Qle. unfold k. rewrite !inject_Z_mult.
        rewrite !(Zpower_Qpower 2) by lia. change (inject_Z 2) with 2.
        assert (E1 : 2 ^ e' == 2 ^ (e' - e) * 2 ^ e)
          by (rewrite <- Qpower_plus by discriminate; f_equiv; lia).
        pose proof (pow2_split e) as E2.
        assert (Hn : inject_Z (Zpos n) <= r * inject_Z (Zpos d)).
        { assert (Pd : 0 < inject_Z (Zpos d)) by (rewrite <- (Zlt_Qlt 0); reflexivity).
          rewrite (Qmake_Qdiv (Zpos n) d) in Hq.
          apply (Qmult_le_r _ _ _ Pd) in Hq.
          assert (Ef : inject_Z (Zpos n) / inject_Z (Zpos d) * inject_Z (Zpos d)
                       == inject_Z (Zpos n)) by (field; lra).
          rewrite Ef in Hq. exact Hq. }
        rewrite <- Hr, E1 in Hn. rewrite <- E2.
        pose proof (pow2_pos (Z.max 0 (- e))) as P.
        pose proof (pow2_pos e) as Pe. pose proof (pow2_pos (e' - e)) as Pee.
        set (N := inject_Z (Zpos n)) in *. set (D := inject_Z (Zpos d)) in *.
        set (M := inject_Z m') in *. set (X := 2 ^ (e' - e)) in *.
        set (Y := 2 ^ e) in *. set (Z0 := 2 ^ Z.max 0 (- e)) in *.
        clearbody N D M X Y Z0. nra. }
    destruct (2 ^ 1024 <=? F64.mantissa n d * 2 ^ e)%Z eqn:C.
    + exfalso. apply Z.leb_le in C.
      destruct (Z_lt_le_dec e 0) as [Neg|Pos].
      * rewrite (Z.pow_neg_r 2 e Neg) in C. lia.
      * assert (E : (m' * 2 ^ e' = k * 2 ^ e)%Z).
        { unfold k. rewrite <- Z.mul_assoc, <- Z.pow_add_r by lia. f_equal. f_equal. lia. }
        pose proof (Z.pow_pos_nonneg 2 e ltac:(lia) Pos). nia.
    + cbn [num_le]. rewrite Qred_correct, <- Hr.
      assert (E1 : 2 ^ e' == 2 ^ (e' - e) * 2 ^ e)
        by (rewrite <- Qpower_plus by discriminate; f_equiv; lia).
      rewrite E1.
      assert (Hm' : inject_Z (F64.mantissa n d) <= inject_Z m' * 2 ^ (e' - e)).
      { rewrite <- (Zpower_Qpower 2) by lia. rewrite <- inject_Z_mult, <- Zle_Qle. exact Hm. }
      pose proof (pow2_pos e) as Pe.
      set (A := inject_Z (F64.mantissa n d)) in *. set (M := inject_Z m') in *.
      set (X := 2 ^ (e' - e)) in *. set (Y := 2 ^ e) in *.
      clearbody A M X Y. nra.
  - exfalso. rewrite <- Er in Pr. discriminate Pr.
Qed.

Lemma roundPositive_nonneg (n d : positive) : num_le (Fin 0) (F64.roundPositive n d).
Proof.
  unfold F64.roundPositive. destruct (_ <=? _)%Z; [exact I|].
  cbn [num_le]. rewrite Qred_correct.
  assert (H : (0 <= F64.mantissa n d)%Z).
  { unfold F64.mantissa. apply nearest_nonneg.
    - pose proof (Z.pow_pos_nonneg 2 (Z.max 0 (- F64.ulpExponent n d)) ltac:(lia) ltac:(lia)).
      lia.
    - pose proof (Z.pow_pos_nonneg 2 (Z.max 0 (F64.ulpExponent n d)) ltac:(lia) ltac:(lia)).
      lia. }
  rewrite Zle_Qle in H. pose proof (pow2_pos (F64.ulpExponent n d)). change (inject_Z 0) with 0 in H.
  set (A := inject_Z (F64.mantissa n d)) in *. set (X := 2 ^ F64.ulpExponent n d) in *.
  clearbody A X. nra.
Qed.

Lemma num_le_neg (a b : num) : num_le a b -> num_le (neg b) (neg a).
Proof. destruct a, b; cbn; try tauto. intros H. lra. Qed.

Lemma neg_neg (a : num) : neg (neg a) = a.
Proof.
  destruct a as [| |[n d]|]; cbn; try reflexivity.
  unfold Qopp. cbn. now rewrite Z.opp_involutive.
Qed.

Lemma roundQ_proper (p q : Q) : p == q -> F64.roundQ p = F64.roundQ q.
Proof. intros H. unfold F64.roundQ. now rewrite (Qred_complete p q H). Qed.

Lemma roundQ_opp (q : Q) : F64.roundQ (- q) = neg (F64.roundQ q).
Proof.
  unfold F64.roundQ. rewrite Qred_opp. destruct (Qred q) as [[|n|n] d]; cbn [Qopp Qnum Qden Z.opp].
  - reflexivity.
  - reflexivity.
  - now rewrite neg_neg.
Qed.

(** Rounding does not pass a double: the double nearest to [q] is not above a
    double [r] that is not below [q]. *)
Lemma roundQ_below (q r : Q) :
  q <= r -> 0 <= r -> representable r -> num_le (F64.roundQ q) (Fin r).
Proof.
  intros Hq Hr Rr. unfold F64.roundQ. pose proof (Qred_correct q) as Eq.
  destruct (Qred q) as [[|n|n] d]; cbn [Qnum Qden].
  - exact Hr.
  - apply roundPositive_below; [|exact Rr]. rewrite Eq. exact Hq.
  - pose proof (num_le_neg _ _ (roundPositive_nonneg n d)) as H. cbn [neg] in H.
    destruct (neg (F64.roundPositive n d)); cbn in *; try tauto. lra.
Qed.

Lemma roundQ_between (q r : Q) :
  - r <= q -> q <= r -> representable r ->
  exists q', F64.roundQ q = Fin q' /\ - r <= q' /\ q' <= r.
Proof.
  intros H1 H2 Rr. assert (Hr : 0 <= r) by lra.
  pose proof (roundQ_below q r H2 Hr Rr) as U.
  pose proof (roundQ_below (- q) r ltac:(lra) Hr Rr) as L.
  rewrite roundQ_opp in L.
  destruct (F64.roundQ q) as [| |q'|]; cbn in *; try contradiction.
  exists q'. split; [reflexivity|]. lra.
Qed.

Lemma roundQ_nonneg (q : Q) : 0 <= q -> num_le (Fin 0) (F64.roundQ q).
Proof.
  intros Hq. unfold F64.roundQ. pose proof (Qred_correct q) as Eq.
  destruct (Qred q) as [[|n|n] d]; cbn [Qnum Qden].
  - cbn. lra.
  - apply roundPositive_nonneg.
  - exfalso. rewrite <- Eq in Hq. revert Hq. unfold Qle. cbn. lia.
Qed.


(* ------------------------------------------------------------------------- *)
(** ** Instances of the further properties of the geometry *)

Lemma clampPosition_infiniteExtent_witness :
  (forall w, pwidth {| pwidth := Some (Fin 10); pheight := None |} = Some w -> finite w)
  /\ (forall h, pheight {| pwidth := Some (Fin 10); pheight := None |} = Some h -> finite h)
  /\ clampPosition (Some (finPos (3, -4))) infiniteExtent
       {| pwidth := Some (Fin 10); pheight := None |} = finPos (3, -4).
Proof.
  assert (Hw : forall w, pwidth {| pwidth := Some (Fin 10); pheight := None |} = Some w
                         -> finite w)
    by (intros w [= <-]; reflexivity).
  assert (Hh : forall h, pheight {| pwidth := Some (Fin 10); pheight := None |} = Some h
                         -> finite h)
    by (intros h [=]).
  split; [exact Hw|]. split; [exact Hh|].
  exact (clampPosition_infiniteExtent (finPos (3, -4)) _ Hw Hh).
Defined.

(** A position far right of the extent is clamped to [118.3 - 30.9], which is
    [87.4] in doubles. *)
Lemma clampPosition_within_witness :
  definedExtent doubleExtent
  /\ num_le (fst (fst doubleExtent)) (x (upperCorner doubleExtent doubleDimensions))
  /\ F64.clampPosition (Some (finPos (5000, 7))) doubleExtent doubleDimensions
     = {| x := F64.lit (874 # 10); y := Fin 7 |}
  /\ between {| x := fst (fst doubleExtent); y := snd (fst doubleExtent) |}
       (F64.clampPosition (Some (finPos (5000, 7))) doubleExtent doubleDimensions)
       (upperCorner doubleExtent doubleDimensions).
Proof.
  assert (He : definedExtent doubleExtent) by (repeat split).
  assert (Lx : num_le (fst (fst doubleExtent))
                 (x (upperCorner doubleExtent doubleDimensions)))
    by (vm_compute; discriminate).
  assert (Ly : num_le (snd (fst doubleExtent))
                 (y (upperCorner doubleExtent doubleDimensions)))
    by (vm_compute; discriminate).
  destruct (clampPosition_within (finPos (5000, 7)) doubleExtent doubleDimensions
              eq_refl eq_refl He eq_refl eq_refl) as (Ux & Uy & Gx & Gy & _).
  split; [exact He|]. split; [exact Lx|]. split; [vm_compute; reflexivity|].
  split; [exact (Gx Lx)|]. split; [exact Ux|]. split; [exact (Gy Ly)|exact Uy].
Defined.

Lemma getInternalNodesBounds_contains_witness :
  (forall kv, In kv doubleBoundsLookup -> passes None (snd kv) = true ->
              finiteBox (F64Graph.nodeToBox (Internal (snd kv)) None))
  /\ In ("r"%string, doubleInternal 34 doubleRight (1402 # 10) 0) doubleBoundsLookup
  /\ exists bounds,
       finiteBox bounds
       /\ F64Graph.getInternalNodesBounds doubleBoundsLookup None
          = F64Graph.boxToRect bounds
       /\ forall kv, In kv doubleBoundsLookup -> passes None (snd kv) = true ->
            boxWithin (F64Graph.nodeToBox (Internal (snd kv)) None) bounds.
Proof.
  assert (Hfin : forall kv, In kv doubleBoundsLookup -> passes None (snd kv) = true ->
                   finiteBox (F64Graph.nodeToBox (Internal (snd kv)) None)).
  { intros kv [<-|[<-|[]]] _; repeat split. }
  assert (Hin : In ("r"%string, doubleInternal 34 doubleRight (1402 # 10) 0)
                  doubleBoundsLookup) by (right; left; reflexivity).
  split; [exact Hfin|]. split; [exact Hin|].
  exact (getInternalNodesBounds_contains doubleBoundsLookup None "r" _ Hfin Hin eq_refl).
Defined.

Lemma getNodesBounds_contains_witness :
  (forall e i, In e doubleBoundsNodes ->
     resolveNode (orElse None defaultBoundsParams) e = Some i ->
     finiteBox (F64Graph.nodeToBox i (p_nodeOrigin (orElse None defaultBoundsParams))))
  /\ In (OfNode doubleRight) doubleBoundsNodes
  /\ exists bounds,
       finiteBox bounds
       /\ F64Graph.getNodesBounds doubleBoundsNodes None = F64Graph.boxToRect bounds
       /\ forall e i, In e doubleBoundsNodes ->
            resolveNode (orElse None defaultBoundsParams) e = Some i ->
            boxWithin
              (F64Graph.nodeToBox i (p_nodeOrigin (orElse None defaultBoundsParams)))
              bounds.
Proof.
  assert (Hfin : forall e i, In e doubleBoundsNodes ->
                   resolveNode (orElse None defaultBoundsParams) e = Some i ->
                   finiteBox (F64Graph.nodeToBox i
                                (p_nodeOrigin (orElse None defaultBoundsParams)))).
  { intros e i [<-|[<-|[]]] [= <-]; repeat split. }
  assert (Hin : In (OfNode doubleRight) doubleBoundsNodes) by (right; left; reflexivity).
  split; [exact Hfin|]. split; [exact Hin|].
  exact (getNodesBounds_contains doubleBoundsNodes None (OfNode doubleRight) Hfin Hin).
Defined.

(** ** Adoption, continued *)

Lemma asItems_keys (l : NodeLookup) : JsMap.keys (asItems l) = JsMap.keys l.
Proof. unfold asItems, JsMap.keys. rewrite map_map. reflexivity. Qed.

Lemma asItems_get (l : NodeLookup) (k : string) :
  JsMap.get k (asItems l) = option_map Internal (JsMap.get k l).
Proof.
  induction l as [|[k0 i0] l IH]; cbn; [reflexivity|].
  destruct (String.eqb k k0); [reflexivity|exact IH].
Qed.

(** X23: after [adoptUserNodes] on an array with unique ids the node lookup
    holds exactly the nodes of the array: its keys are their ids in array
    order, the entry under the id of a node has that id and wraps that very
    node, and nothing is left of the entries the lookup had for other ids. *)
Theorem adoptUserNodes_holds_the_array :
  forall (nodes : list Node) (nodeLookup0 : NodeLookup) (parentLookup0 : ParentLookup)
         (options : option UpdateNodesOptions) (next : nat),
    lookup_wf nodeLookup0 ->
    NoDup (map id nodes) ->
    JsMap.keys (nodeLookup (adoptUserNodes nodes nodeLookup0 parentLookup0 options next))
    = map id nodes
    /\ (forall n, In n nodes ->
          exists i,
            JsMap.get (id n)
              (nodeLookup (adoptUserNodes nodes nodeLookup0 parentLookup0 options next))
            = Some i
            /\ id (base i) = id n
            /\ ref (userNode (internals i)) = ref n)
    /\ (forall k, ~ In k (map id nodes) ->
          JsMap.get k
            (nodeLookup (adoptUserNodes nodes nodeLookup0 parentLookup0 options next))
          = None).
Proof.
  intros nodes nodeLookup0 parentLookup0 options next Hwf Hnd.
  pose proof (adoptUserNodes_builtFrom nodes nodeLookup0 parentLookup0 options next Hwf Hnd)
    as Hb.
  pose proof (adoptUserNodes_wf nodes nodeLookup0 parentLookup0 options next Hwf) as Hw.
  set (final := nodeLookup (adoptUserNodes nodes nodeLookup0 parentLookup0 options next)) in *.
  assert (Hk : JsMap.keys final = map id nodes)
    by (rewrite <- asItems_keys; exact (builtFrom_keys _ _ Hb)).
  split; [exact Hk|]. split.
  - intros n Hin. destruct (builtFrom_get _ _ n Hb Hnd Hin) as (li & Hg & Hr).
    rewrite asItems_get in Hg. destruct (JsMap.get (id n) final) as [i|] eqn:E; [|discriminate].
    injection Hg as <-. exists i. split; [reflexivity|]. split; [exact (Hw _ _ E)|exact Hr].
  - intros k Hn. apply get_None_keys. now rewrite Hk.
Qed.

(** The entry of a child after the adoption, seen from the internal node that
    the loop entered for it: the same node fields, and either that very
    object (placement unchanged) or its replacement at the computed
    placement. *)
Lemma adopted_child_entry (pre mid post : list Node) (parent child : Node)
  (nodeLookup0 : NodeLookup) (parentLookup0 : ParentLookup)
  (options : option UpdateNodesOptions) (next : nat) (p c : InternalNode) :
  lookup_wf nodeLookup0 ->
  NoDup (map id (pre ++ parent :: mid ++ child :: post)) ->
  truthyStr (parentId child) = true ->
  JsMap.get (id parent)
    (nodeLookup (adoptUserNodes (pre ++ parent :: mid ++ child :: post) nodeLookup0
                   parentLookup0 options next)) = Some p ->
  JsMap.get (id child)
    (nodeLookup (adoptUserNodes (pre ++ parent :: mid ++ child :: post) nodeLookup0
                   parentLookup0 options next)) = Some c ->
  parentId (base c) = Some (id parent) ->
  exists (internalNode : InternalNode) (r : nat),
    (placementChanged internalNode p options = true
     /\ c = replacedChild r internalNode p options)
    \/ (placementChanged internalNode p options = false /\ c = internalNode).
Proof.
  intros Hwf Hnd Htruthy Hp Hc Hpid.
  rewrite adoptUserNodes_adoptAll in Hp, Hc.
  set (merged := mergeObjects adoptUserNodesDefaultOptions options) in *.
  set (sz := if elevateNodesOnSelect merged then Fin 1000 else zero) in *.
  replace (pre ++ parent :: mid ++ child :: post)
    with ((pre ++ parent :: mid) ++ child :: post) in *
    by (rewrite <- app_assoc; reflexivity).
  destruct (NoDup_middle_not_in _ _ _ Hnd) as [_ Hpost].
  assert (Hparent : In parent (pre ++ parent :: mid)) by (apply in_elt).
  destruct (NoDup_before_not_after _ _ _ _ Hnd Hparent) as [Hne Hppost].
  rewrite adoptAll_app in Hp, Hc.
  set (before := adoptAll merged options nodeLookup0 sz (adoptStart next)
                   (pre ++ parent :: mid)) in *.
  change (adoptAll merged options nodeLookup0 sz before (child :: post))
    with (adoptAll merged options nodeLookup0 sz
            (adoptUserNode merged options nodeLookup0 sz before child) post) in Hp, Hc.
  rewrite (adoptAll_get_other merged options nodeLookup0 sz Hwf post _ _ Hpost) in Hc.
  rewrite (adoptAll_get_other merged options nodeLookup0 sz Hwf post _ _ Hppost) in Hp.
  rewrite (adoptUserNode_get_other merged options nodeLookup0 sz Hwf before child _ Hne) in Hp.
  rewrite (adoptUserNode_nodeLookup merged options nodeLookup0 sz Hwf) in Hc.
  rewrite Htruthy in Hc.
  set (internalNode := fst (adoptOrReuse merged nodeLookup0 sz before child)) in *.
  set (st1 := snd (adoptOrReuse merged nodeLookup0 sz before child)) in *.
  exists internalNode, (nextRef st1).
  destruct (parentOf internalNode _) as [parentNode|] eqn:Epar.
  - assert (Hsame : parentNode = p).
    { destruct (placementChanged internalNode parentNode options);
        rewrite ?get_set_eq in Hc; injection Hc as <-;
        unfold parentOf in Epar; cbn [replacedChild withPlacement base parentId with_ref]
          in Hpid; rewrite Hpid, get_set_ne in Epar by exact Hne; congruence. }
    subst parentNode.
    destruct (placementChanged internalNode p options) eqn:Echg;
      rewrite ?get_set_eq in Hc; injection Hc as <-; [left|right]; now split.
  - exfalso. rewrite get_set_eq in Hc. injection Hc as <-.
    unfold parentOf in Epar. rewrite Hpid in Epar.
    rewrite get_set_ne in Epar by exact Hne. congruence.
Qed.

Lemma calculateZ_finite (node : Node) (selectedNodeZ : num) :
  finite selectedNodeZ -> finite (calculateZ node selectedNodeZ).
Proof.
  intros Hs. destruct (finite_inv _ Hs) as (s & ->). unfold calculateZ, isNumeric.
  destruct (zIndex node) as [[| |q|]|], (truthyBool (selected node)); reflexivity.
Qed.

Lemma child_z_above (parentZ childZ : num) :
  is_nan parentZ = false -> finite childZ ->
  num_le parentZ (if gtb parentZ childZ then parentZ else childZ).
Proof.
  intros Hp Hc. destruct (finite_inv _ Hc) as (c & ->).
  destruct parentZ as [| |q|]; try discriminate; cbn; try exact I.
  destruct (Qcompare_spec c q); cbn; lra.
Qed.

(** X24: after [adoptUserNodes] (unique ids) a child whose parent stands
    before it in the array is never below its parent: the [z] of its entry is
    at least the [z] of the entry of its parent (which is no NaN). *)
Theorem adopted_child_not_below_parent :
  forall (pre mid post : list Node) (parent child : Node) (nodeLookup0 : NodeLookup)
         (parentLookup0 : ParentLookup) (options : option UpdateNodesOptions)
         (next : nat) (p c : InternalNode),
    lookup_wf nodeLookup0 ->
    NoDup (map id (pre ++ parent :: mid ++ child :: post)) ->
    truthyStr (parentId child) = true ->
    JsMap.get (id parent)
      (nodeLookup (adoptUserNodes (pre ++ parent :: mid ++ child :: post) nodeLookup0
                     parentLookup0 options next)) = Some p ->
    JsMap.get (id child)
      (nodeLookup (adoptUserNodes (pre ++ parent :: mid ++ child :: post) nodeLookup0
                     parentLookup0 options next)) = Some c ->
    parentId (base c) = Some (id parent) ->
    is_nan (z (internals p)) = false ->
    num_le (z (internals p)) (z (internals c)).
Proof.
  intros pre mid post parent child nodeLookup0 parentLookup0 options next p c
    Hwf Hnd Htruthy Hp Hc Hpid Hz.
  destruct (adopted_child_entry pre mid post parent child nodeLookup0 parentLookup0
              options next p c Hwf Hnd Htruthy Hp Hc Hpid)
    as (internalNode & r & [(Hchg & ->)|(Hchg & ->)]).
  - unfold replacedChild, withPlacement, childPlacement, calculateChildXYZ.
    cbn [internals z snd]. apply child_z_above; [exact Hz|].
    apply calculateZ_finite. destruct (elevateNodesOnSelect _); reflexivity.
  - unfold placementChanged in Hchg. apply orb_false_iff in Hchg. destruct Hchg as (_ & Hzeq).
    apply negb_false_iff in Hzeq. unfold childPlacement, calculateChildXYZ in Hzeq.
    cbn [snd] in Hzeq.
    set (sz := if elevateNodesOnSelect (mergeObjects defaultOptions options)
               then Fin 1000 else zero) in *.
    pose proof (child_z_above (z (internals p))
                  (calculateZ (base internalNode) sz) Hz
                  (calculateZ_finite _ sz ltac:(subst sz; destruct (elevateNodesOnSelect _);
                                                reflexivity))) as Hle.
    destruct (if gtb (z (internals p)) (calculateZ (base internalNode) sz)
              then z (internals p) else calculateZ (base internalNode) sz)
      as [| |q|] eqn:En; destruct (z (internals internalNode)) as [| |q'|];
      cbn in Hzeq; try discriminate; try exact Hle.
    apply Qeq_bool_iff in Hzeq.
    destruct (z (internals p)) as [| |qp|]; cbn in Hle |- *; try exact I; try contradiction.
    lra.
Qed.

(** ** Selection changes, continued *)

(** X17: [getSelectionChanges] with [mutateItem] writes the target selection
    into the items, so that afterwards every item that has a [selected]
    property is selected exactly if its key is in [selectedIds], and a second
    call (with or without [mutateItem]) returns no change; without
    [mutateItem] the items are left as they are. *)
Theorem getSelectionChanges_settles :
  forall (items : JsMap.t LookupItem) (selectedIds : list string) (again : bool),
    fst (getSelectionChanges (snd (getSelectionChanges items selectedIds true))
           selectedIds again) = []
    /\ (forall k item,
          In (k, item) (snd (getSelectionChanges items selectedIds true)) ->
          truthyBool (itemSelected item) = existsb (String.eqb k) selectedIds)
    /\ snd (getSelectionChanges items selectedIds false) = items.
Proof.
  intros items selectedIds again. induction items as [|[k item] items (IH1 & IH2 & IH3)].
  - repeat split. intros k item [].
  - cbn [getSelectionChanges].
    destruct (getSelectionChanges items selectedIds true) as [changes1 items1] eqn:E1.
    destruct (getSelectionChanges items selectedIds false) as [changes0 items0] eqn:E0.
    cbn [fst snd] in IH1, IH2, IH3.
    set (will := existsb (String.eqb k) selectedIds).
    assert (Hset : itemSelected (setItemSelected will item) = Some will)
      by (destruct item; reflexivity).
    destruct (negb match itemSelected item with
                   | Some _ => false
                   | None => negb will
                   end && selectedDiffers (itemSelected item) will) eqn:Ec;
      cbn [fst snd getSelectionChanges].
    + destruct (getSelectionChanges items1 selectedIds again) as [changes2 items2] eqn:E2.
      cbn [fst] in IH1. fold will. rewrite Hset. cbn [negb andb selectedDiffers].
      rewrite Bool.eqb_reflx. cbn [negb fst]. split; [exact IH1|]. split.
      * intros k' item' [[= <- <-]|Hin]; [|exact (IH2 k' item' Hin)].
        rewrite Hset. reflexivity.
      * now rewrite IH3.
    + destruct (getSelectionChanges items1 selectedIds again) as [changes2 items2] eqn:E2.
      cbn [fst] in IH1. fold will. rewrite Ec. cbn [fst]. split; [exact IH1|]. split.
      * intros k' item' [[= <- <-]|Hin]; [|exact (IH2 k' item' Hin)].
        fold will. destruct (itemSelected item) as [[|]|], will; cbn in *; congruence.
      * now rewrite IH3.
Qed.

(** ** Changes that concern no element *)

Lemma accumulates_aboutId (k : string) (c : Change) :
  accumulates k c = true -> aboutId k c = true.
Proof. destruct c; cbn; try discriminate; rewrite String.eqb_sym; auto. Qed.

Lemma supersedes_aboutId (k : string) (c : Change) :
  supersedes k c = true -> aboutId k c = true.
Proof. destruct c; cbn; try discriminate; rewrite String.eqb_sym; auto. Qed.

Lemma lastSuperseding_none (k : string) (changes : list Change) :
  (forall c, In c changes -> supersedes k c = false) ->
  lastSuperseding k changes = None.
Proof.
  induction changes as [|c changes IH]; intros H; cbn [lastSuperseding]; [reflexivity|].
  rewrite IH by (intros c' Hc'; apply H; now right).
  now rewrite (H c (or_introl eq_refl)).
Qed.

Lemma filter_none (A : Type) (f : A -> bool) (l : list A) :
  (forall a, In a l -> f a = false) -> filter f l = [].
Proof.
  induction l as [|a l IH]; intros H; cbn [filter]; [reflexivity|].
  rewrite (H a (or_introl eq_refl)). apply IH. intros a' Ha'. apply H. now right.
Qed.

(** X18: changes that name none of the elements (and are no [add] changes)
    leave the array alone: [applyChanges] returns the elements themselves, in
    order, and copies nothing. *)
Theorem applyChanges_unrelated :
  forall (changes : list Change) (elements : list Node) (n : nat),
    (forall c, In c changes -> isAdd c = false) ->
    (forall c e, In c changes -> In e elements -> aboutId (id e) c = false) ->
    applyChanges changes elements n = (elements, n).
Proof.
  intros changes elements n Hadd Hid. unfold applyChanges.
  pose proof (queueChanges_adds changes) as Ha.
  pose proof (updateElements_by_rule changes elements n) as Hu.
  destruct (queueChanges changes) as [changesMap addItemChanges]. cbn [fst snd] in Ha, Hu.
  unfold bind. rewrite Hu, Ha, (filter_none _ isAdd changes Hadd).
  assert (G : forall m, elementsByRule changes elements m = (elements, m)).
  { clear Hu n. induction elements as [|e elements IH]; intros m; [reflexivity|].
    cbn [elementsByRule]. unfold bind, elementByRule.
    rewrite lastSuperseding_none.
    2:{ intros c Hc. destruct (supersedes (id e) c) eqn:E; [|reflexivity].
        apply supersedes_aboutId in E. rewrite (Hid c e Hc (or_introl eq_refl)) in E.
        discriminate. }
    rewrite filter_none.
    2:{ intros c Hc. destruct (accumulates (id e) c) eqn:E; [|reflexivity].
        apply accumulates_aboutId in E. rewrite (Hid c e Hc (or_introl eq_refl)) in E.
        discriminate. }
    unfold ret. rewrite IH by (intros c e' Hc He'; apply Hid; [exact Hc|now right]).
    reflexivity. }
  rewrite G. reflexivity.
Qed.

(** ** Diff and apply *)

Lemma lastSuperseding_app (k : string) (first second : list Change) :
  lastSuperseding k (first ++ second)
  = match lastSuperseding k second with
    | Some c => Some c
    | None => lastSuperseding k first
    end.
Proof.
  induction first as [|c first IH]; cbn [app lastSuperseding].
  - destruct (lastSuperseding k second); reflexivity.
  - rewrite IH. destruct (lastSuperseding k second); reflexivity.
Qed.

Lemma hasId_In (k : string) (elements : list Node) :
  hasId k elements = true <-> In k (map id elements).
Proof.
  unfold hasId. rewrite existsb_exists, in_map_iff. split.
  - intros (e & Hin & E). apply String.eqb_eq in E. now exists e.
  - intros (e & E & Hin). exists e. split; [exact Hin|now apply String.eqb_eq].
Qed.

Lemma hasId_false (k : string) (elements : list Node) :
  hasId k elements = false <-> ~ In k (map id elements).
Proof. rewrite <- hasId_In. destruct (hasId k elements); intuition congruence. Qed.

Lemma diffItems_accumulates (lookup : JsMap.t LookupItem) (k : string) (items : list Node)
  (index : nat) :
  filter (accumulates k) (diffItems lookup index items) = [].
Proof.
  revert index. induction items as [|item items IH]; intros index; cbn [diffItems];
    [reflexivity|].
  rewrite !filter_app, IH.
  destruct (option_map storeItemOf (JsMap.get (id item) lookup)) as [s|];
    [destruct (negb (ref s =? ref item)%nat)|]; reflexivity.
Qed.

Lemma diffItems_absent (lookup : JsMap.t LookupItem) (k : string) (items : list Node)
  (index : nat) :
  ~ In k (map id items) -> lastSuperseding k (diffItems lookup index items) = None.
Proof.
  intros Hn. apply lastSuperseding_none. intros c Hc.
  destruct (supersedes k c) eqn:E; [|reflexivity]. exfalso.
  pose proof (diffItems_other lookup k items index Hn) as Ho.
  assert (Hin : In c (filter (aboutId k) (diffItems lookup index items)))
    by (apply filter_In; split; [exact Hc|now apply supersedes_aboutId]).
  rewrite Ho in Hin. destruct Hin.
Qed.

(** What the diff holds for the id of a next item: a [replace] when the
    stored object is another one, nothing that supersedes otherwise. *)
Lemma diffItems_superseding (lookup : JsMap.t LookupItem) (items : list Node)
  (index : nat) (item : Node) :
  NoDup (map id items) -> In item items ->
  lastSuperseding (id item) (diffItems lookup index items)
  = match option_map storeItemOf (JsMap.get (id item) lookup) with
    | Some s => if negb (ref s =? ref item)%nat then Some (ChReplace (id item) item) else None
    | None => None
    end.
Proof.
  revert index. induction items as [|i0 items IH]; intros index Hnd Hin; [destruct Hin|].
  cbn [map] in Hnd. apply NoDup_cons_iff in Hnd. destruct Hnd as (Hfresh & Hnd).
  cbn [diffItems]. rewrite !lastSuperseding_app.
  destruct Hin as [->|Hin].
  - rewrite (diffItems_absent lookup (id item) items (S index) Hfresh).
    destruct (option_map storeItemOf (JsMap.get (id item) lookup)) as [s|]; [|reflexivity].
    destruct (negb (ref s =? ref item)%nat); cbn; [|reflexivity].
    now rewrite String.eqb_refl.
  - rewrite (IH (S index) Hnd Hin).
    assert (Hne : String.eqb (id item) (id i0) = false).
    { apply String.eqb_neq. intros E. apply Hfresh. rewrite <- E. now apply in_map. }
    destruct (option_map storeItemOf (JsMap.get (id item) lookup)) as [s|];
      [destruct (negb (ref s =? ref item)%nat); [reflexivity|]|];
      (destruct (option_map storeItemOf (JsMap.get (id i0) lookup)) as [s0|];
       [destruct (negb (ref s0 =? ref i0)%nat)|]); cbn; rewrite ?Hne; reflexivity.
Qed.

Lemma itemsLookup_has (items : list Node) (k : string) :
  JsMap.has k (JsMap.ofEntries (map (fun item => (id item, item)) items)) = hasId k items.
Proof.
  unfold JsMap.has.
  destruct (JsMap.get k (JsMap.ofEntries (map (fun item => (id item, item)) items))) eqn:E.
  - symmetry. apply hasId_In. destruct (hasId k items) eqn:Eh; [now apply hasId_In|].
    apply hasId_false in Eh. exfalso.
    assert (En : JsMap.get k (JsMap.ofEntries (map (fun item => (id item, item)) items)) = None).
    { apply get_ofEntries_None. now rewrite map_map. }
    congruence.
  - apply get_ofEntries_None in E. rewrite map_map in E. cbn in E.
    symmetry. now apply hasId_false.
Qed.

Lemma find_by_id (items : list Node) (item : Node) :
  NoDup (map id items) -> In item items ->
  forall other, In other items -> id other = id item -> other = item.
Proof.
  induction items as [|i0 items IH]; intros Hnd Hin other Ho E; [destruct Hin|].
  cbn [map] in Hnd. apply NoDup_cons_iff in Hnd. destruct Hnd as (Hfresh & Hnd).
  destruct Hin as [->|Hin], Ho as [->|Ho]; try reflexivity.
  - exfalso. apply Hfresh. rewrite <- E. now apply in_map.
  - exfalso. apply Hfresh. rewrite E. now apply in_map.
  - exact (IH Hnd Hin other Ho E).
Qed.

(** The second loop of [applyChanges] on a diff: the elements whose id the
    next items have, each as itself or as a copy of its item. *)
Lemma diff_updates (elements items : list Node) (lookup : JsMap.t LookupItem) :
  NoDup (map id elements) -> NoDup (map id items) -> builtFrom elements lookup ->
  forall (part : list Node) (n : nat),
    incl part elements ->
    Forall2 (fun r e => forall i, In i items -> id i = id e -> reproduces r i)
      (fst (elementsByRule (getElementsDiffChanges (Some items) lookup) part n))
      (filter (fun e => hasId (id e) items) part).
Proof.
  intros Hnde Hndi Hb. unfold getElementsDiffChanges. cbn [orElse].
  set (itemsLookup := JsMap.ofEntries (map (fun item => (id item, item)) items)).
  induction part as [|e part IH]; intros n Hincl; [constructor|].
  assert (Hincl' : incl part elements) by (intros a Ha; apply Hincl; now right).
  assert (He : In e elements) by (apply Hincl; now left).
  destruct (builtFrom_get _ _ e Hb Hnde He) as (li & Hg & Hr).
  cbn [elementsByRule filter]. unfold bind, elementByRule.
  rewrite lastSuperseding_app, lastSuperseding_diffRemoved.
  unfold JsMap.has at 1. rewrite Hg. cbn [andb].
  rewrite (itemsLookup_has items (id e) : JsMap.has (id e) itemsLookup = _).
  destruct (hasId (id e) items) eqn:Eh; cbn [negb].
  - apply hasId_In in Eh. apply in_map_iff in Eh. destruct Eh as (i & Ei & Hi).
    rewrite <- Ei, (diffItems_superseding lookup items 0 i Hndi Hi), Ei, Hg.
    cbn [option_map].
    destruct (negb (ref (storeItemOf li) =? ref i)%nat) eqn:En.
    + unfold copy, ret, bind. cbv beta iota zeta. specialize (IH (S n) Hincl').
      destruct (elementsByRule _ part (S n)) as [outs n']. cbn [fst app].
      constructor; [|exact IH]. intros i' Hi' E'.
      assert (i' = i) by (apply (find_by_id items i Hndi Hi i' Hi'); congruence). subst i'.
      split; [reflexivity|]. right. now exists n.
    + rewrite filter_app, diffItems_accumulates,
        (proj1 (diffRemoved_kinds itemsLookup lookup (id e))).
      cbn [app]. unfold ret. cbv beta iota zeta. specialize (IH n Hincl').
      destruct (elementsByRule _ part n) as [outs n']. cbn [fst app].
      constructor; [|exact IH]. intros i' Hi' E'.
      assert (i' = i) by (apply (find_by_id items i Hndi Hi i' Hi'); congruence). subst i'.
      split; [now symmetry|]. left. apply negb_false_iff, Nat.eqb_eq in En. congruence.
  - unfold ret. cbv beta iota zeta. specialize (IH n Hincl').
    destruct (elementsByRule _ part n) as [outs n']. exact IH.
Qed.

(** The third loop on a diff: every new item is spliced in at its index, which
    is where the items before it end. *)
Lemma diff_adds (lookup : JsMap.t LookupItem) (items : list Node) :
  forall (index : nat) (placed rest : list Node) (n : nat),
    List.length placed = index ->
    Forall2 reproduces rest (filter (fun i => JsMap.has (id i) lookup) items) ->
    exists result n',
      addItems (filter isAdd (diffItems lookup index items)) (placed ++ rest) n
      = (placed ++ result, n')
      /\ Forall2 reproduces result items.
Proof.
  induction items as [|item items IH]; intros index placed rest n Hlen Hrest.
  - cbn in Hrest. inversion Hrest. subst. exists [], n. split; [reflexivity|constructor].
  - cbn [diffItems filter] in *. unfold JsMap.has in Hrest.
    destruct (JsMap.get (id item) lookup) as [li|] eqn:Eg; cbn [option_map].
    + inversion Hrest as [|r i rest' l' Hr Hrest' E1 E2]. subst.
      assert (Eadds : filter isAdd
                        ((if negb (ref (storeItemOf li) =? ref item)%nat
                          then [ChReplace (id item) item] else [])
                         ++ [] ++ diffItems lookup (S (List.length placed)) items)
                      = filter isAdd (diffItems lookup (S (List.length placed)) items))
        by (destruct (negb (ref (storeItemOf li) =? ref item)%nat); reflexivity).
      rewrite Eadds.
      destruct (IH (S (List.length placed)) (placed ++ [r]) rest' n) as (result & n' & E & F).
      { rewrite length_app. cbn. lia. }
      { exact Hrest'. }
      exists (r :: result), n'. rewrite <- !app_assoc in E. cbn [app] in E.
      split; [exact E|]. constructor; assumption.
    + cbn [app filter isAdd addItems]. unfold bind, copy. cbv beta iota zeta.
      assert (Es : splice index (with_ref n item) (placed ++ rest)
                   = (placed ++ [with_ref n item]) ++ rest).
      { unfold splice. subst index.
        rewrite firstn_app, firstn_all, Nat.sub_diag, skipn_app, skipn_all, Nat.sub_diag.
        cbn. rewrite app_nil_r, <- app_assoc. reflexivity. }
      rewrite Es.
      destruct (IH (S index) (placed ++ [with_ref n item]) rest (S n))
        as (result & n' & E & F).
      { rewrite length_app. cbn. lia. }
      { exact Hrest. }
      exists (with_ref n item :: result), n'.
      rewrite <- (app_assoc placed [with_ref n item] rest).
      rewrite <- (app_assoc placed [with_ref n item] rest),
        <- (app_assoc placed [with_ref n item] result) in E.
      cbn [app] in E |- *. split; [exact E|]. constructor; [|exact F]. split; [reflexivity|]. right. now exists n.
Qed.

(** Two arrays with unique ids and the same ids in the same order, element
    by element. *)
Lemma same_ids_pairwise (kept wanted : list Node) (updated : list Node) (items : list Node) :
  map id kept = map id wanted ->
  (forall i, In i wanted -> In i items) ->
  Forall2 (fun r e => forall i, In i items -> id i = id e -> reproduces r i) updated kept ->
  Forall2 reproduces updated wanted.
Proof.
  intros Hids Hsub F. revert wanted Hids Hsub.
  induction F as [|r e updated kept Hr _ IH]; intros wanted Hids Hsub.
  - destruct wanted; [constructor|discriminate].
  - destruct wanted as [|i wanted]; [discriminate|]. cbn [map] in Hids.
    injection Hids as Hid Hids. constructor.
    + apply Hr; [apply Hsub; now left|now symmetry].
    + apply IH; [exact Hids|]. intros i' Hi'. apply Hsub. now right.
Qed.

(** X27: the diff of the next items against the lookup of the current array
    (unique ids on both sides), applied to the current array by
    [applyChanges], gives the next items back: as many elements, the same ids
    in the same order, each element being the object of its item or a shallow
    copy of it.  This needs the elements that stay to stand in the same order
    in both arrays, since the diff has no change for a move. *)
Theorem diff_apply_reproduces_items :
  forall (elements items : list Node) (lookup : JsMap.t LookupItem) (n : nat),
    NoDup (map id elements) ->
    NoDup (map id items) ->
    builtFrom elements lookup ->
    keptInOrder elements items ->
    Forall2 reproduces
      (fst (applyChanges (getElementsDiffChanges (Some items) lookup) elements n))
      items.
Proof.
  intros elements items lookup n Hnde Hndi Hb Hord.
  pose proof (diff_updates elements items lookup Hnde Hndi Hb elements n (incl_refl _)) as Hu.
  unfold applyChanges.
  pose proof (queueChanges_adds (getElementsDiffChanges (Some items) lookup)) as Ha.
  pose proof (updateElements_by_rule (getElementsDiffChanges (Some items) lookup) elements n)
    as Hr.
  destruct (queueChanges (getElementsDiffChanges (Some items) lookup)) as [changesMap adds].
  cbn [fst snd] in Ha, Hr. unfold bind. rewrite Hr, Ha.
  destruct (elementsByRule (getElementsDiffChanges (Some items) lookup) elements n)
    as [updated n1]. cbn [fst] in Hu.
  unfold getElementsDiffChanges. cbn [orElse].
  rewrite filter_app,
    (proj2 (diffRemoved_kinds
              (JsMap.ofEntries (map (fun item => (id item, item)) items)) lookup ""%string)),
    app_nil_r.
  assert (Hhas : forall i, JsMap.has (id i) lookup = hasId (id i) elements).
  { intros i. unfold JsMap.has. destruct (JsMap.get (id i) lookup) as [li|] eqn:E.
    - symmetry. apply hasId_In. rewrite <- (builtFrom_keys _ _ Hb).
      destruct (in_dec string_dec (id i) (JsMap.keys lookup)) as [Hin|Hn]; [exact Hin|].
      apply get_None_keys in Hn. congruence.
    - symmetry. apply hasId_false. rewrite <- (builtFrom_keys _ _ Hb).
      now apply get_None_keys. }
  assert (Hrest : Forall2 reproduces updated
                    (filter (fun i => JsMap.has (id i) lookup) items)).
  { rewrite (filter_ext _ (fun i => hasId (id i) elements) Hhas).
    apply (same_ids_pairwise (filter (fun e => hasId (id e) items) elements) _ _ items).
    - exact Hord.
    - intros i Hi. apply filter_In in Hi. tauto.
    - exact Hu. }
  destruct (diff_adds lookup items 0 [] updated n1 eq_refl Hrest) as (result & n' & E & F).
  cbn [app] in E. rewrite E. exact F.
Qed.

(** ** Sets of ids *)

Lemma JsSet_has_In (k : string) (s : JsSet.t) : JsSet.has k s = true <-> In k s.
Proof.
  unfold JsSet.has. rewrite existsb_exists. split.
  - intros (k' & Hin & E). apply String.eqb_eq in E. now subst.
  - intros H. exists k. split; [exact H|apply String.eqb_refl].
Qed.

(** X16: on sets (no member twice) [areSetsEqual] tells exactly whether both
    hold the same members: the sizes and the inclusion of the first in the
    second are all that is compared, and they suffice. *)
Theorem areSetsEqual_same_members :
  forall (a b : JsSet.t),
    NoDup a -> NoDup b ->
    (areSetsEqual a b = true <-> forall k, In k a <-> In k b).
Proof.
  intros a b Ha Hb. unfold areSetsEqual, JsSet.size.
  destruct (Nat.eqb (List.length a) (List.length b)) eqn:El; cbn [negb].
  - apply Nat.eqb_eq in El. rewrite forallb_forall. split.
    + intros H k. split.
      * intros Hin. apply JsSet_has_In. exact (H k Hin).
      * intros Hin.
        assert (Hincl : incl a b) by (intros k' Hk'; apply JsSet_has_In; exact (H k' Hk')).
        apply (NoDup_length_incl Ha (Nat.eq_le_incl _ _ (eq_sym El)) Hincl). exact Hin.
    + intros H k Hin. apply JsSet_has_In. now apply H.
  - apply Nat.eqb_neq in El. split; [discriminate|].
    intros H. exfalso. apply El. apply Nat.le_antisymm.
    + apply (NoDup_incl_length Ha). intros k Hk. now apply H.
    + apply (NoDup_incl_length Hb). intros k Hk. now apply H.
Qed.


(** ** Neighbours in the graph *)

Lemma JsSet_has_add (k k' : string) (s : JsSet.t) :
  JsSet.has k (JsSet.add k' s) = (String.eqb k k' || JsSet.has k s).
Proof.
  unfold JsSet.add. destruct (JsSet.has k' s) eqn:E.
  - destruct (String.eqb k k') eqn:Ek; [|reflexivity].
    apply String.eqb_eq in Ek. subst. now rewrite E.
  - unfold JsSet.has. rewrite existsb_app. cbn [existsb].
    rewrite orb_false_r. apply orb_comm.
Qed.

(** Membership in a set that a loop fills with the keys of selected items. *)
Lemma collected_has (A : Type) (sel : A -> bool) (key : A -> string)
  (l : list A) (acc : JsSet.t) (k : string) :
  JsSet.has k
    (fold_left (fun ids a => if sel a then JsSet.add (key a) ids else ids) l acc) = true
  <-> JsSet.has k acc = true \/ exists a, In a l /\ sel a = true /\ key a = k.
Proof.
  revert acc. induction l as [|a l IH]; intros acc; cbn [fold_left].
  - split; [now left|]. intros [H|(a & [] & _)]. exact H.
  - rewrite IH. split.
    + intros [H|(a' & Hin & Hs & Hk)].
      * destruct (sel a) eqn:Es; [|now left].
        rewrite JsSet_has_add in H. apply orb_true_iff in H. destruct H as [H|H]; [|now left].
        apply String.eqb_eq in H. right. exists a. split; [now left|]. now split.
      * right. exists a'. split; [now right|]. now split.
    + intros [H|(a' & [<-|Hin] & Hs & Hk)].
      * left. destruct (sel a); [|exact H]. rewrite JsSet_has_add, H. apply orb_true_r.
      * left. rewrite Hs, JsSet_has_add, <- Hk, String.eqb_refl. reflexivity.
      * right. exists a'. now repeat split.
Qed.

Lemma truthyStr_Some (s : string) : truthyStr (Some s) = true <-> s <> ""%string.
Proof.
  cbn. destruct (String.eqb s "") eqn:E; cbn.
  - apply String.eqb_eq in E. split; [discriminate|]. intros H. now elim H.
  - apply String.eqb_neq in E. split; [intros _; exact E|reflexivity].
Qed.

Lemma getOutgoers_In (n m : Node) (nodes : list Node) (edges : list Edge) :
  id n <> ""%string ->
  (In m (getOutgoers n nodes edges)
   <-> In m nodes /\ exists e, In e edges /\ source e = id n /\ target e = id m).
Proof.
  intros Hn. unfold getOutgoers. rewrite (proj2 (truthyStr_Some (id n)) Hn). cbn [negb].
  rewrite filter_In.
  rewrite (collected_has Edge (fun e => String.eqb (source e) (id n)) target edges [] (id m)).
  split.
  - intros (Hin & [H|(e & He & Hs & Ht)]); [discriminate|].
    apply String.eqb_eq in Hs. split; [exact Hin|]. now exists e.
  - intros (Hin & e & He & Hs & Ht). split; [exact Hin|]. right. exists e.
    split; [exact He|]. split; [now apply String.eqb_eq|exact Ht].
Qed.

Lemma getIncomers_In (n m : Node) (nodes : list Node) (edges : list Edge) :
  id n <> ""%string ->
  (In m (getIncomers n nodes edges)
   <-> In m nodes /\ exists e, In e edges /\ target e = id n /\ source e = id m).
Proof.
  intros Hn. unfold getIncomers. rewrite (proj2 (truthyStr_Some (id n)) Hn). cbn [negb].
  rewrite filter_In.
  rewrite (collected_has Edge (fun e => String.eqb (target e) (id n)) source edges [] (id m)).
  split.
  - intros (Hin & [H|(e & He & Hs & Ht)]); [discriminate|].
    apply String.eqb_eq in Hs. split; [exact Hin|]. now exists e.
  - intros (Hin & e & He & Hs & Ht). split; [exact Hin|]. right. exists e.
    split; [exact He|]. split; [now apply String.eqb_eq|exact Ht].
Qed.

(** X11: for two nodes of the array with non-empty ids, [m] is among the
    outgoers of [n] exactly when [n] is among the incomers of [m], and exactly
    when some edge leads from [n] to [m]. *)
Theorem outgoers_incomers_dual :
  forall (n m : Node) (nodes : list Node) (edges : list Edge),
    id n <> ""%string -> id m <> ""%string ->
    In n nodes -> In m nodes ->
    (In m (getOutgoers n nodes edges) <-> In n (getIncomers m nodes edges))
    /\ (In m (getOutgoers n nodes edges)
        <-> exists e, In e edges /\ source e = id n /\ target e = id m).
Proof.
  intros n m nodes edges Hn Hm Hin Him.
  rewrite (getOutgoers_In n m nodes edges Hn), (getIncomers_In m n nodes edges Hm).
  split; split.
  - intros (_ & e & He & Hs & Ht). split; [exact Hin|]. now exists e.
  - intros (_ & e & He & Ht & Hs). split; [exact Him|]. now exists e.
  - intros (_ & H). exact H.
  - intros H. now split.
Qed.

(** ** Elements to remove *)

Lemma added_has (A : Type) (key : A -> string) (l : list A) (acc : JsSet.t) (k : string) :
  JsSet.has k (fold_left (fun ids a => JsSet.add (key a) ids) l acc) = true
  <-> JsSet.has k acc = true \/ In k (map key l).
Proof.
  revert acc. induction l as [|a l IH]; intros acc; cbn [fold_left map In].
  - tauto.
  - rewrite IH, JsSet_has_add, orb_true_iff, String.eqb_eq. intuition congruence.
Qed.

Lemma JsSet_ofList_In (k : string) (l : list string) :
  JsSet.has k (JsSet.ofList l) = true <-> In k l.
Proof.
  unfold JsSet.ofList.
  rewrite (added_has string (fun s => s) l [] k), map_id. cbn. intuition discriminate.
Qed.

Lemma getConnectedEdges_In (nodes : list Node) (edges : list Edge) (e : Edge) :
  In e (getConnectedEdges nodes edges)
  <-> In e edges /\ exists n, In n nodes /\ (source e = id n \/ target e = id n).
Proof.
  unfold getConnectedEdges. rewrite filter_In, orb_true_iff.
  rewrite !(added_has Node id nodes []), !in_map_iff. cbn [JsSet.has existsb].
  split.
  - intros (He & [[H|(n & E & Hn)]|[H|(n & E & Hn)]]); try discriminate;
      (split; [exact He|]); exists n; (split; [exact Hn|]); [left|right]; congruence.
  - intros (He & n & Hn & [E|E]); (split; [exact He|]); [left|right]; right; exists n;
      split; congruence.
Qed.

(** What the loop over the nodes adds for the next node. *)
Lemma matchNodes_snoc (nodeIds : JsSet.t) (l : list RemovableNode) (node : RemovableNode) :
  matchNodes nodeIds (l ++ [node])
  = if notDeletable (rn_deletable node) then matchNodes nodeIds l
    else if JsSet.has (id (rn_node node)) nodeIds
            || negb (JsSet.has (id (rn_node node)) nodeIds)
               && match parentId (rn_node node) with
                  | Some pid =>
                      truthyStr (Some pid)
                      && existsb (fun n => String.eqb (id (rn_node n)) pid)
                           (matchNodes nodeIds l)
                  | None => false
                  end
         then matchNodes nodeIds l ++ [node]
         else matchNodes nodeIds l.
Proof. unfold matchNodes. rewrite fold_left_app. reflexivity. Qed.

Lemma matchNodes_grows (nodeIds : JsSet.t) (l l' : list RemovableNode) (n : RemovableNode) :
  In n (matchNodes nodeIds l) -> In n (matchNodes nodeIds (l ++ l')).
Proof.
  induction l' as [|a l' IH] using rev_ind; intros H; [now rewrite app_nil_r|].
  rewrite app_assoc, matchNodes_snoc.
  repeat match goal with |- context [if ?b then _ else _] => destruct b end;
    try apply in_or_app; auto.
Qed.

Lemma matchNodes_from (nodeIds : JsSet.t) (l l' : list RemovableNode) (n : RemovableNode) :
  In n (matchNodes nodeIds (l ++ l')) ->
  In n (matchNodes nodeIds l) \/ In n l' /\ notDeletable (rn_deletable n) = false.
Proof.
  induction l' as [|a l' IH] using rev_ind; intros H; [rewrite app_nil_r in H; now left|].
  rewrite app_assoc, matchNodes_snoc in H.
  destruct (notDeletable (rn_deletable a)) eqn:Ed.
  - destruct (IH H) as [H1|(H1 & H2)]; [now left|right]. split; [|exact H2].
    apply in_or_app. now left.
  - match type of H with context [if ?b then _ else _] => destruct b end.
    + apply in_app_or in H. destruct H as [H|[<-|[]]].
      * destruct (IH H) as [H1|(H1 & H2)]; [now left|right]. split; [|exact H2].
        apply in_or_app. now left.
      * right. split; [|exact Ed]. apply in_or_app. right. now left.
    + destruct (IH H) as [H1|(H1 & H2)]; [now left|right]. split; [|exact H2].
      apply in_or_app. now left.
Qed.

Lemma matchNodes_requested (nodeIds : JsSet.t) (l : list RemovableNode) (n : RemovableNode) :
  In n l -> notDeletable (rn_deletable n) = false ->
  JsSet.has (id (rn_node n)) nodeIds = true ->
  In n (matchNodes nodeIds l).
Proof.
  intros Hin Hd Hreq. destruct (in_split n l Hin) as (l1 & l2 & ->).
  change (n :: l2) with ([n] ++ l2). rewrite app_assoc. apply matchNodes_grows.
  rewrite matchNodes_snoc, Hd, Hreq. cbn [orb]. apply in_or_app. right. now left.
Qed.

Lemma matchNodes_child (nodeIds : JsSet.t) (l : list RemovableNode) (p c : RemovableNode) :
  In p (matchNodes nodeIds l) ->
  parentId (rn_node c) = Some (id (rn_node p)) -> id (rn_node p) <> ""%string ->
  notDeletable (rn_deletable c) = false ->
  In c (matchNodes nodeIds (l ++ [c])).
Proof.
  intros Hp Hpid Hne Hd. rewrite matchNodes_snoc, Hd, Hpid.
  rewrite (proj2 (truthyStr_Some _) Hne).
  assert (E : existsb (fun n => String.eqb (id (rn_node n)) (id (rn_node p)))
                (matchNodes nodeIds l) = true).
  { apply existsb_exists. exists p. split; [exact Hp|apply String.eqb_refl]. }
  rewrite E. destruct (JsSet.has (id (rn_node c)) nodeIds); cbn;
    apply in_or_app; right; now left.
Qed.

Lemma matchEdges_keeps (edgeIds : JsSet.t) (deletableEdges acc : list Edge) (e : Edge) :
  In e acc -> In e (matchEdges edgeIds deletableEdges acc).
Proof.
  unfold matchEdges. revert acc. induction deletableEdges as [|a l IH]; intros acc H;
    cbn [fold_left]; [exact H|].
  apply IH. match goal with |- context [if ?b then _ else _] => destruct b end;
    [apply in_or_app; now left|exact H].
Qed.

Lemma matchEdges_from (edgeIds : JsSet.t) (deletableEdges acc : list Edge) (e : Edge) :
  In e (matchEdges edgeIds deletableEdges acc) -> In e acc \/ In e deletableEdges.
Proof.
  unfold matchEdges. revert acc. induction deletableEdges as [|a l IH]; intros acc H;
    cbn [fold_left] in H; [now left|].
  destruct (IH _ H) as [H1|H1]; [|right; now right].
  match type of H1 with context [if ?b then _ else _] => destruct b end;
    [|now left].
  apply in_app_or in H1. destruct H1 as [H1|[<-|[]]]; [now left|right; now left].
Qed.

Lemma matchEdges_requested (edgeIds : JsSet.t) (deletableEdges acc : list Edge) (e : Edge) :
  In e deletableEdges -> JsSet.has (edge_id e) edgeIds = true ->
  exists e', In e' (matchEdges edgeIds deletableEdges acc) /\ edge_id e' = edge_id e.
Proof.
  revert acc. induction deletableEdges as [|a l IH]; intros acc Hin Hreq; [destruct Hin|].
  destruct Hin as [->|Hin]; [|exact (IH _ Hin Hreq)].
  unfold matchEdges. cbn [fold_left]. fold (matchEdges edgeIds l). rewrite Hreq. cbn [andb].
  destruct (existsb (fun e0 => String.eqb (edge_id e0) (edge_id e)) acc) eqn:Ex; cbn [negb].
  - apply existsb_exists in Ex. destruct Ex as (e' & He' & E). apply String.eqb_eq in E.
    exists e'. split; [|exact E]. apply matchEdges_keeps. exact He'.
  - exists e. split; [|reflexivity]. apply matchEdges_keeps. apply in_or_app. right. now left.
Qed.

(** X12: what [getElementsToRemove] returns without [onBeforeDelete], for
    nodes with unique ids.  The nodes are nodes of the array that are not
    marked [deletable: false]; every requested one of these is among them, and
    so is every one of these that names as its parent a returned node standing
    before it in the array.  The edges are edges of the array that are not
    marked [deletable: false]; every one of these that starts or ends at a
    returned node is among them, and for every requested one an edge with its
    id is. *)
Theorem getElementsToRemove_cascade :
  forall (nodesToRemove edgesToRemove : list string)
         (nodes : list RemovableNode) (edges : list Edge),
    NoDup (map (fun n => id (rn_node n)) nodes) ->
    let removed := getElementsToRemove nodesToRemove edgesToRemove nodes edges None in
    (forall n, In n (fst removed) -> In n nodes /\ notDeletable (rn_deletable n) = false)
    /\ (forall n, In n nodes -> notDeletable (rn_deletable n) = false ->
          In (id (rn_node n)) nodesToRemove -> In n (fst removed))
    /\ (forall before p between c after,
          nodes = before ++ p :: between ++ c :: after ->
          In p (fst removed) ->
          parentId (rn_node c) = Some (id (rn_node p)) -> id (rn_node p) <> ""%string ->
          notDeletable (rn_deletable c) = false ->
          In c (fst removed))
    /\ (forall e, In e (snd removed) ->
          In e edges /\ notDeletable (edge_deletable e) = false)
    /\ (forall e n, In e edges -> notDeletable (edge_deletable e) = false ->
          In n (fst removed) ->
          source e = id (rn_node n) \/ target e = id (rn_node n) ->
          In e (snd removed))
    /\ (forall e, In e edges -> notDeletable (edge_deletable e) = false ->
          In (edge_id e) edgesToRemove ->
          exists e', In e' (snd removed) /\ edge_id e' = edge_id e).
Proof.
  intros nodesToRemove edgesToRemove nodes edges Hnd removed. subst removed.
  unfold getElementsToRemove. cbn [fst snd].
  set (nodeIds := JsSet.ofList nodesToRemove).
  set (edgeIds := JsSet.ofList edgesToRemove).
  set (deletableEdges := filter (fun edge => negb (notDeletable (edge_deletable edge))) edges).
  assert (Hdel : forall e, In e deletableEdges
                           <-> In e edges /\ notDeletable (edge_deletable e) = false).
  { intros e. unfold deletableEdges. rewrite filter_In, negb_true_iff. tauto. }
  split; [|split; [|split; [|split; [|split]]]].
  - intros n H. destruct (matchNodes_from nodeIds [] nodes n H) as [[]|H1]. exact H1.
  - intros n Hin Hd Hreq. apply matchNodes_requested; try assumption.
    now apply JsSet_ofList_In.
  - intros before p between c after -> Hp Hpid Hne Hd.
    assert (Hnot : ~ In p (c :: after)).
    { intros Hc. rewrite map_app in Hnd. cbn [map] in Hnd.
      apply NoDup_remove_2 in Hnd. apply Hnd. apply in_or_app. right.
      rewrite map_app. apply in_or_app. right.
      exact (in_map (fun n => id (rn_node n)) _ p Hc). }
    replace (before ++ p :: between ++ c :: after)
      with (((before ++ p :: between) ++ [c]) ++ after) in *
      by (rewrite <- !app_assoc; reflexivity).
    apply matchNodes_grows. apply (matchNodes_child nodeIds _ p c); try assumption.
    rewrite <- app_assoc in Hp.
    destruct (matchNodes_from nodeIds (before ++ p :: between) ([c] ++ after) p Hp)
      as [H1|(H1 & _)]; [exact H1|].
    elim Hnot. exact H1.
  - intros e H. apply Hdel. destruct (matchEdges_from _ _ _ _ H) as [H1|H1]; [|exact H1].
    apply getConnectedEdges_In in H1. tauto.
  - intros e n He Hd Hn Hends. apply matchEdges_keeps. apply getConnectedEdges_In.
    split; [now apply Hdel|]. exists (rn_node n). split; [now apply in_map|exact Hends].
  - intros e He Hd Hreq. apply matchEdges_requested; [now apply Hdel|].
    now apply JsSet_ofList_In.
Qed.

(** ** Position of a dragged node *)

(** X14: [calculateNodePosition] in double arithmetic for a node with
    [extent: 'parent'] and no [expandParent], whose parent is in the lookup at
    a finite position with a finite measured size that is not zero, and whose
    own measured size is finite: whatever position is asked for (NaN apart),
    no error is reported, the absolute position returned is on each axis at
    most the bound [parentPosition + parentSize - size] as the code computes
    it and at least the parent's position whenever that bound is, and the
    relative position returned is the absolute one taken from the parent's
    corner and shifted back by the origin. *)
Theorem calculateNodePosition_within_parent :
  forall (nodeLookup : NodeLookup) (nodeId pid : string) (node parent : InternalNode)
         (nextPosition : XYPosition) (nodeOrigin : option NodeOrigin)
         (nodeExtent : option CoordinateExtent) (pW pH w h : num),
    JsMap.get nodeId nodeLookup = Some node ->
    parentId (base node) = Some pid -> pid <> ""%string ->
    JsMap.get pid nodeLookup = Some parent ->
    extent (base node) = Some ExtentParent ->
    truthyBool (expandParent (base node)) = false ->
    finitePosition (positionAbsolute (internals parent)) ->
    measured (base parent) = Some {| pwidth := Some pW; pheight := Some pH |} ->
    finite pW -> finite pH -> truthy pW = true -> truthy pH = true ->
    measured (base node) = Some {| pwidth := Some w; pheight := Some h |} ->
    finite w -> finite h ->
    is_nan (x nextPosition) = false -> is_nan (y nextPosition) = false ->
    let corner := positionAbsolute (internals parent) in
    let origin := orElse (origin (base node)) (orElse nodeOrigin (zero, zero)) in
    let bound :=
      {| x := F64.sub (F64.add (x corner) pW) w;
         y := F64.sub (F64.add (y corner) pH) h |} in
    exists placed,
      F64Graph.calculateNodePosition nodeId nextPosition nodeLookup nodeOrigin nodeExtent
      = Some
          {| np_position :=
               {| x := F64.add (F64.sub (x placed) (x corner)) (F64.mul w (fst origin));
                  y := F64.add (F64.sub (y placed) (y corner)) (F64.mul h (snd origin)) |};
             np_positionAbsolute := placed;
             np_errors := [] |}
      /\ num_le (x placed) (x bound) /\ num_le (y placed) (y bound)
      /\ (num_le (x corner) (x bound) -> num_le (x corner) (x placed))
      /\ (num_le (y corner) (y bound) -> num_le (y corner) (y placed)).
Proof.
  intros nodeLookup nodeId pid node parent nextPosition nodeOrigin nodeExtent
    pW pH w h Hnode Hpid Hne Hparent Hext Hexp [Hpx Hpy] Hpm FpW FpH TW TH Hm Fw Fh
    Hnx Hny corner origin bound.
  unfold F64Graph.calculateNodePosition. rewrite Hnode, Hpid.
  rewrite (proj2 (truthyStr_Some pid) Hne), Hparent, Hext, Hexp. cbn [andb negb].
  unfold measuredWidth, measuredHeight. rewrite Hpm, Hm.
  cbn [pwidth pheight]. rewrite TW, TH. cbn [negb andb orElse].
  fold corner origin.
  assert (Bx : is_nan (x bound) = false).
  { apply sub_defined_r; [|exact Fw]. apply add_defined_l; [exact Hpx|].
    now apply finite_not_nan. }
  assert (By : is_nan (y bound) = false).
  { apply sub_defined_r; [|exact Fh]. apply add_defined_l; [exact Hpy|].
    now apply finite_not_nan. }
  eexists. split; [reflexivity|].
  unfold F64.clampPosition. cbn [orElse fst snd x y pwidth pheight].
  change (F64.sub (F64.add (x corner) pW) w) with (x bound).
  change (F64.sub (F64.add (y corner) pH) h) with (y bound).
  split; [apply clamp_below_upper; auto using finite_not_nan|].
  split; [apply clamp_below_upper; auto using finite_not_nan|].
  split; intros L; apply clamp_above_lower; assumption.
Qed.

(* ------------------------------------------------------------------------- *)
(** ** Auto panning *)

Lemma abs_defined (a : num) : is_nan a = false -> is_nan (JsMath.abs a) = false.
Proof. now destruct a. Qed.

Lemma ltb_sub_defined (a b : num) : ltb a b = true -> is_nan (F64.sub a b) = false.
Proof.
  intros H. unfold F64.sub. apply round_defined.
  destruct a, b; try discriminate; reflexivity.
Qed.

Lemma gtb_sub_defined (a b : num) : gtb a b = true -> is_nan (F64.sub a b) = false.
Proof.
  intros H. unfold F64.sub. apply round_defined.
  destruct a, b; try discriminate; reflexivity.
Qed.

Lemma div_Fin (c d : Q) : ~ d == 0 -> F64.div (Fin c) (Fin d) = F64.roundQ (c / d).
Proof.
  intros Hd. unfold F64.div. cbn [JsNum.div].
  destruct (d ?= 0) eqn:E; [apply Qeq_alt in E; contradiction| |]; reflexivity.
Qed.

(** Clamping to [[1, d]] and dividing by [d] gives a double in [[0, 1]], and
    its opposite when the clamped value is negated first. *)
Lemma clamp_ratio (v : num) (d : Q) :
  is_nan v = false -> ~ d == 0 ->
  exists q, 0 <= q /\ q <= 1
    /\ F64.div (clamp v (Fin 1) (Fin d)) (Fin d) = Fin q
    /\ F64.div (neg (clamp v (Fin 1) (Fin d))) (Fin d) = Fin (- q).
Proof.
  intros Hv Hd.
  assert (C : exists c, clamp v (Fin 1) (Fin d) = Fin c /\ 0 <= c / d /\ c / d <= 1).
  { assert (K : forall c, 1 <= c -> 0 <= Qmin c d / d /\ Qmin c d / d <= 1).
    { intros c Hc. destruct (Q.min_spec c d) as [[L E]|[L E]]; rewrite E.
      - split.
        + apply Qle_shift_div_l; lra.
        + apply Qle_shift_div_r; lra.
      - assert (D : d / d == 1) by (field; exact Hd). rewrite D. lra. }
    assert (K1 : 0 <= d / d /\ d / d <= 1).
    { assert (D : d / d == 1) by (field; exact Hd). rewrite D. lra. }
    destruct v as [| |v|]; try discriminate; cbn.
    - eexists; split; [reflexivity|]. apply K. lra.
    - eexists; split; [reflexivity|]. apply K. apply Q.le_max_r.
    - eexists; split; [reflexivity|]. exact K1. }
  destruct C as (c & -> & C0 & C1). cbn [neg].
  rewrite !div_Fin by exact Hd.
  assert (O : F64.roundQ (- c / d) = neg (F64.roundQ (c / d))).
  { rewrite <- roundQ_opp. apply roundQ_proper. field. exact Hd. }
  rewrite O.
  destruct (roundQ_between (c / d) 1) as (q & Eq & Q0 & Q1); [lra | lra | reflexivity |].
  pose proof (roundQ_nonneg (c / d) C0) as N. rewrite Eq in *.
  exists q. repeat split; [exact N | exact Q1].
Qed.

(** The velocity is a double in [[-1, 1]] whatever the position and the far
    edge are, as long as the distance is a number other than zero. *)
Lemma calcAutoPanVelocity_range (value mx : num) (d : Q) :
  ~ d == 0 ->
  exists q, F64Utils.calcAutoPanVelocity value (Fin d) mx = Fin q /\ - (1) <= q /\ q <= 1.
Proof.
  intros Hd. unfold F64Utils.calcAutoPanVelocity.
  destruct (ltb value (Fin d)) eqn:L.
  - assert (V : is_nan (JsMath.abs (F64.sub value (Fin d))) = false).
    { apply abs_defined. now apply ltb_sub_defined. }
    destruct (clamp_ratio _ d V Hd) as (q & Q0 & Q1 & E & _).
    exists q. split; [exact E|]. lra.
  - destruct (gtb value mx) eqn:G.
    + assert (V : is_nan (JsMath.abs (F64.sub value mx)) = false).
      { apply abs_defined. now apply gtb_sub_defined. }
      destruct (clamp_ratio _ d V Hd) as (q & Q0 & Q1 & _ & E).
      exists (- q). split; [exact E|]. lra.
    + exists 0. split; [reflexivity|]. lra.
Qed.

Lemma mul_within (q s : Q) :
  - (1) <= q -> q <= 1 -> 0 <= s -> representable s ->
  inRange (Fin (- s)) (F64.mul (Fin q) (Fin s)) (Fin s).
Proof.
  intros Q0 Q1 Hs Rs. unfold F64.mul. cbn [JsNum.mul F64.round].
  destruct (roundQ_between (q * s) s) as (m & -> & M0 & M1); [nra | nra | exact Rs |].
  split; exact M0 || exact M1.
Qed.

(** X6: whatever the pointer position and the bounds are, each movement that
    [calcAutoPan] returns lies between [-speed] and [speed] in double
    arithmetic, for a speed that is a non-negative double and a distance
    that is a number other than zero; on an axis where the position is
    neither below the distance nor above [size - distance] the movement is
    zero. *)
Theorem calcAutoPan_within_speed :
  forall (pos : XYPosition) (bounds : Dimensions) (speed distance : option num) (s d : Q),
    orElse speed (Fin 15) = Fin s -> orElse distance (Fin 40) = Fin d ->
    representable s -> 0 <= s -> ~ d == 0 ->
    let movement := F64Utils.calcAutoPan pos bounds speed distance in
    inRange (Fin (- s)) (fst movement) (Fin s)
    /\ inRange (Fin (- s)) (snd movement) (Fin s)
    /\ (ltb (x pos) (Fin d) = false ->
        gtb (x pos) (F64.sub (width bounds) (Fin d)) = false ->
        fst movement = zero)
    /\ (ltb (y pos) (Fin d) = false ->
        gtb (y pos) (F64.sub (height bounds) (Fin d)) = false ->
        snd movement = zero).
Proof.
  intros pos bounds speed distance s d Es Ed Rs Hs Hd movement.
  subst movement. unfold F64Utils.calcAutoPan. rewrite Es, Ed. cbn [fst snd].
  assert (Z : F64.mul zero (Fin s) = zero).
  { unfold F64.mul, zero. cbn [JsNum.mul F64.round].
    rewrite (roundQ_proper (0 * s) 0) by ring. reflexivity. }
  repeat split.
  - destruct (calcAutoPanVelocity_range (x pos) (F64.sub (width bounds) (Fin d)) d Hd)
      as (q & -> & Q0 & Q1).
    now apply mul_within.
  - destruct (calcAutoPanVelocity_range (x pos) (F64.sub (width bounds) (Fin d)) d Hd)
      as (q & -> & Q0 & Q1).
    now apply mul_within.
  - destruct (calcAutoPanVelocity_range (y pos) (F64.sub (height bounds) (Fin d)) d Hd)
      as (q & -> & Q0 & Q1).
    now apply mul_within.
  - destruct (calcAutoPanVelocity_range (y pos) (F64.sub (height bounds) (Fin d)) d Hd)
      as (q & -> & Q0 & Q1).
    now apply mul_within.
  - intros L G. unfold F64Utils.calcAutoPanVelocity. rewrite L, G. exact Z.
  - intros L G. unfold F64Utils.calcAutoPanVelocity. rewrite L, G. exact Z.
Qed.

(** ** The queue handlers *)

(** X20: a payload that is an array replaces whatever the items queued
    before it produced: both queue handlers dispatch what the items after the
    last array payload make of that array. *)
Theorem queue_array_payload_resets :
  forall (before after : list (QueueItem Node)) (items : list Node),
    (forall current, reduceQueue current (before ++ Payload items :: after)
                     = reduceQueue items after)
    /\ (forall store, s_hasDefaultNodes store = true ->
          nodeQueueHandler store (before ++ Payload items :: after)
          = SetNodes (reduceQueue items after))
    /\ (forall store, s_hasDefaultNodes store = false -> s_onNodesChange store = true ->
          nodeQueueHandler store (before ++ Payload items :: after)
          = OnNodesChange
              (getElementsDiffChanges (Some (reduceQueue items after))
                 (asItems (s_nodeLookup store))))
    /\ (forall store, s_hasDefaultEdges store = true ->
          edgeQueueHandler store (before ++ Payload items :: after)
          = SetEdges (reduceQueue items after))
    /\ (forall store, s_hasDefaultEdges store = false -> s_onEdgesChange store = true ->
          edgeQueueHandler store (before ++ Payload items :: after)
          = OnEdgesChange
              (getElementsDiffChanges (Some (reduceQueue items after))
                 (s_edgeLookup store))).
Proof.
  intros before after items.
  assert (R : forall current, reduceQueue current (before ++ Payload items :: after)
                              = reduceQueue items after).
  { intros current. unfold reduceQueue. rewrite fold_left_app. reflexivity. }
  split; [exact R|].
  unfold nodeQueueHandler, edgeQueueHandler.
  repeat split; intros store; intros; rewrite R;
    repeat match goal with H : _ = _ |- _ => rewrite H end; reflexivity.
Qed.

(** ** Selection changes applied *)

Lemma isSelect_kinds (changes : list Change) (k : string) :
  (forall c, In c changes -> isSelect c = true) ->
  lastSuperseding k changes = None
  /\ filter isAdd changes = [].
Proof.
  intros H. split.
  - apply lastSuperseding_none. intros c Hc. specialize (H c Hc). destruct c; cbn in *; congruence.
  - apply filter_none. intros c Hc. specialize (H c Hc). destruct c; cbn in *; congruence.
Qed.

(** Applying the selection changes for [k] one after the other. *)
Lemma fold_selects (k : string) (changes : list Change) (e0 : Node) :
  (forall c, In c changes -> isSelect c = true) ->
  id (fold_left (fun e change => applyChange change e) (filter (accumulates k) changes) e0)
  = id e0
  /\ selected
       (fold_left (fun e change => applyChange change e) (filter (accumulates k) changes) e0)
     = selectionAfter k changes (selected e0).
Proof.
  revert e0. induction changes as [|c changes IH]; intros e0 H; [now split|].
  assert (H' : forall c', In c' changes -> isSelect c' = true)
    by (intros c' Hc'; apply H; now right).
  pose proof (H c (or_introl eq_refl)) as Hc.
  destruct c as [| | |k' b| |]; try discriminate. cbn [filter accumulates selectionAfter].
  destruct (String.eqb k k'); [|exact (IH e0 H')].
  cbn [fold_left applyChange]. destruct (IH (with_selected (Some b) e0) H') as (I1 & I2).
  now split.
Qed.

(** What [applyChanges] does with selection changes only: every element stays
    in its place, with its id, and with the [selected] property that the
    changes for its id leave. *)
Lemma applyChanges_selects (changes : list Change) (elements : list Node) (n : nat) :
  (forall c, In c changes -> isSelect c = true) ->
  Forall2
    (fun e e' => id e' = id e /\ selected e' = selectionAfter (id e) changes (selected e))
    elements (fst (applyChanges changes elements n)).
Proof.
  intros H. unfold applyChanges.
  pose proof (queueChanges_adds changes) as Ha.
  pose proof (updateElements_by_rule changes elements) as Hu.
  destruct (queueChanges changes) as [changesMap addItemChanges]. cbn [fst snd] in Ha, Hu.
  unfold bind. rewrite Hu, Ha, (proj2 (isSelect_kinds changes ""%string H)). clear Hu Ha.
  assert (G : forall m, Forall2
                (fun e e' => id e' = id e
                             /\ selected e' = selectionAfter (id e) changes (selected e))
                elements (fst (elementsByRule changes elements m))).
  { induction elements as [|e elements IH]; intros m; [constructor|].
    cbn [elementsByRule]. unfold bind, elementByRule.
    rewrite (proj1 (isSelect_kinds changes (id e) H)).
    destruct (fold_selects (id e) changes e H) as (F1 & F2).
    destruct (fold_selects (id e) changes (with_ref m e) H) as (F3 & F4).
    destruct (filter (accumulates (id e)) changes) as [|c cs] eqn:Ef.
    - unfold ret. specialize (IH m). destruct (elementsByRule changes elements m) as [outs m'].
      cbn [fst app]. constructor; [|exact IH]. split; [reflexivity|]. now rewrite <- F2.
    - unfold copy, ret, bind. cbv beta iota zeta. specialize (IH (S m)).
      destruct (elementsByRule changes elements (S m)) as [outs m'].
      cbn [fst app]. constructor; [|exact IH]. split; [exact F3|exact F4]. }
  specialize (G n). destruct (elementsByRule changes elements n) as [updated n'].
  exact G.
Qed.

Lemma Forall2_ids (elements result : list Node) (P : Node -> Node -> Prop) :
  Forall2 (fun e e' => id e' = id e /\ P e e') elements result ->
  map id result = map id elements.
Proof. induction 1 as [|e e' l l' [H _] _ IH]; cbn; congruence. Qed.

Lemma Forall2_results (elements result : list Node) (R : Node -> Node -> Prop)
  (P : Node -> Prop) :
  Forall2 (fun e e' => id e' = id e /\ R e e') elements result ->
  (forall e e', In e elements -> id e' = id e -> R e e' -> P e') ->
  forall x, In x result -> P x.
Proof.
  induction 1 as [|e e' l l' [Hid Hr] _ IH]; intros G x Hx; [destruct Hx|].
  destruct Hx as [<-|Hx].
  - exact (G e e' (or_introl eq_refl) Hid Hr).
  - apply IH; [|exact Hx]. intros a a' Ha. apply G. now right.
Qed.

(** *** Unselecting everything *)

Lemma unselectChanges_map (elements : list Node) :
  unselectChanges elements
  = map (fun e => ChSelect (id e) false)
      (filter (fun e => truthyBool (selected e)) elements).
Proof.
  unfold unselectChanges.
  assert (G : forall acc,
             fold_left
               (fun res element =>
                  if truthyBool (selected element)
                  then res ++ [createSelectionChange (id element) false] else res)
               elements acc
             = acc ++ map (fun e => ChSelect (id e) false)
                        (filter (fun e => truthyBool (selected e)) elements)).
  { induction elements as [|e elements IH]; intros acc; cbn [fold_left filter map].
    - now rewrite app_nil_r.
    - rewrite IH. destruct (truthyBool (selected e)); [|reflexivity].
      cbn [map]. now rewrite <- app_assoc. }
  exact (G []).
Qed.

Lemma selectionAfter_unselect (k : string) (ids : list string) (current : option bool) :
  selectionAfter k (map (fun k' => ChSelect k' false) ids) current
  = if existsb (String.eqb k) ids then Some false else current.
Proof.
  revert current. induction ids as [|k' ids IH]; intros current; [reflexivity|].
  cbn [map selectionAfter existsb]. rewrite IH.
  destruct (String.eqb k k'), (existsb (String.eqb k) ids); reflexivity.
Qed.

(** After the changes of [unselectChanges] no element is selected. *)
Lemma unselect_applied (elements : list Node) (n : nat) :
  map id (fst (applyChanges (unselectChanges elements) elements n)) = map id elements
  /\ forall e, In e (fst (applyChanges (unselectChanges elements) elements n)) ->
       truthyBool (selected e) = false.
Proof.
  assert (Hs : forall c, In c (unselectChanges elements) -> isSelect c = true).
  { rewrite unselectChanges_map. intros c Hc. apply in_map_iff in Hc.
    destruct Hc as (e & <- & _). reflexivity. }
  pose proof (applyChanges_selects _ elements n Hs) as F.
  split; [exact (Forall2_ids _ _ _ F)|].
  apply (Forall2_results _ _ _ _ F).
  intros e e' Hin _ ->. rewrite unselectChanges_map.
  rewrite <- (map_map id (fun k => ChSelect k false)), selectionAfter_unselect.
  destruct (existsb _ _) eqn:Ex; [reflexivity|].
  destruct (truthyBool (selected e)) eqn:Et; [|reflexivity].
  exfalso. apply Bool.not_true_iff_false in Ex. apply Ex.
  apply existsb_exists. exists (id e). split; [|apply String.eqb_refl].
  apply in_map. apply filter_In. now split.
Qed.

Lemma applyChanges_none (elements : list Node) (n : nat) :
  applyChanges [] elements n = (elements, n).
Proof.
  unfold applyChanges, queueChanges, bind. cbn [fold_left].
  assert (G : forall m, updateElements JsMap.empty elements m = (elements, m)).
  { induction elements as [|e elements IH]; intros m; [reflexivity|].
    cbn [updateElements]. unfold bind, updateElement, ret. cbn [JsMap.get JsMap.empty].
    now rewrite IH. }
  rewrite G. reflexivity.
Qed.

(** What the trigger functions leave in the store of an uncontrolled flow. *)
Lemma triggerNodeChanges_nodes (nodeExtent : option CoordinateExtent)
  (changes : list Change) (s : FlowStore) :
  fs_hasDefaultNodes s = true ->
  fs_nodes (triggerNodeChanges nodeExtent changes s)
  = fst (applyChanges changes (fs_nodes s) (fs_nextRef s))
  /\ fs_edges (triggerNodeChanges nodeExtent changes s) = fs_edges s
  /\ fs_hasDefaultEdges (triggerNodeChanges nodeExtent changes s) = fs_hasDefaultEdges s
  /\ fs_hasDefaultNodes (triggerNodeChanges nodeExtent changes s) = true.
Proof.
  intros Hd. unfold triggerNodeChanges. destruct changes as [|c changes].
  - rewrite applyChanges_none. now repeat split.
  - rewrite Hd. unfold applyNodeChanges.
    destruct (applyChanges (c :: changes) (fs_nodes s) (fs_nextRef s)) as [updated r].
    now repeat split.
Qed.

Lemma triggerEdgeChanges_edges (changes : list Change) (s : FlowStore) :
  fs_hasDefaultEdges s = true ->
  fs_edges (triggerEdgeChanges changes s)
  = fst (applyChanges changes (fs_edges s) (fs_nextRef s))
  /\ fs_nodes (triggerEdgeChanges changes s) = fs_nodes s
  /\ fs_hasDefaultEdges (triggerEdgeChanges changes s) = true
  /\ fs_hasDefaultNodes (triggerEdgeChanges changes s) = fs_hasDefaultNodes s.
Proof.
  intros Hd. unfold triggerEdgeChanges. destruct changes as [|c changes].
  - rewrite applyChanges_none. now repeat split.
  - rewrite Hd. unfold applyEdgeChanges.
    destruct (applyChanges (c :: changes) (fs_edges s) (fs_nextRef s)) as [updated r].
    now repeat split.
Qed.

Lemma unselectChanges_none (elements : list Node) :
  (forall e, In e elements -> truthyBool (selected e) = false) ->
  unselectChanges elements = [].
Proof.
  intros H. rewrite unselectChanges_map, filter_none; [reflexivity|exact H].
Qed.

(** X25: [resetSelectedElements] in a flow that keeps its own nodes and edges
    ([hasDefaultNodes], [hasDefaultEdges]): afterwards the store has the same
    nodes and edges by id, in the same order, none of them selected, and a
    second call changes nothing. *)
Theorem resetSelectedElements_unselects :
  forall (nodeExtent : option CoordinateExtent) (s : FlowStore),
    fs_hasDefaultNodes s = true -> fs_hasDefaultEdges s = true ->
    map id (fs_nodes (resetSelectedElements nodeExtent s)) = map id (fs_nodes s)
    /\ map id (fs_edges (resetSelectedElements nodeExtent s)) = map id (fs_edges s)
    /\ (forall n, In n (fs_nodes (resetSelectedElements nodeExtent s)) ->
          truthyBool (selected n) = false)
    /\ (forall e, In e (fs_edges (resetSelectedElements nodeExtent s)) ->
          truthyBool (selected e) = false)
    /\ resetSelectedElements nodeExtent (resetSelectedElements nodeExtent s)
       = resetSelectedElements nodeExtent s.
Proof.
  intros nodeExtent s Hn He.
  assert (Hnodes : fs_nodes (resetSelectedElements nodeExtent s)
                   = fst (applyChanges (unselectChanges (fs_nodes s)) (fs_nodes s)
                            (fs_nextRef s))).
  { unfold resetSelectedElements.
    destruct (triggerNodeChanges_nodes nodeExtent (unselectChanges (fs_nodes s)) s Hn)
      as (T1 & T2 & T3 & T4).
    destruct (triggerEdgeChanges_edges (unselectChanges (fs_edges s))
                (triggerNodeChanges nodeExtent (unselectChanges (fs_nodes s)) s)
                ltac:(congruence)) as (_ & E2 & _).
    congruence. }
  assert (Hedges : exists r, fs_edges (resetSelectedElements nodeExtent s)
                             = fst (applyChanges (unselectChanges (fs_edges s)) (fs_edges s) r)).
  { unfold resetSelectedElements.
    destruct (triggerNodeChanges_nodes nodeExtent (unselectChanges (fs_nodes s)) s Hn)
      as (T1 & T2 & T3 & T4).
    destruct (triggerEdgeChanges_edges (unselectChanges (fs_edges s))
                (triggerNodeChanges nodeExtent (unselectChanges (fs_nodes s)) s)
                ltac:(congruence)) as (E1 & _).
    rewrite T2 in E1. eexists. exact E1. }
  destruct Hedges as (r & Hedges).
  destruct (unselect_applied (fs_nodes s) (fs_nextRef s)) as (N1 & N2).
  destruct (unselect_applied (fs_edges s) r) as (E1 & E2).
  rewrite <- Hnodes in N1, N2. rewrite <- Hedges in E1, E2.
  split; [exact N1|]. split; [exact E1|]. split; [exact N2|]. split; [exact E2|].
  unfold resetSelectedElements at 1.
  rewrite (unselectChanges_none _ N2), (unselectChanges_none _ E2). reflexivity.
Qed.

(** *** Selecting a set of ids *)

Lemma selectionAfter_other (k : string) (changes : list Change) (current : option bool) :
  (forall c, In c changes -> aboutId k c = false) ->
  selectionAfter k changes current = current.
Proof.
  revert current. induction changes as [|c changes IH]; intros current H; [reflexivity|].
  pose proof (H c (or_introl eq_refl)) as Hc.
  assert (H' : forall c', In c' changes -> aboutId k c' = false)
    by (intros c' Hc'; apply H; now right).
  destruct c; cbn [selectionAfter]; try exact (IH current H').
  cbn in Hc. rewrite String.eqb_sym in Hc. rewrite Hc. exact (IH current H').
Qed.

Lemma getSelectionChanges_about (items : JsMap.t LookupItem) (selectedIds : list string)
  (mutateItem : bool) (c : Change) :
  In c (fst (getSelectionChanges items selectedIds mutateItem)) ->
  exists k item b, In (k, item) items /\ c = ChSelect (itemId item) b.
Proof.
  induction items as [|[k item] items IH]; cbn [getSelectionChanges]; [intros []|].
  destruct (getSelectionChanges items selectedIds mutateItem) as [changes rest].
  cbn [fst] in IH.
  destruct (_ && _); cbn [fst]; intros Hc.
  - destruct Hc as [<-|Hc].
    + exists k, item, (existsb (String.eqb k) selectedIds). split; [now left|reflexivity].
    + destruct (IH Hc) as (k' & item' & b & Hin & E). exists k', item', b. split; [now right|exact E].
  - destruct (IH Hc) as (k' & item' & b & Hin & E). exists k', item', b. split; [now right|exact E].
Qed.

Lemma mirrors_ids (elements : list Node) (lookup : JsMap.t LookupItem)
  (k : string) (item : LookupItem) :
  mirrors elements lookup -> In (k, item) lookup -> In (itemId item) (map id elements).
Proof.
  induction 1 as [|e kv l l' (H1 & H2 & H3) _ IH]; intros Hin; [destruct Hin|].
  destruct Hin as [->|Hin]; cbn [map]; [left; symmetry; exact H2|right; exact (IH Hin)].
Qed.

(** The selection that the changes of [getSelectionChanges] leave for an
    element that the lookup mirrors. *)
Lemma selection_for (elements : list Node) (lookup : JsMap.t LookupItem)
  (selectedIds : list string) (mutateItem : bool) (e : Node) :
  NoDup (map id elements) -> mirrors elements lookup -> In e elements ->
  truthyBool
    (selectionAfter (id e) (fst (getSelectionChanges lookup selectedIds mutateItem))
       (selected e))
  = JsSet.has (id e) selectedIds.
Proof.
  intros Hnd Hm. revert Hnd. induction Hm as [|e0 [k item] l l' (H1 & H2 & H3) Hm IH];
    intros Hnd Hin; [destruct Hin|].
  cbn [fst snd] in H1, H2, H3. subst k. cbn [map] in Hnd. apply NoDup_cons_iff in Hnd.
  destruct Hnd as (Hfresh & Hnd). cbn [getSelectionChanges].
  pose proof (getSelectionChanges_about l' selectedIds mutateItem) as Habout.
  destruct (getSelectionChanges l' selectedIds mutateItem) as [changes rest].
  cbn [fst] in IH, Habout. unfold JsSet.has.
  assert (Hother : forall c, In c changes -> aboutId (id e0) c = false).
  { intros c Hc. destruct (Habout c Hc) as (k' & item' & b & Hin' & ->). cbn.
    apply String.eqb_neq. intros E. apply Hfresh. rewrite <- E.
    exact (mirrors_ids _ _ _ _ Hm Hin'). }
  destruct Hin as [<-|Hin].
  - rewrite H3.
    destruct (negb match selected e0 with
                   | Some _ => false
                   | None => negb (existsb (String.eqb (id e0)) selectedIds)
                   end
              && selectedDiffers (selected e0) (existsb (String.eqb (id e0)) selectedIds))
      eqn:En; unfold createSelectionChange; cbn [fst selectionAfter].
    + rewrite H2, String.eqb_refl, (selectionAfter_other _ _ _ Hother). reflexivity.
    + rewrite (selectionAfter_other _ _ _ Hother).
      destruct (selected e0) as [[|]|], (existsb (String.eqb (id e0)) selectedIds);
        cbn in *; congruence.
  - assert (Hne : String.eqb (id e) (itemId item) = false).
    { rewrite H2. apply String.eqb_neq. intros E. apply Hfresh. rewrite <- E.
      now apply in_map. }
    destruct (_ && _); unfold createSelectionChange; cbn [fst selectionAfter];
      rewrite ?Hne; exact (IH Hnd Hin).
Qed.

Lemma buildEdgeLookup_mirrors (edges : list Node) :
  NoDup (map id edges) -> mirrors edges (buildEdgeLookup edges).
Proof.
  unfold buildEdgeLookup. intros Hnd.
  assert (G : forall (done todo : list Node) (m : JsMap.t LookupItem),
             NoDup (map id (done ++ todo)) -> mirrors done m ->
             mirrors (done ++ todo)
               (fold_left (fun m e => JsMap.set (id e) (Plain e) m) todo m)).
  { intros done todo. revert done. induction todo as [|e todo IH]; intros done m Hn Hm.
    - now rewrite app_nil_r.
    - cbn [fold_left]. change (e :: todo) with ([e] ++ todo). rewrite app_assoc.
      apply IH; [now rewrite <- app_assoc|].
      assert (Hfresh : ~ In (id e) (map id done)).
      { rewrite map_app in Hn. cbn [map] in Hn. apply NoDup_remove_2 in Hn.
        intros Hin. apply Hn. apply in_or_app. now left. }
      clear Hn IH. induction Hm as [|e0 [k0 li0] l l' (H1 & H2 & H3) Hm IHm].
      + cbn. constructor; [now repeat split|constructor].
      + cbn [fst] in H1. cbn [JsMap.set app]. cbn [map] in Hfresh.
        destruct (String.eqb (id e) k0) eqn:E.
        * apply String.eqb_eq in E. exfalso. apply Hfresh. left. congruence.
        * constructor; [now repeat split|]. apply IHm. intros Hin. apply Hfresh. now right. }
  exact (G [] edges JsMap.empty Hnd (Forall2_nil _)).
Qed.

(** X26: the changes that [getSelectionChanges] returns for a lookup that
    holds the elements of an array with unique ids (as the edge lookup does
    after [setEdges]), applied to that array by [applyChanges]: the array keeps
    its elements by id and order, and an element is selected afterwards exactly
    if its id is in [selectedIds]. *)
Theorem selection_changes_applied :
  forall (elements : list Node) (lookup : JsMap.t LookupItem) (selectedIds : list string)
         (mutateItem : bool) (n : nat),
    NoDup (map id elements) ->
    mirrors elements lookup ->
    map id
      (fst (applyChanges (fst (getSelectionChanges lookup selectedIds mutateItem))
              elements n))
    = map id elements
    /\ (forall e,
          In e (fst (applyChanges (fst (getSelectionChanges lookup selectedIds mutateItem))
                       elements n)) ->
          truthyBool (selected e) = JsSet.has (id e) selectedIds)
    /\ mirrors elements (buildEdgeLookup elements).
Proof.
  intros elements lookup selectedIds mutateItem n Hnd Hm.
  assert (Hs : forall c, In c (fst (getSelectionChanges lookup selectedIds mutateItem)) ->
                 isSelect c = true).
  { intros c Hc. destruct (getSelectionChanges_about _ _ _ _ Hc) as (k & item & b & _ & ->).
    reflexivity. }
  pose proof (applyChanges_selects _ elements n Hs) as F.
  split; [exact (Forall2_ids _ _ _ F)|]. split; [|exact (buildEdgeLookup_mirrors _ Hnd)].
  apply (Forall2_results _ _ _ _ F).
  intros e e' Hin Hid ->. rewrite Hid.
  exact (selection_for elements lookup selectedIds mutateItem e Hnd Hm Hin).
Qed.

(** The parent and its far child, adopted into empty lookups. *)
Lemma adoptUserNodes_holds_the_array_witness :
  lookup_wf []
  /\ NoDup (map id sampleFamily)
  /\ JsMap.keys (nodeLookup (adoptUserNodes sampleFamily [] [] None 100))
     = map id sampleFamily
  /\ (forall n, In n sampleFamily ->
        exists i,
          JsMap.get (id n) (nodeLookup (adoptUserNodes sampleFamily [] [] None 100)) = Some i
          /\ id (base i) = id n
          /\ ref (userNode (internals i)) = ref n)
  /\ (forall k, ~ In k (map id sampleFamily) ->
        JsMap.get k (nodeLookup (adoptUserNodes sampleFamily [] [] None 100)) = None).
Proof.
  assert (Hnd : NoDup (map id sampleFamily)).
  { repeat (constructor; [cbn; intuition discriminate|]). constructor. }
  split; [exact lookup_wf_empty|]. split; [exact Hnd|].
  exact (adoptUserNodes_holds_the_array sampleFamily [] [] None 100 lookup_wf_empty Hnd).
Defined.

(** The child of the raised parent is raised with it. *)
Lemma adopted_child_not_below_parent_witness :
  lookup_wf []
  /\ NoDup (map id sampleRaisedFamily)
  /\ truthyStr (parentId sampleChild) = true
  /\ JsMap.get (id sampleRaisedParent) (nodeLookup sampleRaisedAdopted)
     = Some sampleRaisedAdoptedParent
  /\ JsMap.get (id sampleChild) (nodeLookup sampleRaisedAdopted)
     = Some sampleRaisedAdoptedChild
  /\ parentId (base sampleRaisedAdoptedChild) = Some (id sampleRaisedParent)
  /\ is_nan (z (internals sampleRaisedAdoptedParent)) = false
  /\ num_le (z (internals sampleRaisedAdoptedParent)) (z (internals sampleRaisedAdoptedChild))
  /\ z (internals sampleRaisedAdoptedChild) = Fin 5.
Proof.
  assert (Hnd : NoDup (map id sampleRaisedFamily)).
  { repeat (constructor; [cbn; intuition discriminate|]). constructor. }
  split; [exact lookup_wf_empty|]. split; [exact Hnd|]. do 5 (split; [reflexivity|]).
  split; [|vm_compute; reflexivity].
  exact (adopted_child_not_below_parent [] [] [] sampleRaisedParent sampleChild [] [] None
           100 sampleRaisedAdoptedParent sampleRaisedAdoptedChild lookup_wf_empty Hnd
           eq_refl eq_refl eq_refl eq_refl eq_refl).
Defined.

(** A selection change for an id that the array does not have. *)
Lemma applyChanges_unrelated_witness :
  (forall c, In c [ChSelect "z" true] -> isAdd c = false)
  /\ (forall c e, In c [ChSelect "z" true] -> In e sampleElements ->
        aboutId (id e) c = false)
  /\ applyChanges [ChSelect "z" true] sampleElements 7%nat = (sampleElements, 7%nat).
Proof.
  assert (H1 : forall c, In c [ChSelect "z" true] -> isAdd c = false)
    by (intros c [<-|[]]; reflexivity).
  assert (H2 : forall c e, In c [ChSelect "z" true] -> In e sampleElements ->
                 aboutId (id e) c = false)
    by (intros c e [<-|[]] [<-|[<-|[]]]; reflexivity).
  split; [exact H1|]. split; [exact H2|].
  exact (applyChanges_unrelated [ChSelect "z" true] sampleElements 7%nat H1 H2).
Defined.

(* ------------------------------------------------------------------------- *)
(** ** Witness of the diff round trip *)

(** The parent is replaced by a moved copy, the child goes and a node is
    added. *)
Lemma diff_apply_reproduces_items_witness :
  NoDup (map id sampleElements)
  /\ NoDup (map id sampleNextItems)
  /\ builtFrom sampleElements sampleItemLookup
  /\ keptInOrder sampleElements sampleNextItems
  /\ Forall2 reproduces
       (fst (applyChanges (getElementsDiffChanges (Some sampleNextItems) sampleItemLookup)
               sampleElements 200%nat))
       sampleNextItems.
Proof.
  assert (Hnd : NoDup (map id sampleElements)).
  { repeat (constructor; [cbn; intuition discriminate|]). constructor. }
  assert (Hnd' : NoDup (map id sampleNextItems)).
  { repeat (constructor; [cbn; intuition discriminate|]). constructor. }
  assert (Hb : builtFrom sampleElements sampleItemLookup).
  { apply adoptUserNodes_builtFrom; [exact lookup_wf_empty|exact Hnd]. }
  assert (Hord : keptInOrder sampleElements sampleNextItems) by reflexivity.
  split; [exact Hnd|]. split; [exact Hnd'|]. split; [exact Hb|]. split; [exact Hord|].
  exact (diff_apply_reproduces_items sampleElements sampleNextItems sampleItemLookup 200
           Hnd Hnd' Hb Hord).
Defined.
(** The same two ids in another order. *)
Lemma areSetsEqual_same_members_witness :
  NoDup ["a"%string; "b"%string] /\ NoDup ["b"%string; "a"%string]
  /\ (areSetsEqual ["a"%string; "b"%string] ["b"%string; "a"%string] = true
      <-> forall k, In k ["a"%string; "b"%string] <-> In k ["b"%string; "a"%string]).
Proof.
  assert (H1 : NoDup ["a"%string; "b"%string]).
  { constructor; [intros [H|[]]; discriminate|]. constructor; [intros []|constructor]. }
  assert (H2 : NoDup ["b"%string; "a"%string]).
  { constructor; [intros [H|[]]; discriminate|]. constructor; [intros []|constructor]. }
  split; [exact H1|]. split; [exact H2|].
  exact (areSetsEqual_same_members _ _ H1 H2).
Defined.

(** The parent, its child and the edge between them. *)
Lemma outgoers_incomers_dual_witness :
  id sampleParentOld <> ""%string /\ id sampleChild <> ""%string
  /\ In sampleParentOld [sampleParentOld; sampleChild]
  /\ In sampleChild [sampleParentOld; sampleChild]
  /\ (In sampleChild (getOutgoers sampleParentOld [sampleParentOld; sampleChild] [sampleEdge])
      <-> In sampleParentOld
            (getIncomers sampleChild [sampleParentOld; sampleChild] [sampleEdge]))
  /\ (In sampleChild (getOutgoers sampleParentOld [sampleParentOld; sampleChild] [sampleEdge])
      <-> exists e, In e [sampleEdge]
                    /\ source e = id sampleParentOld /\ target e = id sampleChild).
Proof.
  assert (H1 : id sampleParentOld <> ""%string) by discriminate.
  assert (H2 : id sampleChild <> ""%string) by discriminate.
  assert (H3 : In sampleParentOld [sampleParentOld; sampleChild]) by (left; reflexivity).
  assert (H4 : In sampleChild [sampleParentOld; sampleChild]) by (right; left; reflexivity).
  split; [exact H1|]. split; [exact H2|]. split; [exact H3|]. split; [exact H4|].
  exact (outgoers_incomers_dual sampleParentOld sampleChild _ [sampleEdge] H1 H2 H3 H4).
Defined.

(** Removing the parent takes the child and the edge along. *)
Lemma getElementsToRemove_cascade_witness :
  NoDup (map (fun n => id (rn_node n)) sampleRemovables)
  /\ In sampleRemovableChild
       (fst (getElementsToRemove ["p"%string] [] sampleRemovables [sampleEdge] None))
  /\ In sampleEdge
       (snd (getElementsToRemove ["p"%string] [] sampleRemovables [sampleEdge] None)).
Proof.
  assert (Hnd : NoDup (map (fun n => id (rn_node n)) sampleRemovables)).
  { constructor; [intros [H|[]]; discriminate|]. constructor; [intros []|constructor]. }
  split; [exact Hnd|].
  destruct (getElementsToRemove_cascade ["p"%string] [] sampleRemovables [sampleEdge] Hnd)
    as (_ & Hreq & Hchild & _ & Hedge & _).
  assert (Hp : In sampleRemovableParent
                 (fst (getElementsToRemove ["p"%string] [] sampleRemovables [sampleEdge] None))).
  { apply Hreq; [left; reflexivity|reflexivity|left; reflexivity]. }
  split.
  - apply (Hchild [] sampleRemovableParent [] sampleRemovableChild []);
      [reflexivity|exact Hp|reflexivity|discriminate|reflexivity].
  - apply (Hedge sampleEdge sampleRemovableParent);
      [left; reflexivity|reflexivity|exact Hp|left; reflexivity].
Defined.

(** The child of width 30.9 dragged to x = 5000 under its parent at x = 39.2
    of width 79.1 stops at x = 87.4. *)
Lemma calculateNodePosition_within_parent_witness :
  JsMap.get "c" (nodeLookup doubleAdopted) = Some doubleAdoptedChild
  /\ JsMap.get "p" (nodeLookup doubleAdopted) = Some doubleAdoptedParent
  /\ exists placed,
       F64Graph.calculateNodePosition "c" (finPos (5000, 5)) (nodeLookup doubleAdopted)
         None None
       = Some
           {| np_position :=
                {| x := F64.add
                          (F64.sub (x placed)
                             (x (positionAbsolute (internals doubleAdoptedParent))))
                          (F64.mul (F64.lit (309 # 10)) zero);
                   y := F64.add
                          (F64.sub (y placed)
                             (y (positionAbsolute (internals doubleAdoptedParent))))
                          (F64.mul (Fin 20) zero) |};
              np_positionAbsolute := placed;
              np_errors := [] |}
       /\ num_le (x placed)
            (F64.sub (F64.add (x (positionAbsolute (internals doubleAdoptedParent)))
                        (F64.lit (791 # 10))) (F64.lit (309 # 10)))
       /\ num_le (y placed)
            (F64.sub (F64.add (y (positionAbsolute (internals doubleAdoptedParent)))
                        (Fin 100)) (Fin 20)).
Proof.
  split; [reflexivity|]. split; [reflexivity|].
  destruct (calculateNodePosition_within_parent (nodeLookup doubleAdopted) "c" "p"
              doubleAdoptedChild doubleAdoptedParent (finPos (5000, 5)) None None
              (F64.lit (791 # 10)) (Fin 100) (F64.lit (309 # 10)) (Fin 20)
              eq_refl eq_refl ltac:(discriminate) eq_refl eq_refl eq_refl
              (conj eq_refl eq_refl) eq_refl eq_refl eq_refl eq_refl eq_refl
              eq_refl eq_refl eq_refl eq_refl eq_refl)
    as (placed & E & Ux & Uy & _).
  exists placed. split; [exact E|]. split; [exact Ux|exact Uy].
Defined.

(* ------------------------------------------------------------------------- *)
(** ** Instance of the property of auto panning *)

(** Near the left edge the pane moves with [(1 / 3) * 0.1], near the bottom
    edge with [(-2 / 3) * 0.1], both rounded twice. *)
Lemma calcAutoPan_within_speed_witness :
  representable panSpeed /\ 0 <= panSpeed /\ ~ 3 == 0
  /\ F64.lit (1 # 10) = Fin panSpeed
  /\ F64Utils.calcAutoPan panPosition panBounds (Some (Fin panSpeed)) (Some (Fin 3))
     = (Fin (4803839602528529 # 144115188075855872),
        Fin (- 4803839602528529 # 72057594037927936))
  /\ inRange (Fin (- panSpeed))
       (fst (F64Utils.calcAutoPan panPosition panBounds (Some (Fin panSpeed)) (Some (Fin 3))))
       (Fin panSpeed)
  /\ inRange (Fin (- panSpeed))
       (snd (F64Utils.calcAutoPan panPosition panBounds (Some (Fin panSpeed)) (Some (Fin 3))))
       (Fin panSpeed).
Proof.
  assert (Rs : representable panSpeed) by (vm_compute; reflexivity).
  assert (Hs : 0 <= panSpeed) by (vm_compute; discriminate).
  assert (Hd : ~ 3 == 0) by (intros H; discriminate H).
  destruct (calcAutoPan_within_speed panPosition panBounds (Some (Fin panSpeed))
              (Some (Fin 3)) panSpeed 3 eq_refl eq_refl Rs Hs Hd) as (Mx & My & _).
  split; [exact Rs|]. split; [exact Hs|]. split; [exact Hd|].
  split; [vm_compute; reflexivity|]. split; [vm_compute; reflexivity|].
  split; [exact Mx | exact My].
Defined.

(** The sample store: its selected child and edge are unselected, and both
    changes were reported to the callback of the nodes. *)
Lemma resetSelectedElements_unselects_witness :
  fs_hasDefaultNodes sampleStore = true /\ fs_hasDefaultEdges sampleStore = true
  /\ map id (fs_nodes (resetSelectedElements None sampleStore))
     = map id (fs_nodes sampleStore)
  /\ map id (fs_edges (resetSelectedElements None sampleStore))
     = map id (fs_edges sampleStore)
  /\ (forall n, In n (fs_nodes (resetSelectedElements None sampleStore)) ->
        truthyBool (selected n) = false)
  /\ (forall e, In e (fs_edges (resetSelectedElements None sampleStore)) ->
        truthyBool (selected e) = false)
  /\ resetSelectedElements None (resetSelectedElements None sampleStore)
     = resetSelectedElements None sampleStore.
Proof.
  split; [reflexivity|]. split; [reflexivity|].
  exact (resetSelectedElements_unselects None sampleStore eq_refl eq_refl).
Defined.

(** Selecting the second edge only, in the edge lookup of the sample store. *)
Lemma selection_changes_applied_witness :
  NoDup (map id (fs_edges sampleStore))
  /\ mirrors (fs_edges sampleStore) (fs_edgeLookup sampleStore)
  /\ map id
       (fst (applyChanges
               (fst (getSelectionChanges (fs_edgeLookup sampleStore) ["e2"%string] false))
               (fs_edges sampleStore) 300%nat))
     = map id (fs_edges sampleStore)
  /\ (forall e,
        In e (fst (applyChanges
                     (fst (getSelectionChanges (fs_edgeLookup sampleStore)
                             ["e2"%string] false))
                     (fs_edges sampleStore) 300%nat)) ->
        truthyBool (selected e) = JsSet.has (id e) ["e2"%string])
  /\ mirrors (fs_edges sampleStore) (buildEdgeLookup (fs_edges sampleStore)).
Proof.
  assert (Hnd : NoDup (map id (fs_edges sampleStore))).
  { repeat (constructor; [cbn; intuition discriminate|]). constructor. }
  assert (Hm : mirrors (fs_edges sampleStore) (fs_edgeLookup sampleStore)).
  { repeat constructor. }
  split; [exact Hnd|]. split; [exact Hm|].
  exact (selection_changes_applied (fs_edges sampleStore) (fs_edgeLookup sampleStore)
           ["e2"%string] false 300%nat Hnd Hm).
Defined.
